(** * The AgentCore streaming proxy (src/lambda/agentcore-proxy/index.ts)

    A shallow embedding of the Lambda handler that relays an AgentCore
    Runtime response stream to the caller, and the properties of its
    request normalisation, session assignment, relay and failure report. *)

From Stdlib Require Import NArith ZArith List Lia Bool String Ascii.
From stdpp Require Import base option list gmap.
Import ListNotations.

Set Warnings "-register-all".
Local Open Scope N_scope.

(** ** JavaScript strings

    A JavaScript string is a sequence of UTF-16 code units; a byte buffer
    (Buffer, Uint8Array) is a sequence of bytes.  Both are lists of [N]. *)

Abbreviation jsstring := (list N) (only parsing).
Abbreviation bytes := (list N) (only parsing).

(** The code units of an ASCII literal of the source. *)
Definition js (s : string) : jsstring :=
  map N_of_ascii (list_ascii_of_string s).

Definition c_tab : N := 9.
Definition c_lf : N := 10.
Definition c_cr : N := 13.
Definition c_space : N := 32.
Definition c_quote : N := 34.
Definition c_backslash : N := 92.

Definition is_digit (c : N) : bool := (48 <=? c) && (c <=? 57).
Definition is_digit19 (c : N) : bool := (49 <=? c) && (c <=? 57).
Definition is_high_surrogate (c : N) : bool := (55296 <=? c) && (c <=? 56319).
Definition is_low_surrogate (c : N) : bool := (56320 <=? c) && (c <=? 57343).

Definition hex_value (c : N) : option N :=
  if is_digit c then Some (c - 48)
  else if (97 <=? c) && (c <=? 102) then Some (c - 87)
  else if (65 <=? c) && (c <=? 70) then Some (c - 55)
  else None.

Definition hex_digit (d : N) : N :=
  if d <? 10 then 48 + d else 87 + d.

Definition hex2 (b : N) : jsstring :=
  [hex_digit (N.land (N.shiftr b 4) 15); hex_digit (N.land b 15)].

Definition hex4 (c : N) : jsstring :=
  hex2 (N.land (N.shiftr c 8) 255) ++ hex2 (N.land c 255).

(** ** JavaScript values

    The values that reach the handler are those JSON.parse builds, plus
    [undefined].  A number is kept as the JSON literal that denotes it.  An
    array carries, besides its elements, the named properties assigned to
    it.  An object is the list of its own properties in enumeration
    order. *)

Inductive value : Type :=
| VUndefined
| VNull
| VBool (b : bool)
| VNum (lit : jsstring)
| VStr (s : jsstring)
| VArr (elems : list value) (named : list (jsstring * value))
| VObj (props : list (jsstring * value)).

(** A thrown value: an instance of Error, or anything else. *)
Inductive Thrown : Type :=
| ErrorObj (name message : jsstring)
| NonError (v : value).

(** [error instanceof Error] *)
Definition instanceof_Error (t : Thrown) : bool :=
  match t with ErrorObj _ _ => true | NonError _ => false end.

(** [error.message] of an instance of Error. *)
Definition error_message (t : Thrown) : jsstring :=
  match t with ErrorObj _ message => message | NonError _ => [] end.

Inductive Completion (A : Type) : Type :=
| Normal (a : A)
| Abrupt (e : Thrown).
Arguments Normal {A} a.
Arguments Abrupt {A} e.

(** *** Property keys and property order

    An array index is the canonical decimal numeral of an integer below
    2^32 - 1.  The own properties of an object enumerate array indices
    first, in increasing order, then the other keys in creation order. *)

Fixpoint decimal_value (acc : N) (s : jsstring) : N :=
  match s with
  | [] => acc
  | c :: r => decimal_value (10 * acc + (c - 48)) r
  end.

Definition array_index (k : jsstring) : option N :=
  match k with
  | [] => None
  | c :: r =>
      if forallb is_digit k
         && ((c =? 48) && (match r with [] => true | _ => false end) || is_digit19 c)
         && (N.of_nat (List.length k) <=? 10)
         && (decimal_value 0 k <? 4294967295)
      then Some (decimal_value 0 k)
      else None
  end.

Definition jsstring_eqb (a b : jsstring) : bool :=
  bool_decide (a = b).

Fixpoint has_key (k : jsstring) (props : list (jsstring * value)) : bool :=
  match props with
  | [] => false
  | (k', _) :: r => jsstring_eqb k k' || has_key k r
  end.

Fixpoint replace_key (k : jsstring) (v : value) (props : list (jsstring * value))
  : list (jsstring * value) :=
  match props with
  | [] => []
  | (k', v') :: r =>
      if jsstring_eqb k k' then (k', v) :: r else (k', v') :: replace_key k v r
  end.

(** Where a new index key [i] goes: before the first key that is not an
    index or is a larger index. *)
Fixpoint insert_index (i : N) (k : jsstring) (v : value) (props : list (jsstring * value))
  : list (jsstring * value) :=
  match props with
  | [] => [(k, v)]
  | (k', v') :: r =>
      match array_index k' with
      | Some j => if j <? i then (k', v') :: insert_index i k v r
                  else (k, v) :: (k', v') :: r
      | None => (k, v) :: (k', v') :: r
      end
  end.

(** CreateDataProperty / assignment of an own data property. *)
Definition define_prop (k : jsstring) (v : value) (props : list (jsstring * value))
  : list (jsstring * value) :=
  if has_key k props then replace_key k v props
  else match array_index k with
       | Some i => insert_index i k v props
       | None => props ++ [(k, v)]
       end.

Fixpoint lookup_prop (k : jsstring) (props : list (jsstring * value)) : value :=
  match props with
  | [] => VUndefined
  | (k', v) :: r => if jsstring_eqb k k' then v else lookup_prop k r
  end.

(** *** ToBoolean

    A number literal denotes zero when its digits are all zero, or when it
    is so small that it rounds to zero in binary64: m * 10^e <= 2^-1075. *)

Fixpoint split_exponent (s : jsstring) : jsstring * jsstring :=
  match s with
  | [] => ([], [])
  | c :: r =>
      if (c =? 101) || (c =? 69) then ([], r)
      else let (m, e) := split_exponent r in (c :: m, e)
  end.

Fixpoint split_fraction (s : jsstring) : jsstring * jsstring :=
  match s with
  | [] => ([], [])
  | c :: r =>
      if c =? 46 then ([], r)
      else let (i, f) := split_fraction r in (c :: i, f)
  end.

Definition exponent_value (e : jsstring) : Z :=
  match e with
  | [] => 0%Z
  | c :: r =>
      if c =? 45 then (- Z.of_N (decimal_value 0 r))%Z
      else if c =? 43 then Z.of_N (decimal_value 0 r)
      else Z.of_N (decimal_value 0 e)
  end.

Definition number_is_zero (lit : jsstring) : bool :=
  let (m, e) := split_exponent lit in
  let (i, f) := split_fraction m in
  let digits := filter (fun c => is_digit c) i ++ f in
  let mant := Z.of_N (decimal_value 0 digits) in
  let ex := (exponent_value e - Z.of_nat (List.length f))%Z in
  (mant =? 0)%Z || ((ex <? 0)%Z && (mant * 2 ^ 1075 <=? 10 ^ (- ex))%Z).

Definition ToBoolean (v : value) : bool :=
  match v with
  | VUndefined | VNull => false
  | VBool b => b
  | VNum lit => negb (number_is_zero lit)
  | VStr s => match s with [] => false | _ => true end
  | VArr _ _ | VObj _ => true
  end.

(** ** JSON.parse

    The JSON grammar of ECMA-404, read in two passes that each consume one
    code unit (or one token) per step: a scanner and a pushdown recogniser
    that builds the value. *)

Inductive token : Type :=
| TLBrace | TRBrace | TLBrack | TRBrack | TColon | TComma
| TString (s : jsstring)
| TNumber (lit : jsstring)
| TTrue | TFalse | TNull.

Inductive num_phase : Type :=
| NMinus      (* after "-": a digit must follow *)
| NZero       (* after a leading 0 *)
| NInt        (* inside the integer part *)
| NDot        (* after ".": a digit must follow *)
| NFrac       (* inside the fraction *)
| NExp        (* after "e": a sign or a digit must follow *)
| NExpSign    (* after the sign of the exponent: a digit must follow *)
| NExpDigits. (* inside the exponent *)

Inductive lex_state : Type :=
| LStart
| LStr (acc : jsstring)                      (* inside a string, reversed *)
| LEsc (acc : jsstring)                      (* after a backslash *)
| LHex (acc : jsstring) (n : nat) (code : N) (* inside \uXXXX, n digits read *)
| LLit (rest : jsstring) (t : token)         (* inside true, false or null *)
| LNum (ph : num_phase) (acc : jsstring).    (* inside a number, reversed *)

Definition is_ws (c : N) : bool :=
  (c =? c_tab) || (c =? c_lf) || (c =? c_cr) || (c =? c_space).

Definition lex_start (c : N) : option (lex_state * list token) :=
  if is_ws c then Some (LStart, [])
  else if c =? 123 then Some (LStart, [TLBrace])
  else if c =? 125 then Some (LStart, [TRBrace])
  else if c =? 91 then Some (LStart, [TLBrack])
  else if c =? 93 then Some (LStart, [TRBrack])
  else if c =? 58 then Some (LStart, [TColon])
  else if c =? 44 then Some (LStart, [TComma])
  else if c =? c_quote then Some (LStr [], [])
  else if c =? 45 then Some (LNum NMinus [c], [])
  else if c =? 48 then Some (LNum NZero [c], [])
  else if is_digit19 c then Some (LNum NInt [c], [])
  else if c =? 116 then Some (LLit (js "rue") TTrue, [])
  else if c =? 102 then Some (LLit (js "alse") TFalse, [])
  else if c =? 110 then Some (LLit (js "ull") TNull, [])
  else None.

Definition escape_char (c : N) : option N :=
  if c =? c_quote then Some c_quote
  else if c =? c_backslash then Some c_backslash
  else if c =? 47 then Some 47
  else if c =? 98 then Some 8
  else if c =? 102 then Some 12
  else if c =? 110 then Some c_lf
  else if c =? 114 then Some c_cr
  else if c =? 116 then Some c_tab
  else None.

Definition num_accepting (ph : num_phase) : bool :=
  match ph with
  | NZero | NInt | NFrac | NExpDigits => true
  | NMinus | NDot | NExp | NExpSign => false
  end.

(** The phase a number moves to on [c], when [c] continues it. *)
Definition num_next (ph : num_phase) (c : N) : option num_phase :=
  let dot := c =? 46 in
  let e := (c =? 101) || (c =? 69) in
  match ph with
  | NMinus => if c =? 48 then Some NZero else if is_digit19 c then Some NInt else None
  | NZero => if dot then Some NDot else if e then Some NExp else None
  | NInt => if is_digit c then Some NInt
            else if dot then Some NDot else if e then Some NExp else None
  | NDot => if is_digit c then Some NFrac else None
  | NFrac => if is_digit c then Some NFrac else if e then Some NExp else None
  | NExp => if (c =? 43) || (c =? 45) then Some NExpSign
            else if is_digit c then Some NExpDigits else None
  | NExpSign => if is_digit c then Some NExpDigits else None
  | NExpDigits => if is_digit c then Some NExpDigits else None
  end.

Definition lex_step (st : lex_state) (c : N) : option (lex_state * list token) :=
  match st with
  | LStart => lex_start c
  | LStr acc =>
      if c =? c_quote then Some (LStart, [TString (rev acc)])
      else if c =? c_backslash then Some (LEsc acc, [])
      else if c <? 32 then None
      else Some (LStr (c :: acc), [])
  | LEsc acc =>
      if c =? 117 then Some (LHex acc 0 0, [])
      else match escape_char c with
           | Some d => Some (LStr (d :: acc), [])
           | None => None
           end
  | LHex acc n code =>
      match hex_value c with
      | Some d =>
          let code' := 16 * code + d in
          match n with
          | 3%nat => Some (LStr (code' :: acc), [])
          | _ => Some (LHex acc (S n) code', [])
          end
      | None => None
      end
  | LLit rest t =>
      match rest with
      | [] => None
      | [d] => if c =? d then Some (LStart, [t]) else None
      | d :: rest' => if c =? d then Some (LLit rest' t, []) else None
      end
  | LNum ph acc =>
      match num_next ph c with
      | Some ph' => Some (LNum ph' (c :: acc), [])
      | None =>
          if num_accepting ph then
            match lex_start c with
            | Some (st', ts) => Some (st', TNumber (rev acc) :: ts)
            | None => None
            end
          else None
      end
  end.

Fixpoint lex (st : lex_state) (text : jsstring) : option (list token) :=
  match text with
  | [] =>
      match st with
      | LStart => Some []
      | LNum ph acc => if num_accepting ph then Some [TNumber (rev acc)] else None
      | _ => None
      end
  | c :: r =>
      match lex_step st c with
      | Some (st', ts) =>
          match lex st' r with
          | Some ts' => Some (ts ++ ts')
          | None => None
          end
      | None => None
      end
  end.

Inductive frame : Type :=
| FArr (acc : list value)                          (* elements so far, reversed *)
| FObj (acc : list (jsstring * value)) (key : jsstring).

Inductive parse_state : Type :=
| PValue (stk : list frame)        (* a value must follow *)
| PArrOpen (stk : list frame)      (* after "[": a value or "]" *)
| PObjOpen (stk : list frame)      (* after "{": a key or "}" *)
| PObjKey (acc : list (jsstring * value)) (stk : list frame)   (* after ",": a key *)
| PObjColon (acc : list (jsstring * value)) (key : jsstring) (stk : list frame)
| PAfter (v : value) (stk : list frame).  (* [v] is complete on top of [stk] *)

Definition parse_value_token (t : token) (stk : list frame) : option parse_state :=
  match t with
  | TString s => Some (PAfter (VStr s) stk)
  | TNumber lit => Some (PAfter (VNum lit) stk)
  | TTrue => Some (PAfter (VBool true) stk)
  | TFalse => Some (PAfter (VBool false) stk)
  | TNull => Some (PAfter VNull stk)
  | TLBrack => Some (PArrOpen stk)
  | TLBrace => Some (PObjOpen stk)
  | TRBrace | TRBrack | TColon | TComma => None
  end.

Definition parse_step (st : parse_state) (t : token) : option parse_state :=
  match st with
  | PValue stk => parse_value_token t stk
  | PArrOpen stk =>
      match t with
      | TRBrack => Some (PAfter (VArr [] []) stk)
      | _ => parse_value_token t (FArr [] :: stk)
      end
  | PObjOpen stk =>
      match t with
      | TRBrace => Some (PAfter (VObj []) stk)
      | TString k => Some (PObjColon [] k stk)
      | _ => None
      end
  | PObjKey acc stk =>
      match t with
      | TString k => Some (PObjColon acc k stk)
      | _ => None
      end
  | PObjColon acc k stk =>
      match t with
      | TColon => Some (PValue (FObj acc k :: stk))
      | _ => None
      end
  | PAfter v stk =>
      match stk, t with
      | FArr acc :: stk', TComma => Some (PValue (FArr (v :: acc) :: stk'))
      | FArr acc :: stk', TRBrack => Some (PAfter (VArr (rev (v :: acc)) []) stk')
      | FObj acc k :: stk', TComma => Some (PObjKey (define_prop k v acc) stk')
      | FObj acc k :: stk', TRBrace => Some (PAfter (VObj (define_prop k v acc)) stk')
      | _, _ => None
      end
  end.

Fixpoint parse_tokens (st : parse_state) (ts : list token) : option value :=
  match ts with
  | [] => match st with PAfter v [] => Some v | _ => None end
  | t :: r =>
      match parse_step st t with
      | Some st' => parse_tokens st' r
      | None => None
      end
  end.

(** The value a text denotes, when it is JSON. *)
Definition json_value (text : jsstring) : option value :=
  match lex LStart text with
  | Some ts => parse_tokens (PValue []) ts
  | None => None
  end.

(** ** The runtime library

    What the program takes from Node.js without fixing it itself: base64 and
    UTF-8 decoding of a Buffer, the text JSON.stringify prints for a number
    (the shortest numeral of the binary64 value the literal denotes, null
    when it is not finite), and the message texts of the engine's own
    exceptions. *)

Inductive Fault : Type :=
| JsonSyntax (text : jsstring)               (* JSON.parse(text) *)
| ReadOfNullish (v : value) (key : jsstring) (* v.key with v null or undefined *)
| WriteOfNullish (v : value) (key : jsstring)
| CreateOnPrimitive (v : value) (key : jsstring) (* v.key = x, v primitive, strict mode *)
| PipelineSource.                            (* pipeline(undefined, dst) *)

Class Runtime : Type := {
  Buffer_from_base64 : jsstring -> bytes;
  Buffer_toString_utf8 : bytes -> jsstring;
  Number_toString : jsstring -> jsstring;
  fault_message : Fault -> jsstring
}.

(** *** JSON.stringify *)

Definition unicode_escape (c : N) : jsstring :=
  [c_backslash; 117] ++ hex4 c.

Definition quote_unit (c : N) : jsstring :=
  if c =? 8 then [c_backslash; 98]
  else if c =? c_tab then [c_backslash; 116]
  else if c =? c_lf then [c_backslash; 110]
  else if c =? 12 then [c_backslash; 102]
  else if c =? c_cr then [c_backslash; 114]
  else if c =? c_quote then [c_backslash; c_quote]
  else if c =? c_backslash then [c_backslash; c_backslash]
  else if c <? 32 then unicode_escape c
  else [c].

(** A surrogate is printed as it is only inside a pair. *)
Fixpoint quote_body (s : jsstring) : jsstring :=
  match s with
  | [] => []
  | c :: r =>
      if is_high_surrogate c then
        match r with
        | d :: r' =>
            if is_low_surrogate d then c :: d :: quote_body r'
            else unicode_escape c ++ quote_body r
        | [] => unicode_escape c
        end
      else if is_low_surrogate c then unicode_escape c ++ quote_body r
      else quote_unit c ++ quote_body r
  end.

Definition quote (s : jsstring) : jsstring :=
  [c_quote] ++ quote_body s ++ [c_quote].

Fixpoint join_comma (parts : list jsstring) : jsstring :=
  match parts with
  | [] => []
  | [p] => p
  | p :: r => p ++ [44] ++ join_comma r
  end.

(** [None] is the [undefined] JSON.stringify returns for [undefined]: such
    a property is left out of an object, such an element prints as null. *)
Fixpoint stringify {rt : Runtime} (v : value) : option jsstring :=
  match v with
  | VUndefined => None
  | VNull => Some (js "null")
  | VBool true => Some (js "true")
  | VBool false => Some (js "false")
  | VNum lit => Some (Number_toString lit)
  | VStr s => Some (quote s)
  | VArr elems _ =>
      let parts := map (fun x => default (js "null") (stringify x)) elems in
      Some ([91] ++ join_comma parts ++ [93])
  | VObj props =>
      let parts :=
        omap (fun kv => match stringify (snd kv) with
                        | Some t => Some (quote (fst kv) ++ [58] ++ t)
                        | None => None
                        end) props in
      Some ([123] ++ join_comma parts ++ [125])
  end.

(** JSON.stringify of an object, which is always a string. *)
Definition JSON_stringify {rt : Runtime} (v : value) : jsstring :=
  match stringify v with Some t => t | None => [] end.

(** *** JSON.parse, property access *)

Definition SyntaxError {rt : Runtime} (f : Fault) : Thrown :=
  ErrorObj (js "SyntaxError") (fault_message f).

Definition TypeError {rt : Runtime} (f : Fault) : Thrown :=
  ErrorObj (js "TypeError") (fault_message f).

Definition JSON_parse {rt : Runtime} (text : jsstring) : Completion value :=
  match json_value text with
  | Some v => Normal v
  | None => Abrupt (SyntaxError (JsonSyntax text))
  end.

(** [v.key], for a key that is neither an array index nor a member of a
    built-in prototype (the program reads prompt and sessionId). *)
Definition get_prop {rt : Runtime} (v : value) (key : jsstring) : Completion value :=
  match v with
  | VUndefined | VNull => Abrupt (TypeError (ReadOfNullish v key))
  | VObj props => Normal (lookup_prop key props)
  | VArr _ named => Normal (lookup_prop key named)
  | VBool _ | VNum _ | VStr _ => Normal VUndefined
  end.

(** [v.key = x] in strict mode (the source is an ES module), giving the
    object after the assignment. *)
Definition set_prop {rt : Runtime} (v : value) (key : jsstring) (x : value)
  : Completion value :=
  match v with
  | VUndefined | VNull => Abrupt (TypeError (WriteOfNullish v key))
  | VObj props => Normal (VObj (define_prop key x props))
  | VArr elems named => Normal (VArr elems (define_prop key x named))
  | VBool _ | VNum _ | VStr _ => Abrupt (TypeError (CreateOnPrimitive v key))
  end.

(** *** TextEncoder.encode: UTF-8, a lone surrogate becoming U+FFFD *)

Definition utf8_of_code_point (cp : N) : bytes :=
  if cp <? 128 then [cp]
  else if cp <? 2048 then
    [192 + N.shiftr cp 6; 128 + N.land cp 63]
  else if cp <? 65536 then
    [224 + N.shiftr cp 12; 128 + N.land (N.shiftr cp 6) 63; 128 + N.land cp 63]
  else
    [240 + N.shiftr cp 18; 128 + N.land (N.shiftr cp 12) 63;
     128 + N.land (N.shiftr cp 6) 63; 128 + N.land cp 63].

Definition replacement_utf8 : bytes := [239; 191; 189].

Fixpoint TextEncoder_encode (s : jsstring) : bytes :=
  match s with
  | [] => []
  | c :: r =>
      if is_high_surrogate c then
        match r with
        | d :: r' =>
            if is_low_surrogate d then
              utf8_of_code_point (65536 + (c - 55296) * 1024 + (d - 56320))
                ++ TextEncoder_encode r'
            else replacement_utf8 ++ TextEncoder_encode r
        | [] => replacement_utf8
        end
      else if is_low_surrogate c then replacement_utf8 ++ TextEncoder_encode r
      else utf8_of_code_point c ++ TextEncoder_encode r
  end.

(** *** crypto.randomUUID: a version 4 UUID printed from 16 random bytes *)

Definition uuid_of_bytes (b : bytes) : jsstring :=
  let byte i := N.land (nth i b 0) 255 in
  let b6 := N.lor (N.land (byte 6%nat) 15) 64 in
  let b8 := N.lor (N.land (byte 8%nat) 63) 128 in
  hex2 (byte 0%nat) ++ hex2 (byte 1%nat) ++ hex2 (byte 2%nat) ++ hex2 (byte 3%nat)
    ++ [45] ++ hex2 (byte 4%nat) ++ hex2 (byte 5%nat)
    ++ [45] ++ hex2 b6 ++ hex2 (byte 7%nat)
    ++ [45] ++ hex2 b8 ++ hex2 (byte 9%nat)
    ++ [45] ++ hex2 (byte 10%nat) ++ hex2 (byte 11%nat) ++ hex2 (byte 12%nat)
    ++ hex2 (byte 13%nat) ++ hex2 (byte 14%nat) ++ hex2 (byte 15%nat).

(** ** The handler's surroundings *)

(** The fields of the API Gateway event the handler reads. *)
Record APIGatewayProxyEvent : Type := {
  body : option jsstring;                              (* string | null *)
  isBase64Encoded : bool;
  queryStringParameters : option (gmap (list N) (list N))  (* map | null *)
}.

(** The metadata handed to awslambda.HttpResponseStream.from. *)
Record Metadata : Type := {
  statusCode : N;
  headers : list (jsstring * jsstring)
}.

(** What is written to the response stream: a string or a Buffer. *)
Inductive chunk : Type :=
| Text (s : jsstring)
| Bytes (b : bytes).

(** The operations on the response stream.  [OpDestroy] is the
    stream.destroy(err) that stream.pipeline performs on the destination when
    the transfer fails. *)
Inductive ChanOp : Type :=
| OpFrom (m : Metadata)
| OpWrite (c : chunk)
| OpEnd
| OpDestroy.

(** The input of InvokeAgentRuntimeCommand. *)
Record Command : Type := {
  agentRuntimeArn : jsstring;
  runtimeSessionId : value;
  payload : bytes;
  qualifier : jsstring
}.

Inductive ConsoleLevel : Type := LogLevel | ErrorLevel.

(** What the handler does to the outside, in order.  A channel operation is
    recorded with the exception it raised, if any. *)
Inductive Effect : Type :=
| EConsole (level : ConsoleLevel) (label : jsstring)
| EChan (op : ChanOp) (fault : option Thrown)
| ESend (cmd : Command).

(** The body of a backend response: its chunks, then a clean end or an error. *)
Inductive StreamEnd : Type :=
| EndOfStream
| StreamError (e : Thrown).

Record Readable : Type := {
  chunks : list bytes;
  ending : StreamEnd
}.

(** bedrockClient.send: rejected, or resolved with an optional body. *)
Inductive SendResult : Type :=
| SendRejects (e : Thrown)
| SendResolves (response : option Readable).

(** What one invocation meets: the random source, the backend, and the
    exceptions the response stream raises (as a function of everything done
    so far and of the operation attempted). *)
Record Env : Type := {
  random_bytes : nat -> bytes;
  backend : Command -> SendResult;
  chan_fault : list Effect -> ChanOp -> option Thrown
}.

#[projections(primitive)]
Record World : Type := {
  trace : list Effect;
  draws : nat          (* how many times the random source was read *)
}.

Definition initial_world : World := {| trace := []; draws := 0 |}.

Definition emit (e : Effect) (w : World) : World :=
  {| trace := trace w ++ [e]; draws := draws w |}.

(** *** Computations with effects and exceptions *)

Definition Eff (A : Type) : Type := World -> Completion A * World.

#[global] Instance Eff_ret : MRet Eff :=
  fun A a w => (Normal a, w).

#[global] Instance Eff_bind : MBind Eff :=
  fun A B f m w =>
    match m w with
    | (Normal a, w') => f a w'
    | (Abrupt e, w') => (Abrupt e, w')
    end.

Definition throw {A : Type} (e : Thrown) : Eff A :=
  fun w => (Abrupt e, w).

Definition lift {A : Type} (c : Completion A) : Eff A :=
  fun w => (c, w).

(** try { body } catch (e) { handler e } *)
Definition try_catch {A : Type} (body : Eff A) (handler : Thrown -> Eff A) : Eff A :=
  fun w =>
    match body w with
    | (Normal a, w') => (Normal a, w')
    | (Abrupt e, w') => handler e w'
    end.

(** try { body } catch (e) { handler e } finally { final }: [final] runs
    whatever happened, and an exception of its own replaces the result. *)
Definition try_catch_finally {A : Type} (body : Eff A) (handler : Thrown -> Eff A)
    (final : Eff unit) : Eff A :=
  fun w =>
    let (r, w1) := try_catch body handler w in
    match final w1 with
    | (Normal _, w2) => (r, w2)
    | (Abrupt e, w2) => (Abrupt e, w2)
    end.

Definition console (level : ConsoleLevel) (label : jsstring) : Eff unit :=
  fun w => (Normal (), emit (EConsole level label) w).

(** The default prompt of the source, in code units. *)
Definition default_prompt : jsstring :=
  [12371; 12435; 12395; 12385; 12399; 12289; 20803; 27671; 12391; 12377; 12363; 65311].

Definition truthy_string (s : option jsstring) : bool :=
  match s with
  | Some (_ :: _) => true
  | _ => false
  end.

Definition string_or_undefined (s : option jsstring) : value :=
  match s with
  | Some t => VStr t
  | None => VUndefined
  end.

(** [event.queryStringParameters?.[name]] *)
Definition query_parameter (event : APIGatewayProxyEvent) (name : jsstring)
  : option jsstring :=
  match queryStringParameters event with
  | Some params => params !! name
  | None => None
  end.

(** The two frames of the failure report. *)
Definition internal_error_frame : jsstring :=
  js "data: {" ++ [c_quote] ++ js "error" ++ [c_quote] ++ js ": "
    ++ [c_quote] ++ js "Internal server error" ++ [c_quote] ++ js "}" ++ [c_lf; c_lf].

Definition error_frame (message : jsstring) : jsstring :=
  js "data: {" ++ [c_quote] ++ js "error" ++ [c_quote] ++ js ": "
    ++ [c_quote] ++ message ++ [c_quote] ++ js "}" ++ [c_lf; c_lf].

Definition responseMetadata : Metadata := {|
  statusCode := 200;
  headers := [(js "Content-Type", js "text/event-stream");
              (js "Cache-Control", js "no-cache");
              (js "X-Accel-Buffering", js "no")]
|}.

(** ** Module initialisation (lines 10-22) *)

Record ProcessEnv : Type := {
  AGENT_ARN : option jsstring;
  AWS_REGION : option jsstring
}.

(** What the module holds once loaded. *)
Record Module : Type := {
  agentCoreArn : jsstring;
  region : jsstring
}.

Definition load_module (penv : ProcessEnv) : Completion Module :=
  match AGENT_ARN penv with
  | Some (c :: arn) =>
      Normal {| agentCoreArn := c :: arn;
                region := if truthy_string (AWS_REGION penv)
                          then default [] (AWS_REGION penv)
                          else js "us-west-2" |}
  | _ => Abrupt (ErrorObj (js "Error")
                   (js "AGENT_ARN must be set in environment variables"))
  end.

(** ** The program *)

Section Program.

Context {rt : Runtime}.
Variable env : Env.

(** A call on the response stream. *)
Definition chan (op : ChanOp) : Eff unit :=
  fun w =>
    match chan_fault env (trace w) op with
    | None => (Normal (), emit (EChan op None) w)
    | Some e => (Abrupt e, emit (EChan op (Some e)) w)
    end.

(** The destination destroyed by stream.pipeline; this does not throw. *)
Definition destroy : Eff unit :=
  fun w => (Normal (), emit (EChan OpDestroy None) w).

Definition randomUUID : Eff jsstring :=
  fun w => (Normal (uuid_of_bytes (random_bytes env (draws w))),
            {| trace := trace w; draws := S (draws w) |}).

Definition bedrockClient_send (cmd : Command) : Eff (option Readable) :=
  fun w =>
    match backend env cmd with
    | SendRejects e => (Abrupt e, emit (ESend cmd) w)
    | SendResolves r => (Normal r, emit (ESend cmd) w)
    end.

(** The text that is parsed when the body is [b]. *)
Definition body_text (event : APIGatewayProxyEvent) (b : jsstring) : jsstring :=
  if isBase64Encoded event then Buffer_toString_utf8 (Buffer_from_base64 b) else b.

(** parseClientRequest, the choice of [params] (lines 126-145).  The
    declared type ClientRequest (lines 25-28) is erased at run time: [params]
    is whatever value JSON.parse returns. *)
Definition select_params (event : APIGatewayProxyEvent) : Completion value :=
  if isBase64Encoded event && truthy_string (body event) then
    let decodedBody :=
      Buffer_toString_utf8 (Buffer_from_base64 (default [] (body event))) in
    JSON_parse decodedBody
  else if truthy_string (body event) then
    JSON_parse (default [] (body event))
  else if truthy_string (query_parameter event (js "prompt")) then
    Normal (VObj [(js "prompt",
                   string_or_undefined (query_parameter event (js "prompt")));
                  (js "sessionId",
                   string_or_undefined (query_parameter event (js "sessionId")))])
  else
    Normal (VObj [(js "prompt", VStr default_prompt)]).

(** parseClientRequest, the session identifier (line 148):
    [params.sessionId = params.sessionId || randomUUID()]. *)
Definition assign_sessionId (params : value) : Eff value :=
  supplied ← lift (get_prop params (js "sessionId"));
  sessionId ← (if ToBoolean supplied then mret supplied
               else (uuid ← randomUUID; mret (VStr uuid)) : Eff value);
  lift (set_prop params (js "sessionId") sessionId).

(** parseClientRequest (lines 123-151). *)
Definition parseClientRequest (event : APIGatewayProxyEvent) : Eff value :=
  params ← lift (select_params event);
  assign_sessionId params.

(** awslambda.HttpResponseStream.from(responseStream, metadata): attaches
    the status and headers to the response stream; the stream it returns
    writes to the same channel. *)
Definition HttpResponseStream_from (m : Metadata) : Eff unit :=
  chan (OpFrom m).

(** stream.pipeline(source, httpStream), awaited (line 99): every chunk of
    the source is written to the destination in the order it arrives; a
    clean end of the source ends the destination; an error of the source or
    of the destination rejects with it, after the destination was destroyed
    (the Node.js documentation: stream.pipeline() will call
    stream.destroy(err) on all streams except those that have already
    finished or closed).  The error of a destination call is here the error
    the destination reports for it.  A destination whose write or end throws
    synchronously is outside this model: stream.pipeline does not catch such
    an exception, nothing is destroyed and the awaited promise never settles.
    The model is therefore faithful to a run that reaches the transfer when
    the calls of the pipeline do not raise; for any other stream it is
    faithful up to the first such call, which is what the invariants stated
    for every stream are about. *)
Fixpoint relay (cs : list bytes) (fin : StreamEnd) : Eff unit :=
  match cs with
  | [] =>
      match fin with
      | EndOfStream => try_catch (chan OpEnd) (fun e => destroy;; throw e)
      | StreamError e => destroy;; throw e
      end
  | c :: r =>
      try_catch (chan (OpWrite (Bytes c))) (fun e => destroy;; throw e);;
      relay r fin
  end.

Definition asyncPipeline (source : option Readable) : Eff unit :=
  match source with
  | Some r => relay (chunks r) (ending r)
  | None => throw (TypeError PipelineSource)
  end.

(** The catch block of the handler (lines 102-116). *)
Definition report_failure (error : Thrown) : Eff unit :=
  console ErrorLevel (js "Request processing failed:");;
  try_catch_finally
    (chan (OpWrite (Text internal_error_frame));;
     if instanceof_Error error
     then chan (OpWrite (Text (error_frame (error_message error))))
     else mret ())
    (fun streamError => console ErrorLevel (js "Error stream write failed:"))
    (chan OpEnd).

(** The try block of the handler (lines 59-101). *)
Definition process_request (md : Module) (event : APIGatewayProxyEvent) : Eff unit :=
  requestParams ← parseClientRequest event;
  console LogLevel (js "Parsed request parameters:");;
  HttpResponseStream_from responseMetadata;;
  sessionId ← lift (get_prop requestParams (js "sessionId"));
  prompt ← lift (get_prop requestParams (js "prompt"));
  let invokeCommand := {|
    agentRuntimeArn := agentCoreArn md;
    runtimeSessionId := sessionId;
    payload := TextEncoder_encode (JSON_stringify (VObj [(js "prompt", prompt)]));
    qualifier := js "DEFAULT"
  |} in
  console LogLevel (js "Calling AgentCore Runtime...");;
  runtimeResponse ← bedrockClient_send invokeCommand;
  console LogLevel (js "Received response, initiating stream transfer...");;
  asyncPipeline runtimeResponse;;
  console LogLevel (js "Stream transfer completed").

(** handler (lines 51-118). *)
Definition handler (md : Module) (event : APIGatewayProxyEvent) : Eff unit :=
  console LogLevel (js "Incoming request:");;
  try_catch (process_request md event) report_failure.

End Program.

(** One execution environment: the module is loaded once; only then are
    requests handled, each in a world of its own. *)
Inductive Execution : Type :=
| InitError (e : Thrown)
| Served (results : list (Completion unit * World)).

Definition run_lambda {rt : Runtime} (penv : ProcessEnv)
    (requests : list (Env * APIGatewayProxyEvent)) : Execution :=
  match load_module penv with
  | Abrupt e => InitError e
  | Normal md =>
      Served (map (fun '(env, event) => handler env md event initial_world) requests)
  end.

(** ** Reading a trace *)

(** The operations that reached the channel, in order (no exception). *)
Fixpoint channel_ops (tr : list Effect) : list ChanOp :=
  match tr with
  | [] => []
  | EChan op None :: r => op :: channel_ops r
  | _ :: r => channel_ops r
  end.

(** The operations attempted on the channel, in order. *)
Fixpoint channel_calls (tr : list Effect) : list ChanOp :=
  match tr with
  | [] => []
  | EChan op _ :: r => op :: channel_calls r
  | _ :: r => channel_calls r
  end.

(** The commands sent to the backend, in order. *)
Fixpoint sent_commands (tr : list Effect) : list Command :=
  match tr with
  | [] => []
  | ESend cmd :: r => cmd :: sent_commands r
  | _ :: r => sent_commands r
  end.

(** The chunks written to the channel, in order. *)
Fixpoint written (ops : list ChanOp) : list chunk :=
  match ops with
  | [] => []
  | OpWrite c :: r => c :: written r
  | _ :: r => written r
  end.

Definition is_from (op : ChanOp) : bool :=
  match op with OpFrom _ => true | _ => false end.

Definition is_end (op : ChanOp) : bool :=
  match op with OpEnd => true | _ => false end.

(** How many times the end of the stream was called. *)
Definition count_ends (ops : list ChanOp) : nat :=
  length (List.filter is_end ops).

(** A response stream that never raises. *)
Definition healthy (env : Env) : Prop :=
  forall tr op, chan_fault env tr op = None.

(** ** A runtime to run the program on

    The examples below run the program on this instance of the runtime
    library: base64 read over both alphabets up to the first padding sign,
    UTF-8 decoded with U+FFFD for each byte outside a well-formed sequence,
    a number that overflows binary64 printed as null (JSON.stringify of
    Infinity) and any other number as its literal, and message texts in the
    style of V8.  The theorems hold for every instance. *)

Definition base64_value (c : N) : option N :=
  if (65 <=? c) && (c <=? 90) then Some (c - 65)
  else if (97 <=? c) && (c <=? 122) then Some (c - 71)
  else if is_digit c then Some (c + 4)
  else if (c =? 43) || (c =? 45) then Some 62
  else if (c =? 47) || (c =? 95) then Some 63
  else None.

Fixpoint base64_sextets (s : jsstring) : list N :=
  match s with
  | [] => []
  | c :: r =>
      if c =? 61 then []
      else match base64_value c with
           | Some v => v :: base64_sextets r
           | None => base64_sextets r
           end
  end.

Fixpoint base64_bytes (v : list N) : bytes :=
  match v with
  | a :: b :: c :: d :: r =>
      [a * 4 + b / 16; (b mod 16) * 16 + c / 4; (c mod 4) * 64 + d] ++ base64_bytes r
  | [a; b; c] => [a * 4 + b / 16; (b mod 16) * 16 + c / 4]
  | [a; b] => [a * 4 + b / 16]
  | _ => []
  end.

Definition is_continuation (b : N) : bool := (128 <=? b) && (b <=? 191).

Definition decode2 (b0 b1 : N) : option jsstring :=
  if (194 <=? b0) && (b0 <=? 223) && is_continuation b1
  then Some [(b0 - 192) * 64 + (b1 - 128)]
  else None.

Definition decode3 (b0 b1 b2 : N) : option jsstring :=
  let cp := (b0 - 224) * 4096 + (b1 - 128) * 64 + (b2 - 128) in
  if (224 <=? b0) && (b0 <=? 239) && is_continuation b1 && is_continuation b2
     && (2048 <=? cp) && negb ((55296 <=? cp) && (cp <=? 57343))
  then Some [cp]
  else None.

Definition decode4 (b0 b1 b2 b3 : N) : option jsstring :=
  let cp := (b0 - 240) * 262144 + (b1 - 128) * 4096 + (b2 - 128) * 64 + (b3 - 128) in
  if (240 <=? b0) && (b0 <=? 244) && is_continuation b1 && is_continuation b2
     && is_continuation b3 && (65536 <=? cp) && (cp <=? 1114111)
  then Some [55296 + (cp - 65536) / 1024; 56320 + (cp - 65536) mod 1024]
  else None.

Fixpoint utf8_decode (bs : bytes) : jsstring :=
  match bs with
  | [] => []
  | b0 :: r =>
      if b0 <? 128 then b0 :: utf8_decode r
      else
        match r with
        | [] => [65533]
        | b1 :: r1 =>
            match decode2 b0 b1 with
            | Some u => u ++ utf8_decode r1
            | None =>
                match r1 with
                | [] => 65533 :: utf8_decode r
                | b2 :: r2 =>
                    match decode3 b0 b1 b2 with
                    | Some u => u ++ utf8_decode r2
                    | None =>
                        match r2 with
                        | [] => 65533 :: utf8_decode r
                        | b3 :: r3 =>
                            match decode4 b0 b1 b2 b3 with
                            | Some u => u ++ utf8_decode r3
                            | None => 65533 :: utf8_decode r
                            end
                        end
                    end
                end
            end
        end
  end.

Definition type_name (v : value) : jsstring :=
  match v with
  | VUndefined => js "undefined"
  | VNull => js "null"
  | VBool _ => js "boolean"
  | VNum _ => js "number"
  | VStr _ => js "string"
  | VArr _ _ | VObj _ => js "object"
  end.

Definition v8_message (f : Fault) : jsstring :=
  match f with
  | JsonSyntax _ => js "Unexpected token in JSON"
  | ReadOfNullish v key =>
      js "Cannot read properties of " ++ type_name v ++ js " (reading '" ++ key ++ js "')"
  | WriteOfNullish v key =>
      js "Cannot set properties of " ++ type_name v ++ js " (setting '" ++ key ++ js "')"
  | CreateOnPrimitive v key =>
      js "Cannot create property '" ++ key ++ js "' on " ++ type_name v
  | PipelineSource => js "The source argument must be a stream. Received undefined"
  end.

(** A number literal m * 10^e is read as Infinity when it is at least
    2^1024 - 2^970, the midpoint between the largest finite binary64 number
    and 2^1024, which rounds away from it. *)
Definition number_overflows (lit : jsstring) : bool :=
  let (m, e) := split_exponent lit in
  let (i, f) := split_fraction m in
  let digits := filter (fun c => is_digit c) i ++ f in
  let mant := Z.of_N (decimal_value 0 digits) in
  let ex := (exponent_value e - Z.of_nat (List.length f))%Z in
  let bound := (2 ^ 1024 - 2 ^ 970)%Z in
  if (0 <=? ex)%Z then (bound <=? mant * 10 ^ ex)%Z
  else (bound * 10 ^ (- ex) <=? mant)%Z.

Definition reference_runtime : Runtime := {|
  Buffer_from_base64 := fun s => base64_bytes (base64_sextets s);
  Buffer_toString_utf8 := utf8_decode;
  Number_toString := fun lit => if number_overflows lit then js "null" else lit;
  fault_message := v8_message
|}.

(** An environment whose response stream never raises, with a given backend. *)
Definition quiet_env (b : Command -> SendResult) : Env := {|
  random_bytes := fun n => repeat (N.of_nat n + 171) 16;
  backend := b;
  chan_fault := fun _ _ => None
|}.

Definition stream_of (cs : list bytes) (fin : StreamEnd) : Command -> SendResult :=
  fun _ => SendResolves (Some {| chunks := cs; ending := fin |}).

Definition post (b : jsstring) : APIGatewayProxyEvent := {|
  body := Some b; isBase64Encoded := false; queryStringParameters := None
|}.

Definition post_base64 (b : jsstring) : APIGatewayProxyEvent := {|
  body := Some b; isBase64Encoded := true; queryStringParameters := None
|}.

Definition get_query (q : list (jsstring * jsstring)) : APIGatewayProxyEvent := {|
  body := None; isBase64Encoded := false;
  queryStringParameters := Some (list_to_map q)
|}.

Definition bare_request : APIGatewayProxyEvent := {|
  body := None; isBase64Encoded := false; queryStringParameters := None
|}.

Definition example_module : Module := {|
  agentCoreArn := js "arn:aws:bedrock-agentcore:us-west-2:123456789012:runtime/agent";
  region := js "us-west-2"
|}.

(** ** Vocabulary of the statements *)

(** Objects and arrays: the values a property can be assigned to. *)
Definition is_object (v : value) : bool :=
  match v with
  | VObj _ | VArr _ _ => true
  | _ => false
  end.

(** [v.key] of an object or array, which does not throw. *)
Definition own (v : value) (key : jsstring) : value :=
  match v with
  | VObj props => lookup_prop key props
  | VArr _ named => lookup_prop key named
  | _ => VUndefined
  end.

(** The object after [v.key = x]. *)
Definition with_prop (v : value) (key : jsstring) (x : value) : value :=
  match v with
  | VObj props => VObj (define_prop key x props)
  | VArr elems named => VArr elems (define_prop key x named)
  | _ => v
  end.

(** The identifier the random source gives at its draw number [d]. *)
Definition fresh_uuid (env : Env) (d : nat) : jsstring :=
  uuid_of_bytes (random_bytes env d).

(** The session identifier of the record made from [params] when the
    random source has been read [d] times, and the number of reads after. *)
Definition assigned_sessionId (env : Env) (params : value) (d : nat) : value :=
  if ToBoolean (own params (js "sessionId")) then own params (js "sessionId")
  else VStr (fresh_uuid env d).

Definition draws_after (params : value) (d : nat) : nat :=
  if ToBoolean (own params (js "sessionId")) then d else S d.

(** The command the handler builds from the request record [r]. *)
Definition invoke_command {rt : Runtime} (md : Module) (r : value) : Command := {|
  agentRuntimeArn := agentCoreArn md;
  runtimeSessionId := own r (js "sessionId");
  payload := TextEncoder_encode
               (JSON_stringify (VObj [(js "prompt", own r (js "prompt"))]));
  qualifier := js "DEFAULT"
|}.

(** The chunks of a backend stream as successful writes. *)
Definition relayed (cs : list bytes) : list Effect :=
  map (fun c => EChan (OpWrite (Bytes c)) None) cs.

(** The frames the failure report writes for [error]. *)
Definition report_frames (error : Thrown) : list chunk :=
  Text internal_error_frame ::
  (if instanceof_Error error then [Text (error_frame (error_message error))] else []).

(** The response stream accepts its metadata. *)
Definition opens (env : Env) : Prop :=
  forall tr, chan_fault env tr (OpFrom responseMetadata) = None.

(** The steps of a failure report before the stream is ended: writes of
    text frames, successful or not, and error logs. *)
Definition is_report_step (e : Effect) : bool :=
  match e with
  | EChan (OpWrite (Text _)) _ => true
  | EConsole ErrorLevel _ => true
  | _ => false
  end.

(** A response stream on which every write raises. *)
Definition broken_env : Env := {|
  random_bytes := fun n => repeat (N.of_nat n + 171) 16;
  backend := fun _ => SendRejects (ErrorObj (js "Error") (js "unreachable"));
  chan_fault := fun _ op =>
    match op with
    | OpWrite _ => Some (ErrorObj (js "Error") (js "write after end"))
    | _ => None
    end
|}.

(** The normaliser as the specification words it, a body or a query
    parameter being present when it is there at all: (1) a body marked
    base64 is decoded and parsed, (2) any other body is parsed, (3) without a
    body, a query parameter named prompt gives the record, (4) otherwise the
    default prompt. *)
Definition normalizer_as_specified {rt : Runtime} (event : APIGatewayProxyEvent)
  : Completion value :=
  match body event with
  | Some b =>
      if isBase64Encoded event
      then JSON_parse (Buffer_toString_utf8 (Buffer_from_base64 b))
      else JSON_parse b
  | None =>
      match query_parameter event (js "prompt") with
      | Some p =>
          Normal (VObj [(js "prompt", VStr p);
                        (js "sessionId",
                         string_or_undefined (query_parameter event (js "sessionId")))])
      | None => Normal (VObj [(js "prompt", VStr default_prompt)])
      end
  end.

(** The same table with present read as present and not empty. *)
Definition normalizer_table {rt : Runtime} (event : APIGatewayProxyEvent)
  : Completion value :=
  match body event with
  | Some (c :: b) =>
      if isBase64Encoded event
      then JSON_parse (Buffer_toString_utf8 (Buffer_from_base64 (c :: b)))
      else JSON_parse (c :: b)
  | _ =>
      match query_parameter event (js "prompt") with
      | Some (c :: p) =>
          Normal (VObj [(js "prompt", VStr (c :: p));
                        (js "sessionId",
                         string_or_undefined (query_parameter event (js "sessionId")))])
      | _ => Normal (VObj [(js "prompt", VStr default_prompt)])
      end
  end.

(** A string literal of a JSON text: the ASCII text between double quotes. *)
Definition dq (s : string) : jsstring :=
  [c_quote] ++ js s ++ [c_quote].

(** *** Server-Sent-Events framing *)

Fixpoint strip_prefix (p s : jsstring) : option jsstring :=
  match p, s with
  | [], _ => Some s
  | a :: p', b :: s' => if a =? b then strip_prefix p' s' else None
  | _ :: _, [] => None
  end.

(** The payload of a record of the form data: <payload> LF LF. *)
Definition sse_payload (frame : jsstring) : option jsstring :=
  match strip_prefix (js "data: ") frame with
  | Some rest =>
      match strip_prefix [c_lf; c_lf] (rev rest) with
      | Some p => Some (rev p)
      | None => None
      end
  | None => None
  end.

(** The records a consumer reads from a stream: a blank line ends one. *)
Fixpoint split_records (cur : jsstring) (s : jsstring) : list jsstring :=
  match s with
  | [] => match cur with [] => [] | _ => [rev cur] end
  | c :: r =>
      match r with
      | d :: r' =>
          if (c =? c_lf) && (d =? c_lf) then rev cur :: split_records [] r'
          else split_records (c :: cur) r
      | [] => [rev (c :: cur)]
      end
  end.

(** A code unit that may stand as it is inside a JSON string. *)
Definition plain_unit (c : N) : bool :=
  negb (c <? 32) && negb (c =? c_quote) && negb (c =? c_backslash).

(** *** Values as JSON.parse builds them *)

(** Keys in own-property order: no key twice, array indices first and in
    increasing order. *)
Definition key_before (k k' : jsstring) : bool :=
  negb (jsstring_eqb k k')
  && match array_index k, array_index k' with
     | Some i, Some j => i <? j
     | Some _, None => true
     | None, Some _ => false
     | None, None => true
     end.

Fixpoint ordered_keys (ks : list jsstring) : bool :=
  match ks with
  | [] => true
  | k :: r => forallb (key_before k) r && ordered_keys r
  end.

(** The shape of a value JSON.parse returns: no undefined, arrays without
    named properties, objects with their keys in own-property order. *)
Fixpoint json_shaped (v : value) : bool :=
  match v with
  | VUndefined => false
  | VNull | VBool _ | VNum _ | VStr _ => true
  | VArr elems named =>
      match named with [] => true | _ => false end
      && forallb json_shaped elems
  | VObj props =>
      ordered_keys (map fst props)
      && forallb (fun kv => json_shaped (snd kv)) props
  end.

(** No number anywhere inside. *)
Fixpoint number_free (v : value) : bool :=
  match v with
  | VNum _ => false
  | VUndefined | VNull | VBool _ | VStr _ => true
  | VArr elems named =>
      forallb number_free elems
      && forallb (fun kv => number_free (snd kv)) named
  | VObj props => forallb (fun kv => number_free (snd kv)) props
  end.

Fixpoint join_tokens (parts : list (list token)) : list token :=
  match parts with
  | [] => []
  | [p] => p
  | p :: r => p ++ TComma :: join_tokens r
  end.

(** The tokens of the text JSON.stringify prints for a value. *)
Fixpoint tokens_of (v : value) : list token :=
  match v with
  | VUndefined => []
  | VNull => [TNull]
  | VBool true => [TTrue]
  | VBool false => [TFalse]
  | VNum lit => [TNumber lit]
  | VStr s => [TString s]
  | VArr elems _ => TLBrack :: join_tokens (map tokens_of elems) ++ [TRBrack]
  | VObj props =>
      TLBrace ::
      join_tokens (map (fun kv => TString (fst kv) :: TColon :: tokens_of (snd kv)) props)
        ++ [TRBrace]
  end.

(** Tokens put in front of the tokens of the rest, when there are any. *)
Definition prepend (ts : list token) (o : option (list token)) : option (list token) :=
  match o with
  | Some r => Some (ts ++ r)
  | None => None
  end.

(** The text JSON.stringify prints where a value is an array element. *)
Definition text_of {rt : Runtime} (v : value) : jsstring :=
  default (js "null") (stringify v).

(** The properties of an object assigned one after the other. *)
Definition define_all (props acc : list (jsstring * value)) : list (jsstring * value) :=
  fold_left (fun a kv => define_prop (fst kv) (snd kv) a) props acc.

(** What follows the first element of an array, or the first entry of an
    object, in the tokens of its text. *)
Definition more_elements (r : list value) : list token :=
  match r with
  | [] => []
  | _ => TComma :: join_tokens (map tokens_of r)
  end.

Definition entry_tokens (kv : jsstring * value) : list token :=
  TString (fst kv) :: TColon :: tokens_of (snd kv).

Definition more_entries (r : list (jsstring * value)) : list token :=
  match r with
  | [] => []
  | _ => TComma :: join_tokens (map entry_tokens r)
  end.

(** The properties of an object under construction, the frames of the
    parser and its states, when all they hold is shaped as above. *)
Definition props_shaped (props : list (jsstring * value)) : bool :=
  ordered_keys (map fst props) && forallb (fun kv => json_shaped (snd kv)) props.

Definition frame_shaped (f : frame) : bool :=
  match f with
  | FArr acc => forallb json_shaped acc
  | FObj acc _ => props_shaped acc
  end.

Definition state_shaped (st : parse_state) : bool :=
  match st with
  | PValue stk | PArrOpen stk | PObjOpen stk => forallb frame_shaped stk
  | PObjKey acc stk | PObjColon acc _ stk => props_shaped acc && forallb frame_shaped stk
  | PAfter v stk => json_shaped v && forallb frame_shaped stk
  end.

(** *** Reading a run of the handler *)

(** The byte chunks that reached the channel, in order. *)
Fixpoint bytes_written (tr : list Effect) : list bytes :=
  match tr with
  | [] => []
  | EChan (OpWrite (Bytes c)) None :: r => c :: bytes_written r
  | _ :: r => bytes_written r
  end.

(** The text frames whose write was attempted, in order. *)
Fixpoint text_attempts (tr : list Effect) : list jsstring :=
  match tr with
  | [] => []
  | EChan (OpWrite (Text s)) _ :: r => s :: text_attempts r
  | _ :: r => text_attempts r
  end.

Definition is_channel_effect (e : Effect) : bool :=
  match e with EChan _ _ => true | _ => false end.

(** Once an end of stream has succeeded, the channel is left alone. *)
Fixpoint closed_quietly (tr : list Effect) : bool :=
  match tr with
  | [] => true
  | EChan OpEnd None :: r => forallb (fun e => negb (is_channel_effect e)) r
  | _ :: r => closed_quietly r
  end.

Definition ends_stream (e : Effect) : bool :=
  match e with EChan OpEnd None => true | _ => false end.

(** The backend is called, and a byte chunk is written, only once the
    stream has taken its metadata, and the metadata is given only once. *)
Fixpoint metadata_first (opened : bool) (tr : list Effect) : bool :=
  match tr with
  | [] => true
  | EChan (OpFrom _) f :: r =>
      negb opened && metadata_first (match f with None => true | Some _ => false end) r
  | EChan (OpWrite (Bytes _)) _ :: r => opened && metadata_first opened r
  | ESend _ :: r => opened && metadata_first opened r
  | _ :: r => metadata_first opened r
  end.

Definition metadata_neutral (e : Effect) : bool :=
  match e with
  | EChan (OpFrom _) _ | EChan (OpWrite (Bytes _)) _ | ESend _ => false
  | _ => true
  end.

(** The lines the handler logs. *)
Definition log_incoming : Effect := EConsole LogLevel (js "Incoming request:").
Definition log_parsed : Effect := EConsole LogLevel (js "Parsed request parameters:").
Definition log_calling : Effect := EConsole LogLevel (js "Calling AgentCore Runtime...").
Definition log_received : Effect :=
  EConsole LogLevel (js "Received response, initiating stream transfer...").
Definition log_completed : Effect := EConsole LogLevel (js "Stream transfer completed").
Definition log_failed : Effect := EConsole ErrorLevel (js "Request processing failed:").
Definition log_write_failed : Effect :=
  EConsole ErrorLevel (js "Error stream write failed:").

(** What a failure report does after the effects [before]: the log line,
    the attempt to write the fixed frame, possibly more report steps, and
    the attempt to end the stream, which alone decides the outcome. *)
Definition report_shape (env : Env) (before : list Effect) (error : Thrown)
    (rep : list Effect) (out : Completion unit) : Prop :=
  exists f1 rest,
    let mid := log_failed :: EChan (OpWrite (Text internal_error_frame)) f1 :: rest in
    rep = mid ++ [EChan OpEnd (chan_fault env (before ++ mid) OpEnd)]
    /\ forallb is_report_step rest = true
    /\ (text_attempts rest = []
        \/ (f1 = None /\ instanceof_Error error = true
            /\ text_attempts rest = [error_frame (error_message error)]))
    /\ out = match chan_fault env (before ++ mid) OpEnd with
             | None => Normal ()
             | Some e => Abrupt e
             end.

(** What a transfer does: the first [k] chunks are written, then either the
    stream is ended, or an operation fails or the source raises, and the
    destination is destroyed. *)
Definition relay_shape (env : Env) (before : list Effect) (cs : list bytes)
    (fin : StreamEnd) (k : nat) (tail : list Effect) (out : Completion unit) : Prop :=
  (out = Normal () /\ k = length cs /\ fin = EndOfStream
   /\ tail = [EChan OpEnd None])
  \/ exists e,
       out = Abrupt e
       /\ ((k = length cs /\ fin = StreamError e /\ tail = [EChan OpDestroy None])
           \/ (k = length cs /\ fin = EndOfStream
               /\ chan_fault env (before ++ relayed cs) OpEnd = Some e
               /\ tail = [EChan OpEnd (Some e); EChan OpDestroy None])
           \/ (exists c, cs !! k = Some c
               /\ chan_fault env (before ++ relayed (firstn k cs)) (OpWrite (Bytes c))
                  = Some e
               /\ tail = [EChan (OpWrite (Bytes c)) (Some e); EChan OpDestroy None])).

(** The calls that stream.pipeline makes on the response stream, the writes
    of byte chunks and the end of the stream, never raise. *)
Definition pipeline_quiet (env : Env) : Prop :=
  (forall tr c, chan_fault env tr (OpWrite (Bytes c)) = None)
  /\ (forall tr, chan_fault env tr OpEnd = None).

(** A response stream on which every write of a text frame raises, and
    nothing else does. *)
Definition text_broken_env (b : Command -> SendResult) : Env := {|
  random_bytes := fun n => repeat (N.of_nat n + 171) 16;
  backend := b;
  chan_fault := fun _ op =>
    match op with
    | OpWrite (Text _) => Some (ErrorObj (js "Error") (js "write failed"))
    | _ => None
    end
|}.

(** The runs of the handler from a world [w]: what it adds to the trace and
    how it completes. *)
Inductive handler_shape {rt : Runtime} (env : Env) (md : Module)
    (event : APIGatewayProxyEvent) (w : World)
  : list Effect -> Completion unit -> Prop :=
| NormaliserRaised e w' rep out :
    parseClientRequest env event (emit log_incoming w) = (Abrupt e, w') ->
    report_shape env (trace w ++ [log_incoming]) e rep out ->
    handler_shape env md event w (log_incoming :: rep) out
| MetadataRaised r w' e rep out :
    parseClientRequest env event (emit log_incoming w) = (Normal r, w') ->
    chan_fault env (trace w ++ [log_incoming; log_parsed]) (OpFrom responseMetadata)
      = Some e ->
    report_shape env
      (trace w ++ [log_incoming; log_parsed; EChan (OpFrom responseMetadata) (Some e)])
      e rep out ->
    handler_shape env md event w
      ([log_incoming; log_parsed; EChan (OpFrom responseMetadata) (Some e)] ++ rep) out
| BackendRejected r w' e rep out :
    parseClientRequest env event (emit log_incoming w) = (Normal r, w') ->
    backend env (invoke_command md r) = SendRejects e ->
    report_shape env
      (trace w ++ [log_incoming; log_parsed; EChan (OpFrom responseMetadata) None;
                   log_calling; ESend (invoke_command md r)])
      e rep out ->
    handler_shape env md event w
      ([log_incoming; log_parsed; EChan (OpFrom responseMetadata) None;
        log_calling; ESend (invoke_command md r)] ++ rep) out
| BodyMissing r w' rep out :
    parseClientRequest env event (emit log_incoming w) = (Normal r, w') ->
    backend env (invoke_command md r) = SendResolves None ->
    report_shape env
      (trace w ++ [log_incoming; log_parsed; EChan (OpFrom responseMetadata) None;
                   log_calling; ESend (invoke_command md r); log_received])
      (TypeError PipelineSource) rep out ->
    handler_shape env md event w
      ([log_incoming; log_parsed; EChan (OpFrom responseMetadata) None;
        log_calling; ESend (invoke_command md r); log_received] ++ rep) out
| Relayed r w' src k tail :
    parseClientRequest env event (emit log_incoming w) = (Normal r, w') ->
    backend env (invoke_command md r) = SendResolves (Some src) ->
    relay_shape env
      (trace w ++ [log_incoming; log_parsed; EChan (OpFrom responseMetadata) None;
                   log_calling; ESend (invoke_command md r); log_received])
      (chunks src) (ending src) k tail (Normal ()) ->
    handler_shape env md event w
      ([log_incoming; log_parsed; EChan (OpFrom responseMetadata) None;
        log_calling; ESend (invoke_command md r); log_received]
         ++ relayed (firstn k (chunks src)) ++ tail ++ [log_completed]) (Normal ())
| RelayFailed r w' src k tail e rep out :
    parseClientRequest env event (emit log_incoming w) = (Normal r, w') ->
    backend env (invoke_command md r) = SendResolves (Some src) ->
    relay_shape env
      (trace w ++ [log_incoming; log_parsed; EChan (OpFrom responseMetadata) None;
                   log_calling; ESend (invoke_command md r); log_received])
      (chunks src) (ending src) k tail (Abrupt e) ->
    report_shape env
      (trace w ++ [log_incoming; log_parsed; EChan (OpFrom responseMetadata) None;
                   log_calling; ESend (invoke_command md r); log_received]
         ++ relayed (firstn k (chunks src)) ++ tail)
      e rep out ->
    handler_shape env md event w
      ([log_incoming; log_parsed; EChan (OpFrom responseMetadata) None;
        log_calling; ESend (invoke_command md r); log_received]
         ++ relayed (firstn k (chunks src)) ++ tail ++ rep) out.

Arguments js : simpl never.
Arguments JSON_stringify : simpl never.
Arguments stringify : simpl never.
Arguments TextEncoder_encode : simpl never.
Arguments uuid_of_bytes : simpl never.
Arguments internal_error_frame : simpl never.
Arguments error_frame : simpl never.
Arguments json_value : simpl never.

(** * Properties *)

Create HintDb eff discriminated.
#[global] Hint Unfold mbind mret Eff_bind Eff_ret throw lift try_catch
  try_catch_finally console chan destroy emit HttpResponseStream_from : eff.

Ltac eff := autounfold with eff; simpl.

(** ** Reading traces *)

Lemma channel_ops_app (a b : list Effect) :
  channel_ops (a ++ b) = channel_ops a ++ channel_ops b.
Proof.
  induction a as [|e a IH]; simpl; [reflexivity|].
  destruct e as [| op [f|] |]; simpl; rewrite ?IH; reflexivity.
Qed.

Lemma channel_calls_app (a b : list Effect) :
  channel_calls (a ++ b) = channel_calls a ++ channel_calls b.
Proof.
  induction a as [|e a IH]; simpl; [reflexivity|].
  destruct e as [| op f |]; simpl; rewrite ?IH; reflexivity.
Qed.

Lemma sent_commands_app (a b : list Effect) :
  sent_commands (a ++ b) = sent_commands a ++ sent_commands b.
Proof.
  induction a as [|e a IH]; simpl; [reflexivity|].
  destruct e; simpl; rewrite ?IH; reflexivity.
Qed.

Lemma written_app (a b : list ChanOp) : written (a ++ b) = written a ++ written b.
Proof.
  induction a as [|op a IH]; simpl; [reflexivity|].
  destruct op; simpl; rewrite ?IH; reflexivity.
Qed.

Lemma channel_ops_relayed (cs : list bytes) :
  channel_ops (relayed cs) = map (fun c => OpWrite (Bytes c)) cs.
Proof. induction cs as [|c cs IH]; simpl; [reflexivity | now rewrite IH]. Qed.

Lemma channel_calls_relayed (cs : list bytes) :
  channel_calls (relayed cs) = map (fun c => OpWrite (Bytes c)) cs.
Proof. induction cs as [|c cs IH]; simpl; [reflexivity | now rewrite IH]. Qed.

Lemma sent_commands_relayed (cs : list bytes) : sent_commands (relayed cs) = [].
Proof. induction cs as [|c cs IH]; simpl; [reflexivity | exact IH]. Qed.

Lemma written_relayed (cs : list bytes) :
  written (map (fun c => OpWrite (Bytes c)) cs) = map Bytes cs.
Proof. induction cs as [|c cs IH]; simpl; [reflexivity | now rewrite IH]. Qed.

(** ** Own properties *)

Lemma jsstring_eqb_refl (k : jsstring) : jsstring_eqb k k = true.
Proof. unfold jsstring_eqb. now apply bool_decide_eq_true. Qed.

Lemma jsstring_eqb_neq (k k' : jsstring) : k <> k' -> jsstring_eqb k k' = false.
Proof. intros Hne. unfold jsstring_eqb. now apply bool_decide_eq_false. Qed.

Lemma jsstring_eqb_true (k k' : jsstring) : jsstring_eqb k k' = true -> k = k'.
Proof. unfold jsstring_eqb. intros Hk. now apply bool_decide_eq_true in Hk. Qed.

Lemma lookup_replace_key (k : jsstring) (v : value) props :
  has_key k props = true -> lookup_prop k (replace_key k v props) = v.
Proof.
  induction props as [|[k' v'] props IH]; simpl; [discriminate|].
  destruct (jsstring_eqb k k') eqn:E; simpl; rewrite E; [reflexivity|].
  exact IH.
Qed.

Lemma lookup_replace_key_other (k k0 : jsstring) (v : value) props :
  k0 <> k -> lookup_prop k0 (replace_key k v props) = lookup_prop k0 props.
Proof.
  intros Hne. induction props as [|[k' v'] props IH]; simpl; [reflexivity|].
  destruct (jsstring_eqb k k') eqn:E; simpl.
  - apply jsstring_eqb_true in E. subst k'.
    now rewrite (jsstring_eqb_neq _ _ Hne).
  - destruct (jsstring_eqb k0 k'); [reflexivity | exact IH].
Qed.

Lemma lookup_insert_index (i : N) (k : jsstring) (v : value) props :
  has_key k props = false -> lookup_prop k (insert_index i k v props) = v.
Proof.
  induction props as [|[k' v'] props IH]; simpl; intros Hk.
  - now rewrite jsstring_eqb_refl.
  - apply orb_false_iff in Hk as [Hk Hr].
    destruct (array_index k') as [j|]; [destruct (j <? i)|]; simpl;
      rewrite ?Hk, ?jsstring_eqb_refl; auto.
Qed.

Lemma lookup_insert_index_other (i : N) (k k0 : jsstring) (v : value) props :
  k0 <> k -> lookup_prop k0 (insert_index i k v props) = lookup_prop k0 props.
Proof.
  intros Hne. induction props as [|[k' v'] props IH]; simpl.
  - now rewrite (jsstring_eqb_neq _ _ Hne).
  - destruct (array_index k') as [j|]; [destruct (j <? i)|]; simpl;
      rewrite ?(jsstring_eqb_neq _ _ Hne), ?IH; reflexivity.
Qed.

Lemma lookup_app_new (k : jsstring) (v : value) props :
  has_key k props = false -> lookup_prop k (props ++ [(k, v)]) = v.
Proof.
  induction props as [|[k' v'] props IH]; simpl; intros Hk.
  - now rewrite jsstring_eqb_refl.
  - apply orb_false_iff in Hk as [Hk Hr]. rewrite Hk. auto.
Qed.

Lemma lookup_app_other (k k0 : jsstring) (v : value) props :
  k0 <> k -> lookup_prop k0 (props ++ [(k, v)]) = lookup_prop k0 props.
Proof.
  intros Hne. induction props as [|[k' v'] props IH]; simpl.
  - now rewrite (jsstring_eqb_neq _ _ Hne).
  - now rewrite IH.
Qed.

(** Reading back the property just assigned. *)
Lemma lookup_define_prop (k : jsstring) (v : value) props :
  lookup_prop k (define_prop k v props) = v.
Proof.
  unfold define_prop. destruct (has_key k props) eqn:Hk.
  - now apply lookup_replace_key.
  - destruct (array_index k); [now apply lookup_insert_index | now apply lookup_app_new].
Qed.

(** The other properties are not touched. *)
Lemma lookup_define_prop_other (k k0 : jsstring) (v : value) props :
  k0 <> k -> lookup_prop k0 (define_prop k v props) = lookup_prop k0 props.
Proof.
  intros Hne. unfold define_prop. destruct (has_key k props).
  - now apply lookup_replace_key_other.
  - destruct (array_index k);
      [now apply lookup_insert_index_other | now apply lookup_app_other].
Qed.

Lemma lookup_absent (k : jsstring) props :
  has_key k props = false -> lookup_prop k props = VUndefined.
Proof.
  induction props as [|[k' v'] props IH]; simpl; [reflexivity|].
  intros Hk. apply orb_false_iff in Hk as [Hk Hr]. rewrite Hk. auto.
Qed.

(** ** The steps of the handler *)

Section Steps.

Context {rt : Runtime}.
Variable env : Env.

Lemma get_prop_object (v : value) (key : jsstring) :
  is_object v = true -> get_prop v key = Normal (own v key).
Proof. destruct v; simpl; intros Hv; try discriminate; reflexivity. Qed.

Lemma set_prop_object (v : value) (key : jsstring) (x : value) :
  is_object v = true -> set_prop v key x = Normal (with_prop v key x).
Proof. destruct v; simpl; intros Hv; try discriminate; reflexivity. Qed.

Lemma with_prop_object (v : value) (key : jsstring) (x : value) :
  is_object v = true -> is_object (with_prop v key x) = true.
Proof. destruct v; simpl; intros Hv; try discriminate; reflexivity. Qed.

Lemma own_with_prop (v : value) (key : jsstring) (x : value) :
  is_object v = true -> own (with_prop v key x) key = x.
Proof.
  destruct v; simpl; intros Hv; try discriminate; apply lookup_define_prop.
Qed.

Lemma own_with_prop_other (v : value) (key key0 : jsstring) (x : value) :
  key0 <> key -> own (with_prop v key x) key0 = own v key0.
Proof.
  intros Hne. destruct v; simpl; try reflexivity;
    now apply lookup_define_prop_other.
Qed.

(** The session step on an object: it cannot fail. *)
Lemma assign_sessionId_object (params : value) (w : World) :
  is_object params = true ->
  assign_sessionId env params w =
    (Normal (with_prop params (js "sessionId")
               (assigned_sessionId env params (draws w))),
     {| trace := trace w; draws := draws_after params (draws w) |}).
Proof.
  intros Hobj. unfold assign_sessionId, assigned_sessionId, draws_after, fresh_uuid.
  eff. rewrite (get_prop_object _ _ Hobj).
  destruct (ToBoolean (own params (js "sessionId"))); simpl.
  - now rewrite (set_prop_object _ _ _ Hobj).
  - unfold randomUUID. simpl. now rewrite (set_prop_object _ _ _ Hobj).
Qed.

(** The session step when it succeeds: the parameters were an object. *)
Lemma assign_sessionId_normal (params r : value) (w w' : World) :
  assign_sessionId env params w = (Normal r, w') -> is_object params = true.
Proof.
  unfold assign_sessionId. eff.
  destruct params; simpl; try discriminate; try reflexivity;
    unfold randomUUID; simpl;
    repeat match goal with
           | |- context [if ?b then _ else _] => destruct b; simpl
           end; discriminate.
Qed.

(** The transfer into a stream that never raises. *)
Lemma relay_clean (cs : list bytes) (w : World) :
  healthy env ->
  relay env cs EndOfStream w =
    (Normal (), {| trace := trace w ++ relayed cs ++ [EChan OpEnd None];
                   draws := draws w |}).
Proof.
  intros Hh. revert w. induction cs as [|c cs IH]; intros w; simpl.
  - eff. now rewrite Hh.
  - eff. rewrite Hh. specialize (IH (emit (EChan (OpWrite (Bytes c)) None) w)).
    unfold emit in IH. rewrite IH. simpl. now rewrite <- app_assoc.
Qed.

Lemma relay_error (cs : list bytes) (e : Thrown) (w : World) :
  healthy env ->
  relay env cs (StreamError e) w =
    (Abrupt e, {| trace := trace w ++ relayed cs ++ [EChan OpDestroy None];
                  draws := draws w |}).
Proof.
  intros Hh. revert w. induction cs as [|c cs IH]; intros w; simpl.
  - eff. reflexivity.
  - eff. rewrite Hh. specialize (IH (emit (EChan (OpWrite (Bytes c)) None) w)).
    unfold emit in IH. rewrite IH. simpl. now rewrite <- app_assoc.
Qed.

End Steps.

(** ** The relay *)

(** The handler up to the backend call, for a request the normaliser
    accepts and a response stream that takes its metadata. *)
Lemma handler_accepted {rt : Runtime} (env : Env) (md : Module)
    (event : APIGatewayProxyEvent) (params : value) (w : World) :
  opens env ->
  select_params event = Normal params ->
  is_object params = true ->
  let r := with_prop params (js "sessionId")
             (assigned_sessionId env params (draws w)) in
  let cmd := invoke_command md r in
  let w1 := {| trace := trace w ++
                 [EConsole LogLevel (js "Incoming request:");
                  EConsole LogLevel (js "Parsed request parameters:");
                  EChan (OpFrom responseMetadata) None;
                  EConsole LogLevel (js "Calling AgentCore Runtime...");
                  ESend cmd];
               draws := draws_after params (draws w) |} in
  handler env md event w =
    match backend env cmd with
    | SendRejects e => report_failure env e w1
    | SendResolves source =>
        try_catch
          (asyncPipeline env source;;
           console LogLevel (js "Stream transfer completed"))
          (report_failure env)
          (emit (EConsole LogLevel (js "Received response, initiating stream transfer..."))
             w1)
    end.
Proof.
  intros Hopen Hsel Hobj r cmd w1.
  unfold handler, process_request, parseClientRequest. eff.
  rewrite Hsel. simpl.
  rewrite (assign_sessionId_object env params _ Hobj). simpl.
  rewrite Hopen.
  rewrite !get_prop_object by now apply with_prop_object.
  simpl. unfold bedrockClient_send. simpl.
  fold r. fold (invoke_command md r). fold cmd.
  destruct (backend env cmd) as [e|source]; unfold emit, w1; simpl;
    rewrite <- !app_assoc; reflexivity.
Qed.

(** The failure report into a stream that never raises. *)
Lemma report_failure_healthy {rt : Runtime} (env : Env) (error : Thrown) (w : World) :
  healthy env ->
  report_failure env error w =
    (Normal (),
     {| trace := trace w ++ [EConsole ErrorLevel (js "Request processing failed:")]
                   ++ map (fun c => EChan (OpWrite c) None) (report_frames error)
                   ++ [EChan OpEnd None];
        draws := draws w |}).
Proof.
  intros Hh. unfold report_failure, report_frames. eff. rewrite Hh.
  destruct (instanceof_Error error); simpl; rewrite !Hh; simpl;
    rewrite <- !app_assoc; reflexivity.
Qed.

Lemma channel_calls_frames (fs : list chunk) :
  channel_calls (map (fun c => EChan (OpWrite c) None) fs) = map OpWrite fs.
Proof. induction fs as [|f fs IH]; simpl; [reflexivity | now rewrite IH]. Qed.

Lemma channel_ops_frames (fs : list chunk) :
  channel_ops (map (fun c => EChan (OpWrite c) None) fs) = map OpWrite fs.
Proof. induction fs as [|f fs IH]; simpl; [reflexivity | now rewrite IH]. Qed.

Ltac read_trace :=
  simpl;
  repeat (progress (rewrite ?channel_ops_app, ?channel_calls_app, ?sent_commands_app,
                      ?written_app, ?channel_ops_relayed, ?channel_calls_relayed,
                      ?sent_commands_relayed, ?written_relayed, ?channel_ops_frames,
                      ?channel_calls_frames, <- ?app_assoc;
                    simpl)).

Lemma count_ends_relayed (cs : list bytes) :
  List.filter is_end (map (fun c => OpWrite (Bytes c)) cs) = [].
Proof. induction cs as [|c cs IH]; simpl; [reflexivity | exact IH]. Qed.

Lemma healthy_opens (env : Env) : healthy env -> opens env.
Proof. intros Hh tr. apply Hh. Qed.

(** C7: a backend stream that emits its chunks and ends cleanly reaches the
    response stream as the metadata, then exactly these chunks in this
    order, then one end of stream, and nothing else; every one of these
    operations succeeds and the handler completes. *)
Theorem relay_preserves_order {rt : Runtime} (env : Env) (md : Module)
    (event : APIGatewayProxyEvent) (params : value) (cs : list bytes) (w : World) :
  healthy env ->
  select_params event = Normal params ->
  is_object params = true ->
  (forall cmd, backend env cmd =
                 SendResolves (Some {| chunks := cs; ending := EndOfStream |})) ->
  exists w',
    handler env md event w = (Normal (), w')
    /\ channel_ops (trace w') =
         channel_ops (trace w) ++ [OpFrom responseMetadata]
           ++ map (fun c => OpWrite (Bytes c)) cs ++ [OpEnd]
    /\ channel_calls (trace w') =
         channel_calls (trace w) ++ [OpFrom responseMetadata]
           ++ map (fun c => OpWrite (Bytes c)) cs ++ [OpEnd]
    /\ written (channel_ops (trace w')) =
         written (channel_ops (trace w)) ++ map Bytes cs
    /\ count_ends (channel_calls (trace w')) = S (count_ends (channel_calls (trace w))).
Proof.
  intros Hh Hsel Hobj Hback.
  rewrite (handler_accepted env md event params w (healthy_opens env Hh) Hsel Hobj).
  rewrite Hback. unfold asyncPipeline. eff.
  rewrite (relay_clean env cs _ Hh). simpl.
  eexists. split; [reflexivity|]. read_trace.
  split; [reflexivity|]. split; [reflexivity|]. split.
  - read_trace. now rewrite app_nil_r.
  - unfold count_ends.
    repeat (progress (rewrite ?List.filter_app, ?length_app, ?count_ends_relayed; simpl)).
    lia.
Qed.

(** The request with no body and no query parameters, answered by the
    stream A, B, C. *)
Lemma relay_preserves_order_witness :
  exists w',
    handler (rt := reference_runtime)
      (quiet_env (stream_of [[65]; [66]; [67]] EndOfStream))
      example_module bare_request initial_world = (Normal (), w')
    /\ channel_ops (trace w') =
         [OpFrom responseMetadata; OpWrite (Bytes [65]); OpWrite (Bytes [66]);
          OpWrite (Bytes [67]); OpEnd]
    /\ count_ends (channel_calls (trace w')) = 1%nat.
Proof.
  destruct (relay_preserves_order (rt := reference_runtime)
              (quiet_env (stream_of [[65]; [66]; [67]] EndOfStream))
              example_module bare_request
              (VObj [(js "prompt", VStr default_prompt)])
              [[65]; [66]; [67]] initial_world)
    as (w' & Hrun & Hops & _ & _ & Hends).
  - intros tr op. reflexivity.
  - reflexivity.
  - reflexivity.
  - intros cmd. reflexivity.
  - exists w'. split; [exact Hrun|]. split; [exact Hops | exact Hends].
Defined.

Lemma written_frames (fs : list chunk) : written (map OpWrite fs) = fs.
Proof. induction fs as [|f fs IH]; simpl; [reflexivity | now rewrite IH]. Qed.

(** C2, what the code does: when the backend stream raises an error after
    its chunks, the response stream gets the metadata and the chunks in
    order, and stream.pipeline destroys it before the transfer is rejected.
    Only then does the handler report: it writes the fixed "Internal server
    error" frame, a second frame carrying the message when the error is an
    instance of Error, and ends the stream.  Every error frame is thus
    written to a stream that is already destroyed, after the close and not
    before it; none of these calls raises on a stream that never raises, and
    the handler completes normally. *)
Theorem relay_failure_reported {rt : Runtime} (env : Env) (md : Module)
    (event : APIGatewayProxyEvent) (params : value) (cs : list bytes)
    (e : Thrown) (w : World) :
  healthy env ->
  select_params event = Normal params ->
  is_object params = true ->
  (forall cmd, backend env cmd =
                 SendResolves (Some {| chunks := cs; ending := StreamError e |})) ->
  exists w',
    handler env md event w = (Normal (), w')
    /\ channel_calls (trace w') =
         channel_calls (trace w) ++ [OpFrom responseMetadata]
           ++ map (fun c => OpWrite (Bytes c)) cs ++ [OpDestroy]
           ++ map OpWrite (report_frames e) ++ [OpEnd]
    /\ written (channel_calls (trace w')) =
         written (channel_calls (trace w)) ++ map Bytes cs ++ report_frames e
    /\ exists before after,
         channel_calls (trace w')
           = channel_calls (trace w) ++ before ++ OpDestroy :: after
         /\ written before = map Bytes cs
         /\ written after = report_frames e.
Proof.
  intros Hh Hsel Hobj Hback.
  rewrite (handler_accepted env md event params w (healthy_opens env Hh) Hsel Hobj).
  rewrite Hback. unfold asyncPipeline. eff.
  rewrite (relay_error env cs e _ Hh). simpl.
  rewrite (report_failure_healthy env e _ Hh).
  eexists. split; [reflexivity|].
  assert (Hcalls : forall pre : list Effect,
    channel_calls (pre ++
       [EConsole LogLevel (js "Incoming request:");
        EConsole LogLevel (js "Parsed request parameters:");
        EChan (OpFrom responseMetadata) None;
        EConsole LogLevel (js "Calling AgentCore Runtime...");
        ESend (invoke_command md
                 (with_prop params (js "sessionId")
                    (assigned_sessionId env params (draws w))))]
       ++ [EConsole LogLevel (js "Received response, initiating stream transfer...")]
       ++ relayed cs ++ [EChan OpDestroy None]
       ++ [EConsole ErrorLevel (js "Request processing failed:")]
       ++ map (fun c => EChan (OpWrite c) None) (report_frames e)
       ++ [EChan OpEnd None])
    = channel_calls pre ++ [OpFrom responseMetadata]
        ++ map (fun c => OpWrite (Bytes c)) cs ++ [OpDestroy]
        ++ map OpWrite (report_frames e) ++ [OpEnd]).
  { intros pre. rewrite channel_calls_app. f_equal. simpl.
    rewrite !channel_calls_app, channel_calls_relayed. simpl.
    now rewrite channel_calls_app, channel_calls_frames. }
  simpl. rewrite <- !app_assoc. simpl in Hcalls |- *. rewrite Hcalls.
  split; [reflexivity|]. split.
  - rewrite !written_app. simpl. rewrite !written_app. simpl.
    now rewrite written_relayed, written_app, written_frames, app_nil_r.
  - exists ([OpFrom responseMetadata] ++ map (fun c => OpWrite (Bytes c)) cs),
      (map OpWrite (report_frames e) ++ [OpEnd]).
    split; [now rewrite <- !app_assoc|]. split.
    + simpl. apply written_relayed.
    + rewrite written_app, written_frames. simpl. now rewrite app_nil_r.
Qed.

(** The request with no body, answered by a stream that emits A and then
    raises a plain string. *)
Lemma relay_failure_reported_witness :
  exists w',
    handler (rt := reference_runtime)
      (quiet_env (stream_of [[65]] (StreamError (NonError (VStr (js "reset"))))))
      example_module bare_request initial_world = (Normal (), w')
    /\ channel_calls (trace w') =
         [OpFrom responseMetadata; OpWrite (Bytes [65]); OpDestroy;
          OpWrite (Text internal_error_frame); OpEnd].
Proof.
  destruct (relay_failure_reported (rt := reference_runtime)
              (quiet_env (stream_of [[65]] (StreamError (NonError (VStr (js "reset"))))))
              example_module bare_request
              (VObj [(js "prompt", VStr default_prompt)])
              [[65]] (NonError (VStr (js "reset"))) initial_world)
    as (w' & Hrun & Hcalls & _).
  - intros tr op. reflexivity.
  - reflexivity.
  - reflexivity.
  - intros cmd. reflexivity.
  - exists w'. split; [exact Hrun | exact Hcalls].
Defined.

(** A backend stream that emits A and then raises an Error makes the
    handler write two error frames after A, not one. *)
Lemma relay_failure_two_frames :
  written (channel_calls (trace (snd
    (handler (rt := reference_runtime)
       (quiet_env (stream_of [[65]] (StreamError (ErrorObj (js "Error") (js "boom")))))
       example_module bare_request initial_world))))
  = [Bytes [65]; Text internal_error_frame; Text (error_frame (js "boom"))]
  /\ ~ (exists frame,
         written (channel_calls (trace (snd
           (handler (rt := reference_runtime)
              (quiet_env (stream_of [[65]]
                            (StreamError (ErrorObj (js "Error") (js "boom")))))
              example_module bare_request initial_world))))
         = [Bytes [65]; Text frame]).
Proof.
  split; [vm_compute; reflexivity|].
  intros [frame Hf]. vm_compute in Hf. discriminate Hf.
Qed.

(** ** The normaliser *)

(** A body that is present and not empty is what gets parsed, decoded
    first when the event marks it base64. *)
Lemma select_params_body {rt : Runtime} (event : APIGatewayProxyEvent) (b : jsstring) :
  body event = Some b -> b <> [] ->
  select_params event = JSON_parse (body_text event b).
Proof.
  intros Hb Hne. unfold select_params, body_text. rewrite Hb.
  destruct b as [|c b]; [contradiction|].
  destruct (isBase64Encoded event); reflexivity.
Qed.

(** The handler when the normaliser raises: nothing but the report. *)
Lemma handler_rejected {rt : Runtime} (env : Env) (md : Module)
    (event : APIGatewayProxyEvent) (e : Thrown) (w : World) :
  select_params event = Abrupt e ->
  handler env md event w =
    report_failure env e (emit (EConsole LogLevel (js "Incoming request:")) w).
Proof.
  intros Hsel. unfold handler, process_request, parseClientRequest. eff.
  rewrite Hsel. reflexivity.
Qed.

(** ** The failure report *)

(** The guarded part of the report always completes, after nothing but
    report steps. *)
Lemma report_attempt {rt : Runtime} (env : Env) (error : Thrown) (w : World) :
  exists mid,
    try_catch
      (chan env (OpWrite (Text internal_error_frame));;
       if instanceof_Error error
       then chan env (OpWrite (Text (error_frame (error_message error))))
       else mret ())
      (fun _ => console ErrorLevel (js "Error stream write failed:")) w
    = (Normal (), {| trace := trace w ++ mid; draws := draws w |})
    /\ forallb is_report_step mid = true.
Proof.
  eff.
  destruct (chan_fault env (trace w) (OpWrite (Text internal_error_frame))) as [e1|];
    simpl.
  - eexists. split; [rewrite <- app_assoc; reflexivity | reflexivity].
  - destruct (instanceof_Error error); simpl.
    + destruct (chan_fault env _ (OpWrite (Text (error_frame _)))) as [e2|]; simpl;
        (eexists; split; [rewrite <- ?app_assoc; reflexivity | reflexivity]).
    + eexists. split; [reflexivity | reflexivity].
Qed.

(** The report always ends by attempting to end the stream, and only that
    attempt decides how it completes. *)
Lemma report_failure_ends {rt : Runtime} (env : Env) (error : Thrown) (w : World) :
  exists mid w',
    report_failure env error w
      = (match chan_fault env (trace w ++ mid) OpEnd with
         | None => Normal ()
         | Some e => Abrupt e
         end, w')
    /\ trace w' = trace w ++ mid ++ [EChan OpEnd (chan_fault env (trace w ++ mid) OpEnd)]
    /\ draws w' = draws w
    /\ forallb is_report_step mid = true.
Proof.
  unfold report_failure.
  destruct (report_attempt env error
              (emit (EConsole ErrorLevel (js "Request processing failed:")) w))
    as (mid & Hrun & Hmid).
  exists (EConsole ErrorLevel (js "Request processing failed:") :: mid).
  unfold try_catch_finally. unfold mbind at 1. unfold Eff_bind at 1.
  unfold console at 1. rewrite Hrun. unfold chan, emit. simpl.
  rewrite <- !app_assoc. simpl.
  destruct (chan_fault env _ OpEnd) as [e|]; eexists; (split; [reflexivity|]);
    simpl; rewrite <- ?app_assoc; simpl;
    (split; [reflexivity | split; [reflexivity | exact Hmid]]).
Qed.

(** C1, what the code does: a body that is present, not empty and not
    JSON makes the handler do nothing but the failure report.  Whatever the
    response stream raises, what follows the first log line is made of
    writes of text frames and error logs, then the attempt to end the
    stream: the stream is never given its metadata (no
    HttpResponseStream.from) and the backend is not called.  On a stream
    that never raises, the handler completes normally after writing the two
    error frames and ending the stream. *)
Theorem malformed_body_reported {rt : Runtime} (env : Env) (md : Module)
    (event : APIGatewayProxyEvent) (b : jsstring) (w : World) :
  body event = Some b -> b <> [] ->
  json_value (body_text event b) = None ->
  (exists mid f,
     trace (snd (handler env md event w))
       = trace w ++ EConsole LogLevel (js "Incoming request:") :: mid
           ++ [EChan OpEnd f]
     /\ forallb is_report_step mid = true)
  /\ (healthy env ->
      exists w',
        handler env md event w = (Normal (), w')
        /\ channel_calls (trace w') =
             channel_calls (trace w)
               ++ [OpWrite (Text internal_error_frame);
                   OpWrite (Text (error_frame
                                    (fault_message (JsonSyntax (body_text event b)))));
                   OpEnd]
        /\ sent_commands (trace w') = sent_commands (trace w)).
Proof.
  intros Hb Hne Hjson.
  assert (Hsel : select_params event
                 = Abrupt (SyntaxError (JsonSyntax (body_text event b)))).
  { rewrite (select_params_body event b Hb Hne). unfold JSON_parse.
    now rewrite Hjson. }
  rewrite (handler_rejected env md event _ w Hsel). split.
  - destruct (report_failure_ends env (SyntaxError (JsonSyntax (body_text event b)))
                (emit (EConsole LogLevel (js "Incoming request:")) w))
      as (mid & w' & Hrun & Htr & _ & Hmid).
    rewrite Hrun. exists mid, (chan_fault env ((trace w ++ [EConsole LogLevel (js "Incoming request:")]) ++ mid) OpEnd).
    split; [|exact Hmid]. simpl. rewrite Htr. simpl.
    rewrite <- !app_assoc. reflexivity.
  - intros Hh. rewrite (report_failure_healthy env _ _ Hh).
    eexists. split; [reflexivity|]. unfold report_frames, SyntaxError. simpl.
    rewrite !channel_calls_app, !sent_commands_app. simpl.
    rewrite !app_nil_r. split; reflexivity.
Qed.

(** The body "{not json". *)
Lemma malformed_body_reported_witness :
  exists w',
    handler (rt := reference_runtime) (quiet_env (stream_of [] EndOfStream))
      example_module (post (js "{not json")) initial_world = (Normal (), w')
    /\ channel_calls (trace w') =
         [OpWrite (Text internal_error_frame);
          OpWrite (Text (error_frame (js "Unexpected token in JSON")));
          OpEnd]
    /\ existsb is_from (channel_calls (trace w')) = false.
Proof.
  destruct (malformed_body_reported (rt := reference_runtime)
              (quiet_env (stream_of [] EndOfStream)) example_module
              (post (js "{not json")) (js "{not json") initial_world)
    as [_ Hhealthy].
  - reflexivity.
  - discriminate.
  - vm_compute. reflexivity.
  - destruct Hhealthy as (w' & Hrun & Hcalls & _).
    + intros tr op. reflexivity.
    + exists w'. split; [exact Hrun|]. split; [exact Hcalls|].
      rewrite Hcalls. reflexivity.
Defined.

(** C8: whatever the response stream raises while the report is written,
    the exception of a write is logged and goes no further, and the report
    still ends by attempting to end the stream, as its last operation.
    Only an exception of that attempt itself leaves the report, so the
    handler completes normally unless the final end of stream raises. *)
Theorem reporting_failure_swallowed {rt : Runtime} (env : Env) (md : Module)
    (event : APIGatewayProxyEvent) (error : Thrown) (w : World) :
  (exists mid w',
     report_failure env error w
       = (match chan_fault env (trace w ++ mid) OpEnd with
          | None => Normal ()
          | Some e => Abrupt e
          end, w')
     /\ trace w' = trace w ++ mid ++ [EChan OpEnd (chan_fault env (trace w ++ mid) OpEnd)]
     /\ forallb is_report_step mid = true)
  /\ (exists out w',
        handler env md event w = (out, w')
        /\ (out = Normal ()
            \/ exists tr e, trace w' = tr ++ [EChan OpEnd (Some e)]
                            /\ chan_fault env tr OpEnd = Some e
                            /\ out = Abrupt e)).
Proof.
  split.
  - destruct (report_failure_ends env error w) as (mid & w' & Hrun & Htr & _ & Hmid).
    exists mid, w'. auto.
  - unfold handler. eff.
    destruct (process_request env md event _) as [[[]|e] w2].
    + eexists _, _. split; [reflexivity|]. now left.
    + destruct (report_failure_ends env e w2) as (mid & w' & Hrun & Htr & _).
      rewrite Hrun. eexists _, _. split; [reflexivity|].
      destruct (chan_fault env (trace w2 ++ mid) OpEnd) as [e'|] eqn:Hend.
      * right. exists (trace w2 ++ mid), e'. rewrite Htr, <- app_assoc. auto.
      * now left.
Qed.

(** A response stream whose every write raises: the report of a rejected
    backend call logs the failed write, ends the stream, and the handler
    completes normally. *)
Example broken_stream_report :
  handler (rt := reference_runtime) broken_env example_module bare_request
    initial_world
  = (Normal (),
     {| trace :=
          [EConsole LogLevel (js "Incoming request:");
           EConsole LogLevel (js "Parsed request parameters:");
           EChan (OpFrom responseMetadata) None;
           EConsole LogLevel (js "Calling AgentCore Runtime...");
           ESend (invoke_command (rt := reference_runtime) example_module
                    (VObj [(js "prompt", VStr default_prompt);
                           (js "sessionId", VStr (fresh_uuid broken_env 0))]));
           EConsole ErrorLevel (js "Request processing failed:");
           EChan (OpWrite (Text internal_error_frame))
             (Some (ErrorObj (js "Error") (js "write after end")));
           EConsole ErrorLevel (js "Error stream write failed:");
           EChan OpEnd None];
        draws := 1 |}).
Proof. vm_compute. reflexivity. Qed.

(** C4, as amended: the normaliser takes the first of four shapes that
    applies, where a body or a prompt query parameter counts only when it is
    present and not empty; and a body that is present, not empty and not
    JSON makes parseClientRequest raise the syntax error at once, without
    trying the query parameters or the default and without any effect. *)
Theorem normalizer_precedence {rt : Runtime} (event : APIGatewayProxyEvent) :
  select_params event = normalizer_table event
  /\ (forall env b w,
        body event = Some b -> b <> [] ->
        json_value (body_text event b) = None ->
        parseClientRequest env event w
          = (Abrupt (SyntaxError (JsonSyntax (body_text event b))), w)).
Proof.
  split.
  - unfold select_params, normalizer_table.
    destruct (body event) as [[|c b]|]; simpl;
      rewrite ?andb_false_r; simpl.
    + destruct (query_parameter event (js "prompt")) as [[|c p]|]; reflexivity.
    + destruct (isBase64Encoded event); reflexivity.
    + destruct (query_parameter event (js "prompt")) as [[|c p]|]; reflexivity.
  - intros env b w Hb Hne Hjson.
    unfold parseClientRequest. eff.
    rewrite (select_params_body event b Hb Hne). unfold JSON_parse.
    now rewrite Hjson.
Qed.

(** The four shapes and the malformed body, on concrete events. *)
Lemma normalizer_precedence_witness :
  select_params (rt := reference_runtime) (post_base64 (js "e30="))
    = Normal (VObj [])
  /\ select_params (rt := reference_runtime) (post (js "[]")) = Normal (VArr [] [])
  /\ select_params (rt := reference_runtime)
       (get_query [(js "prompt", js "hi"); (js "sessionId", js "abc")])
     = Normal (VObj [(js "prompt", VStr (js "hi")); (js "sessionId", VStr (js "abc"))])
  /\ select_params (rt := reference_runtime) bare_request
     = Normal (VObj [(js "prompt", VStr default_prompt)])
  /\ parseClientRequest (rt := reference_runtime) (quiet_env (stream_of [] EndOfStream))
       (post (js "{not json")) initial_world
     = (Abrupt (ErrorObj (js "SyntaxError") (js "Unexpected token in JSON")),
        initial_world).
Proof.
  pose proof (fun event => proj1 (normalizer_precedence (rt := reference_runtime) event))
    as Htable.
  split; [rewrite Htable; vm_compute; reflexivity|].
  split; [rewrite Htable; vm_compute; reflexivity|].
  split; [rewrite Htable; vm_compute; reflexivity|].
  split; [rewrite Htable; vm_compute; reflexivity|].
  apply (proj2 (normalizer_precedence (rt := reference_runtime)
                  (post (js "{not json")))
           (quiet_env (stream_of [] EndOfStream)) (js "{not json") initial_world).
  - reflexivity.
  - discriminate.
  - vm_compute. reflexivity.
Defined.

(** C4, as stated, fails: with no body and a query parameter named prompt
    that is empty, the specified table builds the record from the query
    parameters, while the code falls back to the default prompt. *)
Lemma empty_prompt_parameter_ignored :
  normalizer_as_specified (rt := reference_runtime) (get_query [(js "prompt", [])])
    = Normal (VObj [(js "prompt", VStr []); (js "sessionId", VUndefined)])
  /\ select_params (rt := reference_runtime) (get_query [(js "prompt", [])])
     = Normal (VObj [(js "prompt", VStr default_prompt)])
  /\ select_params (rt := reference_runtime) (get_query [(js "prompt", [])])
     <> normalizer_as_specified (rt := reference_runtime) (get_query [(js "prompt", [])]).
Proof.
  split; [vm_compute; reflexivity|].
  split; [vm_compute; reflexivity|].
  intros Heq. vm_compute in Heq. discriminate Heq.
Qed.

(** An empty body is taken as no body: where the specified table fails on
    it, the code goes on to the query parameters and the default prompt. *)
Example empty_body_falls_through :
  normalizer_as_specified (rt := reference_runtime) (post [])
    = Abrupt (ErrorObj (js "SyntaxError") (js "Unexpected token in JSON"))
  /\ select_params (rt := reference_runtime) (post [])
     = Normal (VObj [(js "prompt", VStr default_prompt)]).
Proof. split; vm_compute; reflexivity. Qed.

(** ** Module initialisation *)

(** C9: the module needs AGENT_ARN and nothing else.  Without it (or with
    an empty one) loading the module throws, so the execution environment
    fails before any request is looked at; with it, the module loads
    whatever the rest of the environment holds, and requests are served. *)
Theorem agent_arn_required {rt : Runtime} (penv : ProcessEnv)
    (requests : list (Env * APIGatewayProxyEvent)) :
  (AGENT_ARN penv = None \/ AGENT_ARN penv = Some [] ->
   load_module penv
     = Abrupt (ErrorObj (js "Error")
                 (js "AGENT_ARN must be set in environment variables"))
   /\ run_lambda penv requests
      = InitError (ErrorObj (js "Error")
                     (js "AGENT_ARN must be set in environment variables")))
  /\ (forall arn,
        AGENT_ARN penv = Some arn -> arn <> [] ->
        exists md,
          load_module penv = Normal md
          /\ agentCoreArn md = arn
          /\ run_lambda penv requests
             = Served (map (fun '(env, event) => handler env md event initial_world)
                         requests)).
Proof.
  split.
  - intros Harn. unfold run_lambda, load_module.
    destruct Harn as [Harn|Harn]; rewrite Harn; split; reflexivity.
  - intros arn Harn Hne. unfold run_lambda, load_module. rewrite Harn.
    destruct arn as [|c arn]; [contradiction|].
    eexists. repeat split; reflexivity.
Qed.

(** An environment without AGENT_ARN, and one that holds only AGENT_ARN. *)
Lemma agent_arn_required_witness :
  run_lambda (rt := reference_runtime)
    {| AGENT_ARN := None; AWS_REGION := Some (js "eu-west-1") |}
    [(quiet_env (stream_of [] EndOfStream), bare_request)]
  = InitError (ErrorObj (js "Error")
                 (js "AGENT_ARN must be set in environment variables"))
  /\ exists md,
       load_module {| AGENT_ARN := Some (js "arn:agent"); AWS_REGION := None |}
         = Normal md
       /\ agentCoreArn md = js "arn:agent".
Proof.
  split.
  - apply (proj1 (agent_arn_required (rt := reference_runtime)
                    {| AGENT_ARN := None; AWS_REGION := Some (js "eu-west-1") |}
                    [(quiet_env (stream_of [] EndOfStream), bare_request)])).
    left. reflexivity.
  - destruct (proj2 (agent_arn_required (rt := reference_runtime)
                       {| AGENT_ARN := Some (js "arn:agent"); AWS_REGION := None |} [])
                (js "arn:agent")) as (md & Hload & Harn & _).
    + reflexivity.
    + discriminate.
    + exists md. split; [exact Hload | exact Harn].
Defined.

(** ** One backend call *)

Lemma sent_commands_report_steps (mid : list Effect) :
  forallb is_report_step mid = true -> sent_commands mid = [].
Proof.
  induction mid as [|e mid IH]; simpl; [reflexivity|].
  intros Hm. apply andb_true_iff in Hm as [He Hm].
  destruct e; simpl in *; try discriminate; auto.
Qed.

Lemma report_failure_sends {rt : Runtime} (env : Env) (error : Thrown) (w : World) :
  sent_commands (trace (snd (report_failure env error w))) = sent_commands (trace w)
  /\ draws (snd (report_failure env error w)) = draws w.
Proof.
  destruct (report_failure_ends env error w) as (mid & w' & Hrun & Htr & Hd & Hmid).
  rewrite Hrun. simpl. rewrite Htr, Hd. split; [|reflexivity].
  rewrite !sent_commands_app, (sent_commands_report_steps _ Hmid). simpl.
  now rewrite app_nil_r.
Qed.

(** The transfer calls nothing but the response stream. *)
Lemma relay_sends {rt : Runtime} (env : Env) (cs : list bytes) (fin : StreamEnd)
    (w : World) :
  sent_commands (trace (snd (relay env cs fin w))) = sent_commands (trace w)
  /\ draws (snd (relay env cs fin w)) = draws w.
Proof.
  revert w. induction cs as [|c cs IH]; intros w; simpl.
  - destruct fin as [|e]; eff.
    + destruct (chan_fault env (trace w) OpEnd); simpl;
        rewrite ?sent_commands_app; simpl; rewrite ?app_nil_r; auto.
    + rewrite sent_commands_app. simpl. rewrite app_nil_r. auto.
  - eff. destruct (chan_fault env (trace w) (OpWrite (Bytes c))); simpl.
    + rewrite !sent_commands_app. simpl. rewrite !app_nil_r. auto.
    + destruct (IH (emit (EChan (OpWrite (Bytes c)) None) w)) as [Hs Hd].
      unfold emit in Hs, Hd. rewrite Hs, Hd. simpl.
      rewrite sent_commands_app. simpl. rewrite app_nil_r. auto.
Qed.

(** A request the normaliser accepts leads to exactly one backend call,
    with the command built from its record, whatever happens afterwards. *)
Lemma handler_sends_once {rt : Runtime} (env : Env) (md : Module)
    (event : APIGatewayProxyEvent) (params : value) (w : World) :
  opens env ->
  select_params event = Normal params ->
  is_object params = true ->
  sent_commands (trace (snd (handler env md event w)))
    = sent_commands (trace w)
        ++ [invoke_command md
              (with_prop params (js "sessionId")
                 (assigned_sessionId env params (draws w)))]
  /\ draws (snd (handler env md event w)) = draws_after params (draws w).
Proof.
  intros Hopen Hsel Hobj.
  rewrite (handler_accepted env md event params w Hopen Hsel Hobj).
  set (cmd := invoke_command md _).
  destruct (backend env cmd) as [e|[r|]].
  - destruct (report_failure_sends env e
      {| trace := trace w ++
           [EConsole LogLevel (js "Incoming request:");
            EConsole LogLevel (js "Parsed request parameters:");
            EChan (OpFrom responseMetadata) None;
            EConsole LogLevel (js "Calling AgentCore Runtime..."); ESend cmd];
         draws := draws_after params (draws w) |}) as [Hs Hd].
    rewrite Hs, Hd. simpl. rewrite sent_commands_app. simpl. auto.
  - unfold asyncPipeline. eff.
    match goal with
    | |- context [relay env ?cs ?fin ?w0] =>
        destruct (relay_sends env cs fin w0) as [Hs Hd];
        destruct (relay env cs fin w0) as [[[]|e] w2]
    end; simpl in *.
    + rewrite sent_commands_app, Hs, Hd. simpl.
      rewrite !sent_commands_app. simpl. rewrite !app_nil_r. auto.
    + destruct (report_failure_sends env e w2) as [Hs' Hd'].
      rewrite Hs', Hd', Hs, Hd. rewrite !sent_commands_app. simpl.
      rewrite !app_nil_r. auto.
  - unfold asyncPipeline. eff.
    match goal with
    | |- context [report_failure env ?e ?w0] =>
        destruct (report_failure_sends env e w0) as [Hs Hd]
    end.
    rewrite Hs, Hd. simpl. rewrite !sent_commands_app. simpl.
    rewrite !app_nil_r. auto.
Qed.

(** ** The session identifier *)

Lemma uuid_of_bytes_length (b : bytes) : length (uuid_of_bytes b) = 36%nat.
Proof. unfold uuid_of_bytes, hex2. rewrite !length_app. reflexivity. Qed.

Lemma uuid_of_bytes_nonempty (b : bytes) : uuid_of_bytes b <> [].
Proof.
  intros Hb. pose proof (uuid_of_bytes_length b) as Hl. rewrite Hb in Hl.
  discriminate Hl.
Qed.

Lemma assigned_sessionId_truthy (env : Env) (params : value) (d : nat) :
  ToBoolean (assigned_sessionId env params d) = true.
Proof.
  unfold assigned_sessionId.
  destruct (ToBoolean (own params (js "sessionId"))) eqn:Hs; [exact Hs|].
  unfold fresh_uuid.
  pose proof (uuid_of_bytes_nonempty (random_bytes env d)) as Hu.
  destruct (uuid_of_bytes (random_bytes env d)); [contradiction | reflexivity].
Qed.

(** C5: the record that leaves parseClientRequest has a session identifier
    that is neither undefined, null nor empty.  When the caller gave none,
    or an empty one, it is the UUID printed from a new draw of the random
    source, which is not empty; when the caller gave a non-empty string it
    is that string, unchanged (in general: a truthy value is kept, a falsy
    one replaced).  This identifier is the runtimeSessionId of the one
    command the handler sends to the backend. *)
Theorem session_identity_assigned {rt : Runtime} (env : Env) (md : Module)
    (event : APIGatewayProxyEvent) (r : value) (w w' : World) :
  opens env ->
  parseClientRequest env event w = (Normal r, w') ->
  exists params,
    select_params event = Normal params
    /\ is_object params = true
    /\ r = with_prop params (js "sessionId") (own r (js "sessionId"))
    /\ ToBoolean (own r (js "sessionId")) = true
    /\ own r (js "sessionId") <> VUndefined
    /\ own r (js "sessionId") <> VNull
    /\ own r (js "sessionId") <> VStr []
    /\ (own params (js "sessionId") = VUndefined
        \/ own params (js "sessionId") = VStr [] ->
        own r (js "sessionId") = VStr (fresh_uuid env (draws w))
        /\ fresh_uuid env (draws w) <> []
        /\ draws w' = S (draws w))
    /\ (forall s, own params (js "sessionId") = VStr s -> s <> [] ->
        own r (js "sessionId") = VStr s /\ draws w' = draws w)
    /\ (ToBoolean (own params (js "sessionId")) = true ->
        own r (js "sessionId") = own params (js "sessionId"))
    /\ (ToBoolean (own params (js "sessionId")) = false ->
        own r (js "sessionId") = VStr (fresh_uuid env (draws w)))
    /\ exists cmd,
         sent_commands (trace (snd (handler env md event w)))
           = sent_commands (trace w) ++ [cmd]
         /\ runtimeSessionId cmd = own r (js "sessionId").
Proof.
  intros Hopen Hparse. unfold parseClientRequest in Hparse.
  unfold mbind, Eff_bind, lift in Hparse.
  destruct (select_params event) as [params|e] eqn:Hsel; [|discriminate].
  exists params. split; [reflexivity|].
  pose proof (assign_sessionId_normal env params r w w' Hparse) as Hobj.
  rewrite (assign_sessionId_object env params w Hobj) in Hparse.
  injection Hparse as Hr Hw. subst r w'. split; [exact Hobj|].
  rewrite (own_with_prop _ _ _ Hobj).
  pose proof (assigned_sessionId_truthy env params (draws w)) as Htruthy.
  split; [reflexivity|]. split; [exact Htruthy|].
  split; [intros Hu; rewrite Hu in Htruthy; discriminate|].
  split; [intros Hu; rewrite Hu in Htruthy; discriminate|].
  split; [intros Hu; rewrite Hu in Htruthy; discriminate|].
  split.
  { intros Habsent. unfold assigned_sessionId, draws_after. simpl.
    split; [|split; [apply uuid_of_bytes_nonempty|]];
      destruct Habsent as [Hs|Hs]; rewrite Hs; reflexivity. }
  split.
  { intros s Hs Hne. unfold assigned_sessionId, draws_after. simpl. rewrite Hs.
    destruct s; [contradiction | split; reflexivity]. }
  split; [intros Hs; unfold assigned_sessionId; now rewrite Hs|].
  split; [intros Hs; unfold assigned_sessionId; now rewrite Hs|].
  destruct (handler_sends_once env md event params w Hopen Hsel Hobj) as [Hsent _].
  eexists. split; [exact Hsent|]. simpl.
  now rewrite (own_with_prop _ _ _ Hobj).
Qed.

(** The body {"prompt":"hi","sessionId":"abc"}: the backend gets "abc". *)
Lemma session_identity_assigned_witness :
  exists cmd,
    sent_commands (trace (snd
      (handler (rt := reference_runtime) (quiet_env (stream_of [] EndOfStream))
         example_module
         (post (js "{" ++ dq "prompt" ++ js ":" ++ dq "hi" ++ js ","
                  ++ dq "sessionId" ++ js ":" ++ dq "abc" ++ js "}"))
         initial_world))) = [cmd]
    /\ runtimeSessionId cmd = VStr (js "abc").
Proof.
  destruct (session_identity_assigned (rt := reference_runtime)
              (quiet_env (stream_of [] EndOfStream)) example_module
              (post (js "{" ++ dq "prompt" ++ js ":" ++ dq "hi" ++ js ","
                       ++ dq "sessionId" ++ js ":" ++ dq "abc" ++ js "}"))
              (VObj [(js "prompt", VStr (js "hi")); (js "sessionId", VStr (js "abc"))])
              initial_world initial_world)
    as (params & _ & _ & _ & _ & _ & _ & _ & _ & _ & _ & _ & cmd & Hsent & Hsid).
  - intros tr. reflexivity.
  - vm_compute. reflexivity.
  - exists cmd. split; [exact Hsent | exact Hsid].
Defined.

(** A caller that gives no session identifier gets a fresh UUID. *)
Example session_identifier_generated :
  parseClientRequest (rt := reference_runtime) (quiet_env (stream_of [] EndOfStream))
    (post (js "{" ++ dq "prompt" ++ js ":" ++ dq "hi" ++ js "}")) initial_world
  = (Normal (VObj [(js "prompt", VStr (js "hi"));
                   (js "sessionId", VStr (js "abababab-abab-4bab-abab-abababababab"))]),
     {| trace := []; draws := 1 |}).
Proof. vm_compute. reflexivity. Qed.

(** ** Bodies without a prompt *)

(** C10, as amended: a body that is present, not empty, and is the JSON
    text of an object or an array without a prompt field is accepted as it
    is: the normaliser takes it (not the query parameters, not the default
    prompt), parseClientRequest returns a record whose prompt is undefined,
    and the backend is called once with the payload {}. *)
Theorem prompt_less_object_accepted {rt : Runtime} (env : Env) (md : Module)
    (event : APIGatewayProxyEvent) (b : jsstring) (params : value) (w : World) :
  opens env ->
  body event = Some b -> b <> [] ->
  json_value (body_text event b) = Some params ->
  is_object params = true ->
  own params (js "prompt") = VUndefined ->
  select_params event = Normal params
  /\ (exists r w',
        parseClientRequest env event w = (Normal r, w')
        /\ own r (js "prompt") = VUndefined)
  /\ exists cmd,
       sent_commands (trace (snd (handler env md event w)))
         = sent_commands (trace w) ++ [cmd]
       /\ payload cmd = TextEncoder_encode (js "{}").
Proof.
  intros Hopen Hb Hne Hjson Hobj Hprompt.
  assert (Hsel : select_params event = Normal params).
  { rewrite (select_params_body event b Hb Hne). unfold JSON_parse.
    now rewrite Hjson. }
  split; [exact Hsel|]. split.
  - unfold parseClientRequest. eff. rewrite Hsel. simpl.
    rewrite (assign_sessionId_object env params w Hobj).
    eexists _, _. split; [reflexivity|].
    rewrite own_with_prop_other by discriminate. exact Hprompt.
  - destruct (handler_sends_once env md event params w Hopen Hsel Hobj) as [Hsent _].
    eexists. split; [exact Hsent|]. simpl.
    rewrite own_with_prop_other by discriminate. rewrite Hprompt. reflexivity.
Qed.

(** The body "{}". *)
Lemma prompt_less_object_accepted_witness :
  select_params (rt := reference_runtime) (post (js "{}")) = Normal (VObj [])
  /\ exists cmd,
       sent_commands (trace (snd
         (handler (rt := reference_runtime) (quiet_env (stream_of [] EndOfStream))
            example_module (post (js "{}")) initial_world))) = [cmd]
       /\ payload cmd = TextEncoder_encode (js "{}").
Proof.
  destruct (prompt_less_object_accepted (rt := reference_runtime)
              (quiet_env (stream_of [] EndOfStream)) example_module
              (post (js "{}")) (js "{}") (VObj []) initial_world)
    as (Hsel & _ & cmd & Hsent & Hpayload).
  - intros tr. reflexivity.
  - reflexivity.
  - discriminate.
  - vm_compute. reflexivity.
  - reflexivity.
  - reflexivity.
  - split; [exact Hsel|]. exists cmd. split; [exact Hsent | exact Hpayload].
Defined.

(** C10, as stated, fails: the body "null" is JSON and has no prompt
    field, yet parseClientRequest raises a TypeError on it (reading
    sessionId of null), and the handler reports the failure without calling
    the backend. *)
Lemma null_body_rejected :
  json_value (js "null") = Some VNull
  /\ parseClientRequest (rt := reference_runtime) (quiet_env (stream_of [] EndOfStream))
       (post (js "null")) initial_world
     = (Abrupt (ErrorObj (js "TypeError")
                  (js "Cannot read properties of null (reading 'sessionId')")),
        initial_world)
  /\ sent_commands (trace (snd
       (handler (rt := reference_runtime) (quiet_env (stream_of [] EndOfStream))
          example_module (post (js "null")) initial_world))) = []
  /\ ~ (exists r w',
          parseClientRequest (rt := reference_runtime)
            (quiet_env (stream_of [] EndOfStream)) (post (js "null")) initial_world
          = (Normal r, w')).
Proof.
  split; [vm_compute; reflexivity|].
  split; [vm_compute; reflexivity|].
  split; [vm_compute; reflexivity|].
  intros (r & w' & Hr). vm_compute in Hr. discriminate Hr.
Qed.

(** A primitive other than null fails at the assignment (strict mode),
    after the random source was read. *)
Example number_body_rejected :
  parseClientRequest (rt := reference_runtime) (quiet_env (stream_of [] EndOfStream))
    (post (js "5")) initial_world
  = (Abrupt (ErrorObj (js "TypeError")
               (js "Cannot create property 'sessionId' on number")),
     {| trace := []; draws := 1 |}).
Proof. vm_compute. reflexivity. Qed.

(** ** JSON.stringify read back by JSON.parse: strings *)

Lemma lex_silent (st st' : lex_state) (c : N) (r : jsstring) :
  lex_step st c = Some (st', []) -> lex st (c :: r) = lex st' r.
Proof. intros Hs. simpl. rewrite Hs. now destruct (lex st' r). Qed.

Lemma hex_value_digit (d : N) : d < 16 -> hex_value (hex_digit d) = Some d.
Proof.
  intros Hd.
  assert (Hcases : d = 0 \/ d = 1 \/ d = 2 \/ d = 3 \/ d = 4 \/ d = 5 \/ d = 6 \/ d = 7
                   \/ d = 8 \/ d = 9 \/ d = 10 \/ d = 11 \/ d = 12 \/ d = 13
                   \/ d = 14 \/ d = 15) by lia.
  repeat (destruct Hcases as [->|Hcases]; [reflexivity|]). now subst.
Qed.

Lemma nibble_bound (x : N) : N.land x 15 < 16.
Proof. change 15 with (N.ones 4). rewrite N.land_ones. now apply N.mod_lt. Qed.

(** The four hexadecimal digits of a code unit denote it. *)
Lemma hex4_value (c : N) :
  c < 65536 ->
  let hi := N.land (N.shiftr c 8) 255 in
  let lo := N.land c 255 in
  16 * (16 * (16 * (16 * 0 + N.land (N.shiftr hi 4) 15) + N.land hi 15)
        + N.land (N.shiftr lo 4) 15) + N.land lo 15 = c.
Proof.
  intros Hc hi lo. subst hi lo.
  change 255 with (N.ones 8). change 15 with (N.ones 4).
  rewrite !N.land_ones, !N.shiftr_div_pow2.
  change (2 ^ 8) with 256. change (2 ^ 4) with 16.
  pose proof (N.div_mod c 256 ltac:(discriminate)) as H1.
  pose proof (N.mod_lt c 256 ltac:(discriminate)) as H2.
  pose proof (N.div_mod (c mod 256) 16 ltac:(discriminate)) as H3.
  pose proof (N.mod_lt (c mod 256) 16 ltac:(discriminate)) as H4.
  assert (H5 : c / 256 < 256) by (apply N.Div0.div_lt_upper_bound; lia).
  rewrite (N.mod_small (c / 256) 256 H5).
  pose proof (N.div_mod (c / 256) 16 ltac:(discriminate)) as H6.
  pose proof (N.mod_lt (c / 256) 16 ltac:(discriminate)) as H7.
  assert (H8 : c / 256 / 16 < 16) by (apply N.Div0.div_lt_upper_bound; lia).
  rewrite (N.mod_small (c / 256 / 16) 16 H8).
  assert (H9 : c mod 256 / 16 < 16) by (apply N.Div0.div_lt_upper_bound; lia).
  rewrite (N.mod_small (c mod 256 / 16) 16 H9).
  lia.
Qed.

Lemma lex_unicode_escape (c : N) (acc tail : jsstring) :
  c < 65536 -> lex (LStr acc) (unicode_escape c ++ tail) = lex (LStr (c :: acc)) tail.
Proof.
  intros Hc. unfold unicode_escape, hex4, hex2.
  cbn [app].
  rewrite (lex_silent (LStr acc) (LEsc acc)) by reflexivity.
  rewrite (lex_silent (LEsc acc) (LHex acc 0 0)) by reflexivity.
  set (hi := N.land (N.shiftr c 8) 255). set (lo := N.land c 255).
  rewrite (lex_silent (LHex acc 0 0)
             (LHex acc 1 (16 * 0 + N.land (N.shiftr hi 4) 15)))
    by (cbn [lex_step]; now rewrite hex_value_digit by apply nibble_bound).
  rewrite (lex_silent (LHex acc 1 _)
             (LHex acc 2 (16 * (16 * 0 + N.land (N.shiftr hi 4) 15) + N.land hi 15)))
    by (cbn [lex_step]; now rewrite hex_value_digit by apply nibble_bound).
  rewrite (lex_silent (LHex acc 2 _)
             (LHex acc 3 (16 * (16 * (16 * 0 + N.land (N.shiftr hi 4) 15) + N.land hi 15)
                          + N.land (N.shiftr lo 4) 15)))
    by (cbn [lex_step]; now rewrite hex_value_digit by apply nibble_bound).
  rewrite (lex_silent (LHex acc 3 _) (LStr (c :: acc))).
  - reflexivity.
  - cbn [lex_step]. rewrite hex_value_digit by apply nibble_bound.
    subst hi lo. now rewrite (hex4_value c Hc).
Qed.

(** One code unit printed by JSON.stringify is read back as itself. *)
Lemma lex_quote_unit (c : N) (acc tail : jsstring) :
  lex (LStr acc) (quote_unit c ++ tail) = lex (LStr (c :: acc)) tail.
Proof.
  unfold quote_unit.
  destruct (c =? 8) eqn:E8;
    [apply N.eqb_eq in E8; subst c; cbn [app];
     now rewrite (lex_silent (LStr acc) (LEsc acc)),
                 (lex_silent (LEsc acc) (LStr (8 :: acc))) by reflexivity|].
  destruct (c =? c_tab) eqn:E9;
    [apply N.eqb_eq in E9; subst c; cbn [app];
     now rewrite (lex_silent (LStr acc) (LEsc acc)),
                 (lex_silent (LEsc acc) (LStr (c_tab :: acc))) by reflexivity|].
  destruct (c =? c_lf) eqn:E10;
    [apply N.eqb_eq in E10; subst c; cbn [app];
     now rewrite (lex_silent (LStr acc) (LEsc acc)),
                 (lex_silent (LEsc acc) (LStr (c_lf :: acc))) by reflexivity|].
  destruct (c =? 12) eqn:E12;
    [apply N.eqb_eq in E12; subst c; cbn [app];
     now rewrite (lex_silent (LStr acc) (LEsc acc)),
                 (lex_silent (LEsc acc) (LStr (12 :: acc))) by reflexivity|].
  destruct (c =? c_cr) eqn:E13;
    [apply N.eqb_eq in E13; subst c; cbn [app];
     now rewrite (lex_silent (LStr acc) (LEsc acc)),
                 (lex_silent (LEsc acc) (LStr (c_cr :: acc))) by reflexivity|].
  destruct (c =? c_quote) eqn:E34;
    [apply N.eqb_eq in E34; subst c; cbn [app];
     now rewrite (lex_silent (LStr acc) (LEsc acc)),
                 (lex_silent (LEsc acc) (LStr (c_quote :: acc))) by reflexivity|].
  destruct (c =? c_backslash) eqn:E92;
    [apply N.eqb_eq in E92; subst c; cbn [app];
     now rewrite (lex_silent (LStr acc) (LEsc acc)),
                 (lex_silent (LEsc acc) (LStr (c_backslash :: acc))) by reflexivity|].
  destruct (c <? 32) eqn:E32.
  - apply N.ltb_lt in E32. apply lex_unicode_escape. lia.
  - cbn [app]. apply lex_silent. cbn [lex_step]. now rewrite E34, E92, E32.
Qed.

Lemma surrogate_literal (c : N) (acc : jsstring) :
  is_high_surrogate c || is_low_surrogate c = true ->
  lex_step (LStr acc) c = Some (LStr (c :: acc), [])
  /\ c < 65536.
Proof.
  unfold is_high_surrogate, is_low_surrogate. intros Hs.
  assert (Hr : 55296 <= c <= 57343).
  { apply orb_true_iff in Hs as [Hs|Hs]; apply andb_true_iff in Hs as [H1 H2];
      apply N.leb_le in H1, H2; lia. }
  split; [|lia]. cbn [lex_step].
  assert (E34 : (c =? c_quote) = false) by (apply N.eqb_neq; unfold c_quote; lia).
  assert (E92 : (c =? c_backslash) = false) by (apply N.eqb_neq; unfold c_backslash; lia).
  assert (E32 : (c <? 32) = false) by (apply N.ltb_ge; lia).
  now rewrite E34, E92, E32.
Qed.

(** A string printed by JSON.stringify is read back as itself, whatever
    its code units. *)
Lemma lex_quote_body (n : nat) :
  forall (s acc rest : jsstring),
    (length s <= n)%nat ->
    lex (LStr acc) (quote_body s ++ c_quote :: rest)
    = match lex LStart rest with
      | Some ts => Some (TString (rev acc ++ s) :: ts)
      | None => None
      end.
Proof.
  induction n as [|n IH]; intros s acc rest Hlen.
  - destruct s; [|simpl in Hlen; lia]. simpl. now rewrite app_nil_r.
  - destruct s as [|c r].
    + simpl. now rewrite app_nil_r.
    + simpl in Hlen.
      assert (Hrev : forall t, rev (c :: acc) ++ t = rev acc ++ c :: t)
        by (intros t; simpl; now rewrite <- app_assoc).
      cbn [quote_body].
      destruct (is_high_surrogate c) eqn:Hhi.
      * destruct (surrogate_literal c acc) as [Hc Hlt]; [now rewrite Hhi|].
        destruct r as [|d r'].
        -- rewrite (lex_unicode_escape c acc _ Hlt).
           change (c_quote :: rest) with (quote_body [] ++ c_quote :: rest).
           rewrite (IH [] (c :: acc) rest) by (simpl; lia). now rewrite Hrev.
        -- destruct (is_low_surrogate d) eqn:Hlo.
           ++ destruct (surrogate_literal d (c :: acc)) as [Hd _];
                [now rewrite Hlo, orb_true_r|].
              cbn [app]. rewrite (lex_silent _ _ _ _ Hc), (lex_silent _ _ _ _ Hd).
              rewrite (IH r' (d :: c :: acc) rest) by (simpl in Hlen; lia).
              simpl. now rewrite <- !app_assoc.
           ++ rewrite <- app_assoc, (lex_unicode_escape c acc _ Hlt).
              rewrite (IH (d :: r') (c :: acc) rest) by lia. now rewrite Hrev.
      * destruct (is_low_surrogate c) eqn:Hlo.
        -- destruct (surrogate_literal c acc) as [_ Hlt]; [now rewrite Hlo, orb_true_r|].
           rewrite <- app_assoc, (lex_unicode_escape c acc _ Hlt).
           rewrite (IH r (c :: acc) rest) by lia. now rewrite Hrev.
        -- rewrite <- app_assoc, lex_quote_unit.
           rewrite (IH r (c :: acc) rest) by lia. now rewrite Hrev.
Qed.

(** ** JSON.stringify read back by JSON.parse: values *)

(** Induction on values, through the lists they hold. *)
Lemma value_induction (P : value -> Prop) :
  P VUndefined -> P VNull -> (forall b, P (VBool b)) ->
  (forall lit, P (VNum lit)) -> (forall s, P (VStr s)) ->
  (forall elems named,
     Forall P elems -> Forall (fun kv => P (snd kv)) named -> P (VArr elems named)) ->
  (forall props, Forall (fun kv => P (snd kv)) props -> P (VObj props)) ->
  forall v, P v.
Proof.
  intros Hu Hn Hb Hnum Hs Ha Ho.
  fix IH 1. intros [| | b | lit | s | elems named | props].
  - exact Hu.
  - exact Hn.
  - apply Hb.
  - apply Hnum.
  - apply Hs.
  - apply Ha.
    + induction elems as [|x r IHr]; constructor; [apply IH | exact IHr].
    + induction named as [|[k x] r IHr]; constructor; [apply IH | exact IHr].
  - apply Ho.
    induction props as [|[k x] r IHr]; constructor; [apply IH | exact IHr].
Qed.

Lemma prepend_app (a b : list token) (o : option (list token)) :
  prepend (a ++ b) o = prepend a (prepend b o).
Proof. destruct o; simpl; [now rewrite app_assoc | reflexivity]. Qed.

Lemma prepend_nil (o : option (list token)) : prepend [] o = o.
Proof. now destruct o. Qed.

Lemma lex_emit (st st' : lex_state) (c : N) (ts : list token) (r : jsstring) :
  lex_step st c = Some (st', ts) -> lex st (c :: r) = prepend ts (lex st' r).
Proof. intros Hs. simpl. now rewrite Hs. Qed.

Lemma lex_quote (s rest : jsstring) :
  lex LStart (quote s ++ rest) = prepend [TString s] (lex LStart rest).
Proof.
  unfold quote. rewrite <- !app_assoc. cbn [app].
  rewrite (lex_silent LStart (LStr [])) by reflexivity.
  now rewrite (lex_quote_body (length s) s [] rest) by lia.
Qed.

Lemma lex_null (rest : jsstring) :
  lex LStart (js "null" ++ rest) = prepend [TNull] (lex LStart rest).
Proof. simpl. now destruct (lex LStart rest). Qed.

Lemma lex_true (rest : jsstring) :
  lex LStart (js "true" ++ rest) = prepend [TTrue] (lex LStart rest).
Proof. simpl. now destruct (lex LStart rest). Qed.

Lemma lex_false (rest : jsstring) :
  lex LStart (js "false" ++ rest) = prepend [TFalse] (lex LStart rest).
Proof. simpl. now destruct (lex LStart rest). Qed.

(** Texts joined by commas are read as their tokens joined by commas. *)
Lemma lex_join_parts (parts : list (jsstring * list token)) :
  Forall (fun p => forall rest,
            lex LStart (fst p ++ rest) = prepend (snd p) (lex LStart rest)) parts ->
  forall rest,
    lex LStart (join_comma (map fst parts) ++ rest)
    = prepend (join_tokens (map snd parts)) (lex LStart rest).
Proof.
  induction 1 as [|[text ts] parts Hp Hparts IH]; intros rest.
  - simpl. now rewrite prepend_nil.
  - destruct parts as [|q parts'].
    + simpl in *. apply Hp.
    + change (join_comma (map fst ((text, ts) :: q :: parts')))
        with (text ++ [44] ++ join_comma (map fst (q :: parts'))).
      change (join_tokens (map snd ((text, ts) :: q :: parts')))
        with (ts ++ TComma :: join_tokens (map snd (q :: parts'))).
      rewrite <- !app_assoc. simpl in Hp. rewrite Hp. cbn [app].
      rewrite (lex_emit LStart LStart 44 [TComma]) by reflexivity.
      rewrite IH. rewrite prepend_app.
      change (TComma :: join_tokens (map snd (q :: parts')))
        with ([TComma] ++ join_tokens (map snd (q :: parts'))).
      now rewrite prepend_app.
Qed.

Lemma forallb_Forall_and {A : Type} (f g : A -> bool) (P : A -> Prop) (l : list A) :
  Forall (fun x => f x = true -> g x = true -> P x) l ->
  forallb f l = true -> forallb g l = true -> Forall P l.
Proof.
  induction 1 as [|x l Hx Hl IH]; simpl; intros Hf Hg; constructor.
  - apply andb_true_iff in Hf as [Hf _]. apply andb_true_iff in Hg as [Hg _]. auto.
  - apply andb_true_iff in Hf as [_ Hf]. apply andb_true_iff in Hg as [_ Hg]. auto.
Qed.

(** What JSON.stringify prints for a value shaped as JSON.parse builds
    them, and without numbers, is read as the tokens of the value. *)
Lemma lex_value {rt : Runtime} (v : value) :
  json_shaped v = true -> number_free v = true ->
  stringify v = Some (text_of v)
  /\ forall rest,
       lex LStart (text_of v ++ rest) = prepend (tokens_of v) (lex LStart rest).
Proof.
  induction v as [| | b | lit | s | elems named IHe _ | props IHp]
    using value_induction; intros Hshape Hfree; try discriminate.
  - split; [reflexivity | apply lex_null].
  - destruct b; (split; [reflexivity|]); [apply lex_true | apply lex_false].
  - split; [reflexivity | apply lex_quote].
  - split; [reflexivity|]. intros rest.
    simpl in Hshape, Hfree.
    apply andb_true_iff in Hshape as [_ Hshape].
    apply andb_true_iff in Hfree as [Hfree _].
    pose proof (forallb_Forall_and _ _ _ _ IHe Hshape Hfree) as Hall.
    assert (Htext : text_of (VArr elems named)
                    = [91] ++ join_comma (map fst
                                (map (fun x => (text_of x, tokens_of x)) elems)) ++ [93]).
    { rewrite map_map. reflexivity. }
    assert (Htok : tokens_of (VArr elems named)
                   = TLBrack :: join_tokens (map snd
                                 (map (fun x => (text_of x, tokens_of x)) elems))
                       ++ [TRBrack]).
    { rewrite map_map. reflexivity. }
    rewrite Htext, Htok. rewrite <- !app_assoc. cbn [app].
    rewrite (lex_emit LStart LStart 91 [TLBrack]) by reflexivity.
    rewrite lex_join_parts.
    + cbn [app]. rewrite (lex_emit LStart LStart 93 [TRBrack]) by reflexivity.
      rewrite <- !prepend_app. reflexivity.
    + apply Forall_map. eapply Forall_impl; [exact Hall|].
      intros x [_ Hx]. exact Hx.
  - simpl in Hshape, Hfree. apply andb_true_iff in Hshape as [_ Hshape].
    pose proof (forallb_Forall_and _ _ _ _ IHp Hshape Hfree) as Hall.
    assert (Hparts :
      omap (fun kv => match stringify (snd kv) with
                      | Some t => Some (quote (fst kv) ++ [58] ++ t)
                      | None => None
                      end) props
      = map fst (map (fun kv => (quote (fst kv) ++ [58] ++ text_of (snd kv),
                                 TString (fst kv) :: TColon :: tokens_of (snd kv)))
                   props)).
    { clear -Hall. induction Hall as [|kv props [Hkv _] _ IH]; [reflexivity|].
      cbn [omap list_omap map fst]. rewrite Hkv.
      change (list_omap ?f ?l) with (omap f l). now rewrite IH. }
    assert (Hstr : stringify (VObj props)
                   = Some ([123] ++ join_comma (map fst
                        (map (fun kv => (quote (fst kv) ++ [58] ++ text_of (snd kv),
                                 TString (fst kv) :: TColon :: tokens_of (snd kv)))
                           props)) ++ [125])).
    { rewrite <- Hparts. reflexivity. }
    assert (Htext : text_of (VObj props)
                    = [123] ++ join_comma (map fst
                        (map (fun kv => (quote (fst kv) ++ [58] ++ text_of (snd kv),
                                 TString (fst kv) :: TColon :: tokens_of (snd kv)))
                           props)) ++ [125]).
    { unfold text_of. now rewrite Hstr. }
    split; [now rewrite Htext|].
    intros rest.
    assert (Htok : tokens_of (VObj props)
                   = TLBrace :: join_tokens (map snd
                        (map (fun kv => (quote (fst kv) ++ [58] ++ text_of (snd kv),
                                 TString (fst kv) :: TColon :: tokens_of (snd kv)))
                           props))
                       ++ [TRBrace]).
    { rewrite map_map. reflexivity. }
    rewrite Htext, Htok. rewrite <- !app_assoc. cbn [app].
    rewrite (lex_emit LStart LStart 123 [TLBrace]) by reflexivity.
    rewrite lex_join_parts.
    + cbn [app]. rewrite (lex_emit LStart LStart 125 [TRBrace]) by reflexivity.
      rewrite <- !prepend_app. reflexivity.
    + apply Forall_map. eapply Forall_impl; [exact Hall|].
      intros [k x] [_ Hx] rest'. cbn [fst snd]. rewrite <- !app_assoc.
      rewrite lex_quote. cbn [app].
      rewrite (lex_emit LStart LStart 58 [TColon]) by reflexivity.
      rewrite Hx. rewrite <- !prepend_app. reflexivity.
Qed.

(** *** Keys in order are appended as they come *)

Lemma has_key_before (k : jsstring) (acc : list (jsstring * value)) :
  Forall (fun k' => key_before k' k = true) (map fst acc) -> has_key k acc = false.
Proof.
  induction acc as [|[k' v'] acc IH]; simpl; intros Hall; [reflexivity|].
  inversion Hall as [|? ? Hk Hr]; subst.
  unfold key_before in Hk. apply andb_true_iff in Hk as [Hne _].
  apply negb_true_iff in Hne.
  assert (Hsym : jsstring_eqb k k' = false).
  { unfold jsstring_eqb in *. apply bool_decide_eq_false.
    apply bool_decide_eq_false in Hne. congruence. }
  rewrite Hsym. simpl. auto.
Qed.

Lemma insert_index_last (i : N) (k : jsstring) (v : value)
    (acc : list (jsstring * value)) :
  array_index k = Some i ->
  Forall (fun k' => key_before k' k = true) (map fst acc) ->
  insert_index i k v acc = acc ++ [(k, v)].
Proof.
  intros Hi. induction acc as [|[k' v'] acc IH]; simpl; intros Hall; [reflexivity|].
  inversion Hall as [|? ? Hk Hr]; subst.
  unfold key_before in Hk. apply andb_true_iff in Hk as [_ Hord].
  rewrite Hi in Hord. destruct (array_index k') as [j|]; [|discriminate].
  rewrite Hord. now rewrite IH.
Qed.

Lemma define_prop_append (k : jsstring) (v : value) (acc : list (jsstring * value)) :
  Forall (fun k' => key_before k' k = true) (map fst acc) ->
  define_prop k v acc = acc ++ [(k, v)].
Proof.
  intros Hall. unfold define_prop. rewrite (has_key_before k acc Hall).
  destruct (array_index k) as [i|] eqn:Hi; [|reflexivity].
  now apply insert_index_last.
Qed.

Lemma ordered_keys_last (l : list jsstring) (k : jsstring) :
  ordered_keys (l ++ [k]) = true ->
  ordered_keys l = true /\ Forall (fun k' => key_before k' k = true) l.
Proof.
  induction l as [|k' l IH]; simpl; intros Ho; [split; [reflexivity | constructor]|].
  apply andb_true_iff in Ho as [Hk Ho]. rewrite forallb_app in Hk.
  apply andb_true_iff in Hk as [Hl Hk]. simpl in Hk.
  apply andb_true_iff in Hk as [Hk _].
  destruct (IH Ho) as [Ho' Hall]. rewrite Hl, Ho'. split; [reflexivity|].
  constructor; assumption.
Qed.

Lemma ordered_keys_prefix (l r : list jsstring) :
  ordered_keys (l ++ r) = true -> ordered_keys l = true.
Proof.
  induction l as [|k l IH]; simpl; intros Ho; [reflexivity|].
  apply andb_true_iff in Ho as [Hk Ho]. rewrite forallb_app in Hk.
  apply andb_true_iff in Hk as [Hl _]. rewrite Hl. simpl. auto.
Qed.

(** Assigning the properties of an object in their order builds the same
    object. *)
Lemma define_all_ordered (props acc : list (jsstring * value)) :
  ordered_keys (map fst (acc ++ props)) = true ->
  define_all props acc = acc ++ props.
Proof.
  revert acc. induction props as [|[k v] props IH]; intros acc Ho.
  - simpl. now rewrite app_nil_r.
  - unfold define_all. cbn [fold_left fst snd]. fold (define_all props (define_prop k v acc)).
    assert (Hpre : ordered_keys (map fst acc ++ [k]) = true).
    { apply (ordered_keys_prefix _ (map fst props)).
      rewrite <- app_assoc. rewrite map_app in Ho. exact Ho. }
    destruct (ordered_keys_last _ _ Hpre) as [_ Hall].
    rewrite (define_prop_append k v acc Hall).
    rewrite IH; rewrite <- app_assoc; [reflexivity | exact Ho].
Qed.

(** *** The tokens of a value are parsed as the value *)

Lemma parse_cons (st st' : parse_state) (t : token) (ts : list token) :
  parse_step st t = Some st' -> parse_tokens st (t :: ts) = parse_tokens st' ts.
Proof.
  intros Hs.
  change (parse_tokens st (t :: ts))
    with (match parse_step st t with
          | Some st' => parse_tokens st' ts
          | None => None
          end).
  now rewrite Hs.
Qed.

Lemma join_tokens_cons (x : value) (r : list value) :
  join_tokens (map tokens_of (x :: r)) = tokens_of x ++ more_elements r.
Proof. destruct r; simpl; [now rewrite app_nil_r | reflexivity]. Qed.

Lemma join_entries_cons (kv : jsstring * value) (r : list (jsstring * value)) :
  join_tokens (map entry_tokens (kv :: r)) = entry_tokens kv ++ more_entries r.
Proof. destruct r; simpl; [now rewrite app_nil_r | reflexivity]. Qed.

(** The first token of a value is read after "[" as it is where a value is
    expected. *)
Lemma tokens_of_start (v : value) :
  json_shaped v = true ->
  exists t r,
    tokens_of v = t :: r
    /\ forall stk, parse_step (PArrOpen stk) t = parse_step (PValue (FArr [] :: stk)) t.
Proof.
  destruct v as [| | [|] | lit | s | elems named | props]; simpl; intros Hs;
    try discriminate; eexists _, _; (split; [reflexivity|]); reflexivity.
Qed.

Lemma parse_open_as_value (stk : list frame) (t : token) (ts : list token) :
  parse_step (PArrOpen stk) t = parse_step (PValue (FArr [] :: stk)) t ->
  parse_tokens (PArrOpen stk) (t :: ts)
  = parse_tokens (PValue (FArr [] :: stk)) (t :: ts).
Proof.
  intros Hs.
  change (parse_tokens (PArrOpen stk) (t :: ts))
    with (match parse_step (PArrOpen stk) t with
          | Some st' => parse_tokens st' ts
          | None => None
          end).
  now rewrite Hs.
Qed.

Lemma parse_value (v : value) :
  json_shaped v = true ->
  forall stk ts,
    parse_tokens (PValue stk) (tokens_of v ++ ts) = parse_tokens (PAfter v stk) ts.
Proof.
  induction v as [| | b | lit | s | elems named IHe _ | props IHp]
    using value_induction; intros Hshape stk ts; try discriminate;
    try reflexivity.
  - destruct b; reflexivity.
  - simpl in Hshape. apply andb_true_iff in Hshape as [Hnamed Hshape].
    destruct named; [|discriminate].
    assert (Hrest : forall r acc x,
      Forall (fun v => json_shaped v = true ->
                forall stk ts, parse_tokens (PValue stk) (tokens_of v ++ ts)
                               = parse_tokens (PAfter v stk) ts) r ->
      forallb json_shaped r = true ->
      parse_tokens (PAfter x (FArr acc :: stk)) (more_elements r ++ TRBrack :: ts)
      = parse_tokens (PAfter (VArr (rev acc ++ x :: r) []) stk) ts).
    { induction r as [|y r IHr]; intros acc x Hall Hsh.
      - reflexivity.
      - inversion Hall as [|? ? Hy Hr]; subst. simpl in Hsh.
        apply andb_true_iff in Hsh as [Hys Hrs].
        unfold more_elements. rewrite join_tokens_cons. cbn [app].
        rewrite (parse_cons _ (PValue (FArr (x :: acc) :: stk))) by reflexivity.
        rewrite <- app_assoc, (Hy Hys). rewrite (IHr (x :: acc) y Hr Hrs).
        simpl. now rewrite <- app_assoc. }
    change (tokens_of (VArr elems []))
      with (TLBrack :: join_tokens (map tokens_of elems) ++ [TRBrack]).
    cbn [app]. rewrite (parse_cons _ (PArrOpen stk)) by reflexivity.
    destruct elems as [|x r]; [reflexivity|].
    inversion IHe as [|? ? Hx Hr]; subst. simpl in Hshape.
    apply andb_true_iff in Hshape as [Hxs Hrs].
    rewrite join_tokens_cons, <- !app_assoc.
    assert (Hfirst : forall rest,
      parse_tokens (PArrOpen stk) (tokens_of x ++ rest)
      = parse_tokens (PValue (FArr [] :: stk)) (tokens_of x ++ rest)).
    { intros rest. destruct (tokens_of_start x Hxs) as (t & tl & Htok & Hstart).
      rewrite Htok. cbn [app]. apply parse_open_as_value, Hstart. }
    rewrite Hfirst, (Hx Hxs). apply (Hrest r [] x Hr Hrs).
  - simpl in Hshape. apply andb_true_iff in Hshape as [Hord Hshape].
    assert (Hrest : forall r acc k x,
      Forall (fun kv => json_shaped (snd kv) = true ->
                forall stk ts, parse_tokens (PValue stk) (tokens_of (snd kv) ++ ts)
                               = parse_tokens (PAfter (snd kv) stk) ts) r ->
      forallb (fun kv => json_shaped (snd kv)) r = true ->
      parse_tokens (PAfter x (FObj acc k :: stk)) (more_entries r ++ TRBrace :: ts)
      = parse_tokens (PAfter (VObj (define_all r (define_prop k x acc))) stk) ts).
    { induction r as [|[k' y] r IHr]; intros acc k x Hall Hsh.
      - reflexivity.
      - inversion Hall as [|? ? Hy Hr]; subst. simpl in Hsh, Hy.
        apply andb_true_iff in Hsh as [Hys Hrs].
        unfold more_entries. rewrite join_entries_cons. unfold entry_tokens at 1.
        cbn [app fst snd].
        rewrite (parse_cons _ (PObjKey (define_prop k x acc) stk)) by reflexivity.
        rewrite (parse_cons _ (PObjColon (define_prop k x acc) k' stk)) by reflexivity.
        rewrite (parse_cons _ (PValue (FObj (define_prop k x acc) k' :: stk)))
          by reflexivity.
        rewrite <- app_assoc, (Hy Hys).
        rewrite (IHr (define_prop k x acc) k' y Hr Hrs). reflexivity. }
    change (tokens_of (VObj props))
      with (TLBrace :: join_tokens (map entry_tokens props) ++ [TRBrace]).
    cbn [app]. rewrite (parse_cons _ (PObjOpen stk)) by reflexivity.
    destruct props as [|[k x] r]; [reflexivity|].
    inversion IHp as [|? ? Hx Hr]; subst. simpl in Hshape, Hx.
    apply andb_true_iff in Hshape as [Hxs Hrs].
    rewrite join_entries_cons, <- !app_assoc. unfold entry_tokens at 1.
    cbn [app fst snd].
    rewrite (parse_cons _ (PObjColon [] k stk)) by reflexivity.
    rewrite (parse_cons _ (PValue (FObj [] k :: stk))) by reflexivity.
    rewrite (Hx Hxs). rewrite (Hrest r [] k x Hr Hrs).
    change (define_all r (define_prop k x [])) with (define_all ((k, x) :: r) []).
    now rewrite (define_all_ordered ((k, x) :: r) []) by exact Hord.
Qed.

(** JSON.parse reads back what JSON.stringify prints, for a value shaped
    as JSON.parse builds them and without numbers. *)
Lemma json_value_stringify {rt : Runtime} (v : value) :
  json_shaped v = true -> number_free v = true ->
  exists text, stringify v = Some text /\ json_value text = Some v.
Proof.
  intros Hshape Hfree. destruct (lex_value v Hshape Hfree) as [Hstr Hlex].
  exists (text_of v). split; [exact Hstr|]. unfold json_value.
  specialize (Hlex []). rewrite app_nil_r in Hlex. rewrite Hlex. simpl.
  rewrite <- (app_nil_r (tokens_of v ++ [])), <- app_assoc.
  now rewrite (parse_value v Hshape).
Qed.

(** *** Array indices: one numeral for each *)

Lemma decimal_value_acc (s : jsstring) (acc : N) :
  decimal_value acc s = acc * 10 ^ N.of_nat (length s) + decimal_value 0 s.
Proof.
  revert acc. induction s as [|c r IH]; intros acc.
  - simpl. lia.
  - cbn [decimal_value length]. rewrite (IH (10 * acc + (c - 48))), (IH (10 * 0 + (c - 48))).
    rewrite Nat2N.inj_succ, N.pow_succ_r'. lia.
Qed.

Lemma decimal_value_bound (s : jsstring) :
  forallb is_digit s = true -> decimal_value 0 s < 10 ^ N.of_nat (length s).
Proof.
  induction s as [|c r IH]; intros Hd.
  - simpl. lia.
  - simpl in Hd. apply andb_true_iff in Hd as [Hc Hr].
    unfold is_digit in Hc. apply andb_true_iff in Hc as [H1 H2].
    apply N.leb_le in H1, H2. specialize (IH Hr).
    cbn [decimal_value length]. rewrite decimal_value_acc.
    rewrite Nat2N.inj_succ, N.pow_succ_r'. nia.
Qed.

Lemma numerals_same_length (s s' : jsstring) :
  forallb is_digit s = true -> forallb is_digit s' = true ->
  length s = length s' ->
  decimal_value 0 s = decimal_value 0 s' -> s = s'.
Proof.
  revert s'. induction s as [|c r IH]; intros [|c' r'] Hd Hd' Hlen Hval;
    try discriminate; [reflexivity|].
  assert (Hlen' : length r = length r') by (simpl in Hlen; lia).
  clear Hlen. rename Hlen' into Hlen. simpl in Hd, Hd'.
  apply andb_true_iff in Hd as [Hc Hr]. apply andb_true_iff in Hd' as [Hc' Hr'].
  pose proof (decimal_value_bound r Hr) as Hb.
  pose proof (decimal_value_bound r' Hr') as Hb'.
  unfold is_digit in Hc, Hc'.
  apply andb_true_iff in Hc as [H1 H2]. apply andb_true_iff in Hc' as [H1' H2'].
  apply N.leb_le in H1, H2, H1', H2'.
  cbn [decimal_value] in Hval.
  rewrite (decimal_value_acc r), (decimal_value_acc r') in Hval.
  rewrite <- Hlen in Hval, Hb'.
  set (P := 10 ^ N.of_nat (length r)) in *.
  assert (Hcc : c = c') by nia. subst c'.
  f_equal. apply IH; try assumption. nia.
Qed.

Lemma pow10_mono (a b : nat) : (a < b)%nat -> 10 * 10 ^ N.of_nat a <= 10 ^ N.of_nat b.
Proof.
  intros Hab. rewrite <- N.pow_succ_r', <- Nat2N.inj_succ.
  apply N.pow_le_mono_r; lia.
Qed.

(** What [array_index] accepts: digits, with no leading zero. *)
Lemma array_index_numeral (k : jsstring) (i : N) :
  array_index k = Some i ->
  forallb is_digit k = true /\ i = decimal_value 0 k
  /\ (k = [48] \/ exists c r, k = c :: r /\ is_digit19 c = true).
Proof.
  unfold array_index. destruct k as [|c r]; [discriminate|].
  destruct (forallb is_digit (c :: r)) eqn:Hd; [|discriminate].
  destruct ((c =? 48) && match r with [] => true | _ => false end || is_digit19 c)
    eqn:Hc; [|discriminate].
  cbn [andb].
  destruct (N.of_nat (length (c :: r)) <=? 10); [|discriminate].
  destruct (decimal_value 0 (c :: r) <? 4294967295); [|discriminate].
  cbn [andb]. intros Hi. injection Hi as <-. split; [reflexivity|]. split; [reflexivity|].
  apply orb_true_iff in Hc as [Hc|Hc].
  - apply andb_true_iff in Hc as [Hc Hr]. apply N.eqb_eq in Hc. subst c.
    destruct r; [now left | discriminate].
  - right. eauto.
Qed.

Lemma numeral_lower_bound (c : N) (r : jsstring) :
  is_digit19 c = true ->
  10 ^ N.of_nat (length r) <= decimal_value 0 (c :: r).
Proof.
  unfold is_digit19. intros Hc. apply andb_true_iff in Hc as [H1 H2].
  apply N.leb_le in H1, H2. cbn [decimal_value]. rewrite decimal_value_acc. nia.
Qed.

Lemma array_index_inj (k k' : jsstring) (i : N) :
  array_index k = Some i -> array_index k' = Some i -> k = k'.
Proof.
  intros Hk Hk'.
  destruct (array_index_numeral k i Hk) as (Hd & Hi & Hform).
  destruct (array_index_numeral k' i Hk') as (Hd' & Hi' & Hform').
  apply numerals_same_length; try assumption; [|congruence].
  pose proof (decimal_value_bound k Hd) as Hb.
  pose proof (decimal_value_bound k' Hd') as Hb'.
  rewrite <- Hi in Hb. rewrite <- Hi' in Hb'.
  destruct Hform as [->|(c & r & -> & Hc)]; destruct Hform' as [->|(c' & r' & -> & Hc')].
  - reflexivity.
  - pose proof (numeral_lower_bound c' r' Hc') as Hl. rewrite <- Hi' in Hl.
    simpl in Hi. subst i. assert (0 < 10 ^ N.of_nat (length r')) by (apply N.neq_0_lt_0, N.pow_nonzero; lia). lia.
  - pose proof (numeral_lower_bound c r Hc) as Hl. rewrite <- Hi in Hl.
    simpl in Hi'. subst i. assert (0 < 10 ^ N.of_nat (length r)) by (apply N.neq_0_lt_0, N.pow_nonzero; lia). lia.
  - pose proof (numeral_lower_bound c r Hc) as Hl. rewrite <- Hi in Hl.
    pose proof (numeral_lower_bound c' r' Hc') as Hl'. rewrite <- Hi' in Hl'.
    cbn [length] in *. rewrite Nat2N.inj_succ, N.pow_succ_r' in Hb, Hb'.
    destruct (Nat.lt_trichotomy (length r) (length r')) as [Hlt|[Heq|Hgt]].
    + pose proof (pow10_mono _ _ Hlt). lia.
    + now rewrite Heq.
    + pose proof (pow10_mono _ _ Hgt). lia.
Qed.

(** *** JSON.parse builds shaped values *)

Lemma key_before_neq (k k' : jsstring) : key_before k k' = true -> k <> k'.
Proof.
  unfold key_before, jsstring_eqb. intros Hk. apply andb_true_iff in Hk as [Hne _].
  apply negb_true_iff in Hne. now apply bool_decide_eq_false in Hne.
Qed.

Lemma has_key_false (k : jsstring) (acc : list (jsstring * value)) :
  has_key k acc = false -> Forall (fun k' => k' <> k) (map fst acc).
Proof.
  induction acc as [|[k' v'] acc IH]; simpl; intros Hk; constructor.
  - apply orb_false_iff in Hk as [Hk _]. unfold jsstring_eqb in Hk.
    apply bool_decide_eq_false in Hk. congruence.
  - apply orb_false_iff in Hk as [_ Hk]. auto.
Qed.

Lemma map_fst_replace_key (k : jsstring) (v : value) (acc : list (jsstring * value)) :
  map fst (replace_key k v acc) = map fst acc.
Proof.
  induction acc as [|[k' v'] acc IH]; simpl; [reflexivity|].
  destruct (jsstring_eqb k k'); simpl; [reflexivity | now rewrite IH].
Qed.

Lemma shaped_replace_key (k : jsstring) (v : value) (acc : list (jsstring * value)) :
  json_shaped v = true ->
  forallb (fun kv => json_shaped (snd kv)) acc = true ->
  forallb (fun kv => json_shaped (snd kv)) (replace_key k v acc) = true.
Proof.
  intros Hv. induction acc as [|[k' v'] acc IH]; simpl; [reflexivity|].
  intros Ha. apply andb_true_iff in Ha as [Hv' Ha].
  destruct (jsstring_eqb k k'); simpl; [now rewrite Hv, Ha|].
  now rewrite Hv', IH.
Qed.

Lemma shaped_insert_index (i : N) (k : jsstring) (v : value)
    (acc : list (jsstring * value)) :
  json_shaped v = true ->
  forallb (fun kv => json_shaped (snd kv)) acc = true ->
  forallb (fun kv => json_shaped (snd kv)) (insert_index i k v acc) = true.
Proof.
  intros Hv. induction acc as [|[k' v'] acc IH]; simpl; [now rewrite Hv|].
  intros Ha. apply andb_true_iff in Ha as [Hv' Ha].
  destruct (array_index k') as [j|]; [destruct (j <? i)|]; simpl;
    rewrite ?Hv, ?Hv', ?Ha, ?IH; auto.
Qed.

(** A key that goes before [k'] goes before every key that [k'] goes
    before, when it is an index and [k'] is not smaller. *)
Lemma key_before_trans_index (k k' k'' : jsstring) (i : N) :
  array_index k = Some i ->
  (match array_index k' with Some j => i <= j | None => True end) ->
  k'' <> k ->
  key_before k' k'' = true -> key_before k k'' = true.
Proof.
  intros Hi Hk' Hne Hb. unfold key_before in *.
  apply andb_true_iff in Hb as [_ Hord]. apply andb_true_iff. split.
  - apply negb_true_iff. unfold jsstring_eqb. apply bool_decide_eq_false. congruence.
  - rewrite Hi. destruct (array_index k') as [j|], (array_index k'') as [j''|];
      try reflexivity; try discriminate.
    apply N.ltb_lt in Hord. apply N.ltb_lt. lia.
Qed.

Lemma ordered_insert_index (i : N) (k : jsstring) (v : value)
    (acc : list (jsstring * value)) :
  array_index k = Some i ->
  Forall (fun k' => k' <> k) (map fst acc) ->
  ordered_keys (map fst acc) = true ->
  ordered_keys (map fst (insert_index i k v acc)) = true
  /\ forall k0, key_before k0 k = true ->
       forallb (key_before k0) (map fst acc) = true ->
       forallb (key_before k0) (map fst (insert_index i k v acc)) = true.
Proof.
  intros Hi. induction acc as [|[k' v'] acc IH]; intros Hne Hord.
  - simpl. split; [reflexivity|]. intros k0 Hk0 _. now rewrite Hk0.
  - inversion Hne as [|? ? Hk' Hrest]; subst. simpl in Hord.
    apply andb_true_iff in Hord as [Hall Hord].
    assert (Hhere :
      (match array_index k' with Some j => i <= j | None => True end) ->
      ordered_keys (map fst ((k, v) :: (k', v') :: acc)) = true
      /\ forall k0, key_before k0 k = true ->
           forallb (key_before k0) (map fst ((k', v') :: acc)) = true ->
           forallb (key_before k0) (map fst ((k, v) :: (k', v') :: acc)) = true).
    { intros Hle. split.
      - cbn [map fst ordered_keys forallb]. rewrite Hall, Hord.
        assert (Hkk' : key_before k k' = true).
        { unfold key_before. apply andb_true_iff. split.
          - apply negb_true_iff. unfold jsstring_eqb. apply bool_decide_eq_false.
            congruence.
          - rewrite Hi. destruct (array_index k') as [j|] eqn:Hj; [|reflexivity].
            apply N.ltb_lt. destruct (N.eq_dec i j) as [<-|Hij]; [|lia].
            exfalso. apply Hk'. symmetry. exact (array_index_inj k k' i Hi Hj). }
        rewrite Hkk'. cbn [andb].
        rewrite andb_true_r. apply forallb_forall. intros k'' Hin.
        rewrite forallb_forall in Hall.
        apply (key_before_trans_index k k' k'' i Hi Hle).
        + rewrite Forall_forall in Hrest. apply Hrest.
          now apply list_elem_of_In.
        + now apply Hall.
      - intros k0 Hk0 Hk0all. cbn [map fst forallb]. rewrite Hk0. exact Hk0all. }
    cbn [insert_index].
    destruct (array_index k') as [j|] eqn:Hj.
    + destruct (j <? i) eqn:Hji.
      * destruct (IH Hrest Hord) as [IHo IHb]. split.
        -- cbn [map fst ordered_keys]. rewrite IHo, andb_true_r.
           apply IHb; [|exact Hall].
           unfold key_before. apply andb_true_iff. split.
           ++ apply negb_true_iff. unfold jsstring_eqb. now apply bool_decide_eq_false.
           ++ now rewrite Hj, Hi.
        -- intros k0 Hk0 Hk0all. cbn [map fst forallb] in Hk0all |- *.
           apply andb_true_iff in Hk0all as [H1 H2]. rewrite H1. cbn [andb].
           now apply IHb.
      * apply Hhere. apply N.ltb_ge in Hji. exact Hji.
    + apply Hhere. exact I.
Qed.

Lemma ordered_keys_snoc (l : list jsstring) (k : jsstring) :
  ordered_keys l = true -> Forall (fun k' => key_before k' k = true) l ->
  ordered_keys (l ++ [k]) = true.
Proof.
  induction l as [|k' l IH]; simpl; intros Ho Hall; [reflexivity|].
  apply andb_true_iff in Ho as [Hk Ho]. inversion Hall as [|? ? Hb Hr]; subst.
  rewrite forallb_app, Hk. simpl. rewrite Hb. simpl. auto.
Qed.

(** Assigning a property keeps an object shaped. *)
Lemma props_shaped_define (k : jsstring) (v : value) (acc : list (jsstring * value)) :
  json_shaped v = true -> props_shaped acc = true ->
  props_shaped (define_prop k v acc) = true.
Proof.
  unfold props_shaped. intros Hv Hacc. apply andb_true_iff in Hacc as [Hord Hsh].
  unfold define_prop. destruct (has_key k acc) eqn:Hk.
  - rewrite map_fst_replace_key, Hord. simpl. now apply shaped_replace_key.
  - pose proof (has_key_false k acc Hk) as Hne.
    destruct (array_index k) as [i|] eqn:Hi.
    + destruct (ordered_insert_index i k v acc Hi Hne Hord) as [Ho _].
      rewrite Ho. simpl. now apply shaped_insert_index.
    + rewrite map_app, forallb_app. simpl. rewrite Hsh, Hv. simpl.
      rewrite andb_true_r. apply ordered_keys_snoc; [exact Hord|].
      eapply Forall_impl; [exact Hne|]. intros k' Hk'. cbn beta in Hk'.
      unfold key_before. apply andb_true_iff. split.
      * apply negb_true_iff. unfold jsstring_eqb. now apply bool_decide_eq_false.
      * rewrite Hi. now destruct (array_index k').
Qed.

Lemma forallb_rev {A : Type} (f : A -> bool) (l : list A) :
  forallb f (rev l) = forallb f l.
Proof.
  induction l as [|x l IH]; simpl; [reflexivity|].
  rewrite forallb_app, IH. simpl. rewrite andb_true_r. apply andb_comm.
Qed.

Lemma parse_step_shaped (st st' : parse_state) (t : token) :
  state_shaped st = true -> parse_step st t = Some st' -> state_shaped st' = true.
Proof.
  assert (Hvalue : forall stk st0,
    forallb frame_shaped stk = true ->
    parse_value_token t stk = Some st0 -> state_shaped st0 = true).
  { intros stk st0 Hstk. destruct t; simpl; intros Hst; try discriminate;
      injection Hst as <-; simpl; exact Hstk. }
  destruct st as [stk|stk|stk|acc stk|acc k stk|v stk]; simpl; intros Hst Hstep.
  - eapply Hvalue; eauto.
  - destruct t; try (eapply (Hvalue (FArr [] :: stk)); [simpl; exact Hst | exact Hstep]).
    injection Hstep as <-. simpl. exact Hst.
  - destruct t; try discriminate; injection Hstep as <-; simpl; exact Hst.
  - destruct t; try discriminate. injection Hstep as <-. simpl. exact Hst.
  - destruct t; try discriminate. injection Hstep as <-. simpl. exact Hst.
  - apply andb_true_iff in Hst as [Hv Hstk].
    destruct stk as [|[acc|acc k] stk]; [discriminate| |]; simpl in Hstk;
      apply andb_true_iff in Hstk as [Hf Hstk];
      destruct t; try discriminate; injection Hstep as <-; simpl;
      try (pose proof (props_shaped_define k v acc Hv Hf) as Hd;
           unfold props_shaped in Hd |- *);
      rewrite ?forallb_app, ?forallb_rev; simpl;
      rewrite ?Hv, ?Hf, ?Hstk, ?Hd; reflexivity.
Qed.

Lemma parse_tokens_shaped (ts : list token) (st : parse_state) (v : value) :
  state_shaped st = true -> parse_tokens st ts = Some v -> json_shaped v = true.
Proof.
  revert st. induction ts as [|t ts IH]; intros st Hst; simpl.
  - destruct st as [| | | | |v' [|f stk]]; try discriminate.
    intros Hv. injection Hv as <-. simpl in Hst.
    now apply andb_true_iff in Hst as [Hv _].
  - destruct (parse_step st t) as [st'|] eqn:Hstep; [|discriminate].
    apply IH. eapply parse_step_shaped; eauto.
Qed.

(** Every value JSON.parse returns is shaped. *)
Lemma json_value_shaped (text : jsstring) (v : value) :
  json_value text = Some v -> json_shaped v = true.
Proof.
  unfold json_value. destruct (lex LStart text) as [ts|]; [|discriminate].
  now apply parse_tokens_shaped.
Qed.

(** ** The backend call *)

Lemma load_module_arn (penv : ProcessEnv) (md : Module) :
  load_module penv = Normal md -> AGENT_ARN penv = Some (agentCoreArn md).
Proof.
  unfold load_module. destruct (AGENT_ARN penv) as [[|c arn]|]; try discriminate.
  intros Hmd. injection Hmd as <-. reflexivity.
Qed.

Lemma lookup_prop_shaped (k : jsstring) (props : list (jsstring * value)) :
  forallb (fun kv => json_shaped (snd kv)) props = true ->
  has_key k props = true ->
  json_shaped (lookup_prop k props) = true.
Proof.
  induction props as [|[k' v'] props IH]; simpl; [discriminate|].
  intros Hs Hk. apply andb_true_iff in Hs as [Hv Hs].
  destruct (jsstring_eqb k k'); [exact Hv | now apply IH].
Qed.

(** The payload text for a prompt without numbers is JSON whose one field
    is that prompt. *)
Lemma json_value_prompt {rt : Runtime} (p : value) :
  json_shaped p = true -> number_free p = true ->
  json_value (JSON_stringify (VObj [(js "prompt", p)]))
  = Some (VObj [(js "prompt", p)]).
Proof.
  intros Hs Hf.
  destruct (json_value_stringify (VObj [(js "prompt", p)])) as (text & Hstr & Hval).
  - simpl. now rewrite Hs.
  - simpl. now rewrite Hf.
  - unfold JSON_stringify. now rewrite Hstr.
Qed.

(** C6, as amended: a body that is the JSON text of an object with a
    prompt field [p] leads to exactly one backend call, whatever happens
    afterwards.  Its
    command carries the ARN the module was loaded with, the session
    identifier assigned to the request, the qualifier DEFAULT, and as
    payload the UTF-8 bytes of JSON.stringify({prompt: p}).  When [p] holds
    no number, in particular when it is a string, that text is JSON whose
    prompt field is [p]. *)
Theorem backend_invoked_once {rt : Runtime} (env : Env) (md : Module)
    (event : APIGatewayProxyEvent) (b : jsstring)
    (props : list (jsstring * value)) (w : World) :
  opens env ->
  body event = Some b -> b <> [] ->
  json_value (body_text event b) = Some (VObj props) ->
  has_key (js "prompt") props = true ->
  exists cmd,
    sent_commands (trace (snd (handler env md event w)))
      = sent_commands (trace w) ++ [cmd]
    /\ agentRuntimeArn cmd = agentCoreArn md
    /\ (forall penv, load_module penv = Normal md ->
        AGENT_ARN penv = Some (agentRuntimeArn cmd))
    /\ runtimeSessionId cmd = assigned_sessionId env (VObj props) (draws w)
    /\ qualifier cmd = js "DEFAULT"
    /\ payload cmd
       = TextEncoder_encode
           (JSON_stringify (VObj [(js "prompt", lookup_prop (js "prompt") props)]))
    /\ (number_free (lookup_prop (js "prompt") props) = true ->
        json_value (JSON_stringify (VObj [(js "prompt", lookup_prop (js "prompt") props)]))
        = Some (VObj [(js "prompt", lookup_prop (js "prompt") props)]))
    /\ (forall s, lookup_prop (js "prompt") props = VStr s ->
        json_value (JSON_stringify (VObj [(js "prompt", lookup_prop (js "prompt") props)]))
        = Some (VObj [(js "prompt", VStr s)])).
Proof.
  intros Hopen Hb Hne Hjson Hkey.
  assert (Hsel : select_params event = Normal (VObj props)).
  { rewrite (select_params_body event b Hb Hne). unfold JSON_parse.
    now rewrite Hjson. }
  assert (Hp : json_shaped (lookup_prop (js "prompt") props) = true).
  { apply json_value_shaped in Hjson. simpl in Hjson.
    apply andb_true_iff in Hjson as [_ Hvals].
    now apply lookup_prop_shaped. }
  destruct (handler_sends_once env md event (VObj props) w Hopen Hsel eq_refl)
    as [Hsent _].
  eexists. split; [exact Hsent|]. cbn [agentRuntimeArn runtimeSessionId qualifier
                                        payload invoke_command].
  split; [reflexivity|].
  split; [intros penv Hmd; exact (load_module_arn penv md Hmd)|].
  split; [apply (own_with_prop (VObj props)); reflexivity|].
  split; [reflexivity|].
  rewrite (own_with_prop_other (VObj props)) by discriminate.
  split; [reflexivity|]. cbn [own].
  split; [intros Hfree; now apply json_value_prompt|].
  intros s Hs. rewrite Hs. now apply json_value_prompt.
Qed.

(** The body {"prompt":"hi","sessionId":"abc"}. *)
Lemma backend_invoked_once_witness :
  sent_commands (trace (snd
    (handler (rt := reference_runtime) (quiet_env (stream_of [] EndOfStream))
       example_module
       (post (js "{" ++ dq "prompt" ++ js ":" ++ dq "hi" ++ js ","
                ++ dq "sessionId" ++ js ":" ++ dq "abc" ++ js "}"))
       initial_world)))
  = [{| agentRuntimeArn := agentCoreArn example_module;
        runtimeSessionId := VStr (js "abc");
        payload := js "{" ++ dq "prompt" ++ js ":" ++ dq "hi" ++ js "}";
        qualifier := js "DEFAULT" |}].
Proof.
  destruct (backend_invoked_once (rt := reference_runtime)
              (quiet_env (stream_of [] EndOfStream)) example_module
              (post (js "{" ++ dq "prompt" ++ js ":" ++ dq "hi" ++ js ","
                       ++ dq "sessionId" ++ js ":" ++ dq "abc" ++ js "}"))
              (js "{" ++ dq "prompt" ++ js ":" ++ dq "hi" ++ js ","
                 ++ dq "sessionId" ++ js ":" ++ dq "abc" ++ js "}")
              [(js "prompt", VStr (js "hi")); (js "sessionId", VStr (js "abc"))]
              initial_world)
    as (cmd & Hsent & Harn & _ & Hsid & Hq & Hpayload & _ & _).
  - intros tr. reflexivity.
  - reflexivity.
  - discriminate.
  - vm_compute. reflexivity.
  - reflexivity.
  - rewrite Hsent. destruct cmd as [arn sid pl q]. simpl in *.
    subst arn sid pl q. vm_compute. reflexivity.
Defined.

(** ** The error frames *)

(** The fixed frame is one record whose payload is JSON with an error key. *)
Example internal_error_frame_json :
  split_records [] internal_error_frame
    = [js "data: {" ++ dq "error" ++ js ": " ++ dq "Internal server error" ++ js "}"]
  /\ (sse_payload internal_error_frame ≫= json_value)
     = Some (VObj [(js "error", VStr (js "Internal server error"))]).
Proof. split; vm_compute; reflexivity. Qed.

Lemma lex_plain (s acc rest : jsstring) :
  forallb plain_unit s = true ->
  lex (LStr acc) (s ++ c_quote :: rest)
  = match lex LStart rest with
    | Some ts => Some (TString (rev acc ++ s) :: ts)
    | None => None
    end.
Proof.
  revert acc. induction s as [|c s IH]; intros acc Hs.
  - simpl. now rewrite app_nil_r.
  - simpl in Hs. apply andb_true_iff in Hs as [Hc Hs].
    unfold plain_unit in Hc. apply andb_true_iff in Hc as [Hc E92].
    apply andb_true_iff in Hc as [E32 E34].
    apply negb_true_iff in E32, E34, E92.
    cbn [app]. rewrite (lex_silent (LStr acc) (LStr (c :: acc)))
      by (cbn [lex_step]; now rewrite E34, E92, E32).
    rewrite (IH (c :: acc) Hs). simpl. now rewrite <- app_assoc.
Qed.

(** A message without quotes, backslashes and control characters gives a
    frame whose payload is JSON with that message under the error key. *)
Lemma error_frame_plain_message (message : jsstring) :
  forallb plain_unit message = true ->
  (sse_payload (error_frame message) ≫= json_value)
  = Some (VObj [(js "error", VStr message)]).
Proof.
  intros Hm.
  assert (Hpayload : sse_payload (error_frame message)
                     = Some ([123; c_quote; 101; 114; 114; 111; 114; c_quote; 58; 32;
                              c_quote] ++ message ++ [c_quote; 125])).
  { unfold sse_payload, error_frame.
    change (js "data: {") with ([100; 97; 116; 97; 58; 32] ++ [123]).
    change (js "data: ") with [100; 97; 116; 97; 58; 32].
    rewrite <- !app_assoc. cbn [app strip_prefix N.eqb Pos.eqb].
    assert (Hrev : rev (123 :: c_quote :: js "error" ++ c_quote :: js ": "
                          ++ c_quote :: message ++ c_quote :: js "}" ++ [c_lf; c_lf])
                   = [c_lf; c_lf]
                       ++ rev (123 :: c_quote :: js "error" ++ c_quote :: js ": "
                                 ++ c_quote :: message ++ c_quote :: js "}")).
    { change (123 :: c_quote :: js "error" ++ c_quote :: js ": "
                ++ c_quote :: message ++ c_quote :: js "}" ++ [c_lf; c_lf])
        with (([123; c_quote] ++ js "error" ++ [c_quote] ++ js ": " ++ [c_quote])
                ++ message ++ ([c_quote] ++ js "}") ++ [c_lf; c_lf]).
      rewrite !app_assoc, rev_app_distr. simpl rev at 1.
      rewrite <- !app_assoc. reflexivity. }
    rewrite Hrev. cbn [app strip_prefix N.eqb Pos.eqb c_lf].
    rewrite rev_involutive. reflexivity. }
  rewrite Hpayload. cbn [mbind option_bind]. unfold json_value. simpl.
  rewrite (lex_plain message [] [125] Hm). reflexivity.
Qed.

(** C6, as stated, fails for a prompt that holds a number.  In the body
    {"prompt":1e400,"sessionId":"abc"} the prompt is a number that JSON.parse
    reads as Infinity and JSON.stringify writes as null: the payload sent is
    {"prompt":null}, whose prompt field is null and not the number of the
    body. *)
Lemma numeric_prompt_not_preserved :
  json_value (js "{" ++ dq "prompt" ++ js ":1e400," ++ dq "sessionId" ++ js ":"
                ++ dq "abc" ++ js "}")
  = Some (VObj [(js "prompt", VNum (js "1e400")); (js "sessionId", VStr (js "abc"))])
  /\ sent_commands (trace (snd
       (handler (rt := reference_runtime) (quiet_env (stream_of [] EndOfStream))
          example_module
          (post (js "{" ++ dq "prompt" ++ js ":1e400," ++ dq "sessionId" ++ js ":"
                   ++ dq "abc" ++ js "}"))
          initial_world)))
     = [{| agentRuntimeArn := agentCoreArn example_module;
           runtimeSessionId := VStr (js "abc");
           payload := js "{" ++ dq "prompt" ++ js ":null}";
           qualifier := js "DEFAULT" |}]
  /\ json_value (js "{" ++ dq "prompt" ++ js ":null}")
     = Some (VObj [(js "prompt", VNull)]).
Proof. split; [|split]; vm_compute; reflexivity. Qed.

(** C3, what the code does: the message of the error is pasted between
    the quotes of the frame as it is.  When the backend call is rejected
    with an Error whose message is [bad "x"], the handler writes, after the
    fixed frame, a frame whose payload is not JSON; and a message that holds
    a blank line gives a frame that a consumer reads as two records. *)
Theorem error_frame_not_escaped :
  written (channel_calls (trace (snd
    (handler (rt := reference_runtime)
       (quiet_env (fun _ => SendRejects (ErrorObj (js "Error") (js "bad " ++ dq "x"))))
       example_module bare_request initial_world))))
  = [Text internal_error_frame; Text (error_frame (js "bad " ++ dq "x"))]
  /\ sse_payload (error_frame (js "bad " ++ dq "x"))
     = Some (js "{" ++ dq "error" ++ js ": " ++ [c_quote] ++ js "bad " ++ dq "x"
               ++ [c_quote] ++ js "}")
  /\ (sse_payload (error_frame (js "bad " ++ dq "x")) ≫= json_value) = None
  /\ split_records [] (error_frame (js "line 1" ++ [c_lf; c_lf] ++ js "line 2"))
     = [js "data: {" ++ dq "error" ++ js ": " ++ [c_quote] ++ js "line 1";
        js "line 2" ++ [c_quote] ++ js "}"].
Proof. repeat split; vm_compute; reflexivity. Qed.

(** * More of the handler *)

(** ** Every run of the transfer, of the report and of the handler *)

Lemma relay_run {rt : Runtime} (env : Env) (cs : list bytes) (fin : StreamEnd)
    (w : World) :
  exists k tail out,
    relay env cs fin w
      = (out, {| trace := trace w ++ relayed (firstn k cs) ++ tail; draws := draws w |})
    /\ relay_shape env (trace w) cs fin k tail out.
Proof.
  revert w. induction cs as [|c cs IH]; intros w.
  - exists 0%nat. destruct fin as [|e]; simpl; eff.
    + destruct (chan_fault env (trace w) OpEnd) as [e|] eqn:Hend; simpl.
      * exists [EChan OpEnd (Some e); EChan OpDestroy None], (Abrupt e).
        split; [now rewrite <- app_assoc|]. right. exists e. split; [reflexivity|].
        right. left. simpl. rewrite app_nil_r. auto.
      * exists [EChan OpEnd None], (Normal ()). split; [reflexivity|]. left. auto.
    + exists [EChan OpDestroy None], (Abrupt e). split; [reflexivity|].
      right. exists e. split; [reflexivity|]. left. auto.
  - simpl. eff.
    destruct (chan_fault env (trace w) (OpWrite (Bytes c))) as [e|] eqn:Hw; simpl.
    + exists 0%nat, [EChan (OpWrite (Bytes c)) (Some e); EChan OpDestroy None], (Abrupt e).
      split; [now rewrite <- app_assoc|]. right. exists e. split; [reflexivity|].
      right. right. exists c. simpl. rewrite app_nil_r. auto.
    + destruct (IH (emit (EChan (OpWrite (Bytes c)) None) w))
        as (k & tail & out & Hrun & Hshape).
      unfold emit in Hrun. rewrite Hrun. simpl.
      exists (S k), tail, out. split; [now rewrite <- app_assoc|].
      destruct Hshape as [(Ho & Hk & Hf & Ht)|(e & Ho & Hcase)].
      * left. subst. auto.
      * right. exists e. split; [exact Ho|].
        destruct Hcase as [(Hk & Hf & Ht)|[(Hk & Hf & Hq & Ht)|(c' & Hc & Hq & Ht)]].
        -- left. subst. auto.
        -- right. left. simpl in Hq. rewrite <- app_assoc in Hq. subst. auto.
        -- right. right. exists c'. simpl in Hq. rewrite <- app_assoc in Hq. auto.
Qed.

Ltac report_case f1 rest :=
  match goal with
  | |- context [report_shape ?env ?before ?error _ _] =>
      exists ((log_failed :: EChan (OpWrite (Text internal_error_frame)) f1 :: rest)
              ++ [EChan OpEnd
                    (chan_fault env
                       (before ++ log_failed
                          :: EChan (OpWrite (Text internal_error_frame)) f1 :: rest)
                       OpEnd)]),
        (match chan_fault env
                 (before ++ log_failed
                    :: EChan (OpWrite (Text internal_error_frame)) f1 :: rest)
                 OpEnd with
         | None => Normal ()
         | Some e => Abrupt e
         end);
      split;
      [ rewrite <- ?app_assoc; simpl;
        destruct (chan_fault env _ OpEnd); simpl; rewrite <- ?app_assoc; reflexivity
      | exists f1, rest; simpl; auto 10 ]
  end.

Lemma report_failure_run {rt : Runtime} (env : Env) (error : Thrown) (w : World) :
  exists rep out,
    report_failure env error w
      = (out, {| trace := trace w ++ rep; draws := draws w |})
    /\ report_shape env (trace w) error rep out.
Proof.
  unfold report_failure. eff.
  destruct (chan_fault env (trace w ++ [EConsole ErrorLevel (js "Request processing failed:")])
              (OpWrite (Text internal_error_frame))) as [e1|] eqn:H1; simpl.
  - report_case (Some e1) [log_write_failed].
  - destruct (instanceof_Error error) eqn:Hinst; simpl.
    + destruct (chan_fault env _ (OpWrite (Text (error_frame _)))) as [e2|] eqn:H2; simpl.
      * report_case (@None Thrown)
          [EChan (OpWrite (Text (error_frame (error_message error)))) (Some e2);
           log_write_failed].
      * report_case (@None Thrown)
          [EChan (OpWrite (Text (error_frame (error_message error)))) None].
    + report_case (@None Thrown) (@nil Effect).
Qed.

(** The normaliser writes nothing, reads the random source at most once,
    and what it returns is an object. *)
Lemma parse_run {rt : Runtime} (env : Env) (event : APIGatewayProxyEvent) (w : World) :
  exists out d,
    parseClientRequest env event w = (out, {| trace := trace w; draws := d |})
    /\ (d = draws w \/ d = S (draws w))
    /\ (forall r, out = Normal r -> is_object r = true).
Proof.
  unfold parseClientRequest. eff.
  destruct (select_params event) as [params|e]; simpl.
  - destruct (is_object params) eqn:Hobj.
    + rewrite (assign_sessionId_object env params w Hobj).
      eexists _, _. split; [reflexivity|]. split.
      * unfold draws_after. destruct (ToBoolean _); auto.
      * intros r [= <-]. now apply with_prop_object.
    + destruct params; try discriminate Hobj; unfold assign_sessionId; eff;
        unfold randomUUID; simpl;
        (eexists _, _; split; [reflexivity|]; split; [auto|intros r [=]]).
  - eexists _, _. split; [reflexivity|]. split; [auto|intros r [=]].
Qed.

Arguments report_failure : simpl never.
Arguments relay : simpl never.
Arguments parseClientRequest : simpl never.

(** Every run of the handler has one of six shapes. *)
Lemma handler_run {rt : Runtime} (env : Env) (md : Module)
    (event : APIGatewayProxyEvent) (w : World) :
  exists ext out d,
    handler env md event w = (out, {| trace := trace w ++ ext; draws := d |})
    /\ (d = draws w \/ d = S (draws w))
    /\ handler_shape env md event w ext out.
Proof.
  unfold handler, process_request. eff.
  destruct (parse_run env event (emit log_incoming w)) as (po & d & Hp & Hd & Hobj).
  unfold emit, log_incoming in Hp. rewrite Hp. simpl in Hd.
  destruct po as [r|e].
  - specialize (Hobj r eq_refl). simpl.
    destruct (chan_fault env _ (OpFrom responseMetadata)) as [e|] eqn:Hfrom; simpl.
    + destruct (report_failure_run env e
                  {| trace := ((trace w ++ [log_incoming]) ++ [log_parsed])
                                ++ [EChan (OpFrom responseMetadata) (Some e)];
                     draws := d |}) as (rep & out & Hrep & Hshape).
      unfold log_incoming, log_parsed in Hrep. rewrite Hrep. simpl.
      exists ([log_incoming; log_parsed; EChan (OpFrom responseMetadata) (Some e)] ++ rep),
        out, d.
      split; [now rewrite <- !app_assoc|]. split; [exact Hd|].
      eapply MetadataRaised; [exact Hp| |].
      * rewrite <- app_assoc in Hfrom. exact Hfrom.
      * simpl in Hshape. rewrite <- !app_assoc in Hshape. exact Hshape.
    + rewrite !get_prop_object by exact Hobj. simpl.
      unfold bedrockClient_send. simpl.
      fold (invoke_command md r). unfold emit.
      destruct (backend env (invoke_command md r)) as [e|[src|]] eqn:Hsend; simpl.
      * destruct (report_failure_run env e
                    {| trace := ((((trace w ++ [log_incoming]) ++ [log_parsed])
                                    ++ [EChan (OpFrom responseMetadata) None])
                                   ++ [log_calling]) ++ [ESend (invoke_command md r)];
                       draws := d |}) as (rep & out & Hrep & Hshape).
        unfold log_incoming, log_parsed, log_calling in Hrep. rewrite Hrep. simpl.
        exists ([log_incoming; log_parsed; EChan (OpFrom responseMetadata) None;
                 log_calling; ESend (invoke_command md r)] ++ rep), out, d.
        split; [now rewrite <- !app_assoc|]. split; [exact Hd|].
        eapply BackendRejected; [exact Hp|exact Hsend|].
        simpl in Hshape. rewrite <- !app_assoc in Hshape. exact Hshape.
      * unfold asyncPipeline.
        destruct (relay_run env (chunks src) (ending src)
                    {| trace := (((((trace w ++ [log_incoming]) ++ [log_parsed])
                                     ++ [EChan (OpFrom responseMetadata) None])
                                    ++ [log_calling]) ++ [ESend (invoke_command md r)])
                                  ++ [log_received];
                       draws := d |}) as (k & tail & ro & Hrel & Hrs).
        unfold log_incoming, log_parsed, log_calling, log_received in Hrel.
        rewrite Hrel. simpl.
        simpl in Hrs. rewrite <- !app_assoc in Hrs. simpl in Hrs.
        destruct ro as [[]|e]; simpl.
        -- exists ([log_incoming; log_parsed; EChan (OpFrom responseMetadata) None;
                    log_calling; ESend (invoke_command md r); log_received]
                     ++ relayed (firstn k (chunks src)) ++ tail ++ [log_completed]),
             (Normal ()), d.
           split; [now rewrite <- !app_assoc|]. split; [exact Hd|].
           eapply Relayed; [exact Hp|exact Hsend|exact Hrs].
        -- destruct (report_failure_run env e
                       {| trace := ((((((trace w ++ [log_incoming]) ++ [log_parsed])
                                         ++ [EChan (OpFrom responseMetadata) None])
                                        ++ [log_calling])
                                       ++ [ESend (invoke_command md r)])
                                      ++ [log_received])
                                     ++ relayed (firstn k (chunks src)) ++ tail;
                          draws := d |}) as (rep & out & Hrep & Hshape).
           unfold log_incoming, log_parsed, log_calling, log_received in Hrep.
           rewrite Hrep. simpl.
           exists ([log_incoming; log_parsed; EChan (OpFrom responseMetadata) None;
                    log_calling; ESend (invoke_command md r); log_received]
                     ++ relayed (firstn k (chunks src)) ++ tail ++ rep), out, d.
           split; [now rewrite <- !app_assoc|]. split; [exact Hd|].
           eapply RelayFailed; [exact Hp|exact Hsend|exact Hrs|].
           simpl in Hshape. rewrite <- !app_assoc in Hshape. exact Hshape.
      * unfold asyncPipeline. simpl.
        destruct (report_failure_run env (TypeError PipelineSource)
                    {| trace := (((((trace w ++ [log_incoming]) ++ [log_parsed])
                                     ++ [EChan (OpFrom responseMetadata) None])
                                    ++ [log_calling]) ++ [ESend (invoke_command md r)])
                                  ++ [log_received];
                       draws := d |}) as (rep & out & Hrep & Hshape).
        unfold log_incoming, log_parsed, log_calling, log_received in Hrep.
        rewrite Hrep. simpl.
        exists ([log_incoming; log_parsed; EChan (OpFrom responseMetadata) None;
                 log_calling; ESend (invoke_command md r); log_received] ++ rep), out, d.
        split; [now rewrite <- !app_assoc|]. split; [exact Hd|].
        eapply BodyMissing; [exact Hp|exact Hsend|].
        simpl in Hshape. rewrite <- !app_assoc in Hshape. exact Hshape.
  - simpl.
    destruct (report_failure_run env e {| trace := trace w ++ [log_incoming]; draws := d |})
      as (rep & out & Hrep & Hshape).
    unfold log_incoming in Hrep. rewrite Hrep. simpl.
    exists (log_incoming :: rep), out, d.
    split; [now rewrite <- !app_assoc|]. split; [exact Hd|].
    eapply NormaliserRaised; [exact Hp|exact Hshape].
Qed.

(** ** Reading the runs *)

Lemma bytes_written_app (a b : list Effect) :
  bytes_written (a ++ b) = bytes_written a ++ bytes_written b.
Proof.
  induction a as [|e a IH]; simpl; [reflexivity|].
  destruct e as [l s|[m|[s|c]| |] [f|]|cmd]; simpl; rewrite ?IH; reflexivity.
Qed.

Lemma text_attempts_app (a b : list Effect) :
  text_attempts (a ++ b) = text_attempts a ++ text_attempts b.
Proof.
  induction a as [|e a IH]; simpl; [reflexivity|].
  destruct e as [l s|[m|[s|c]| |] [f|]|cmd]; simpl; rewrite ?IH; reflexivity.
Qed.

Lemma bytes_written_relayed (cs : list bytes) : bytes_written (relayed cs) = cs.
Proof. induction cs as [|c cs IH]; simpl; [reflexivity | now rewrite IH]. Qed.

Lemma text_attempts_relayed (cs : list bytes) : text_attempts (relayed cs) = [].
Proof. induction cs as [|c cs IH]; simpl; [reflexivity | exact IH]. Qed.

Lemma forallb_relayed (p : Effect -> bool) (cs : list bytes) :
  (forall c, p (EChan (OpWrite (Bytes c)) None) = true) ->
  forallb p (relayed cs) = true.
Proof.
  intros Hp. induction cs as [|c cs IH]; simpl; [reflexivity|].
  now rewrite Hp, IH.
Qed.

Lemma forallb_report_steps (p : Effect -> bool) (l : list Effect) :
  (forall e, is_report_step e = true -> p e = true) ->
  forallb is_report_step l = true -> forallb p l = true.
Proof.
  intros Hp. induction l as [|e l IH]; simpl; [reflexivity|].
  intros [He Hl]%andb_prop. now rewrite (Hp e He), (IH Hl).
Qed.

Lemma bytes_written_report_steps (l : list Effect) :
  forallb is_report_step l = true -> bytes_written l = [].
Proof.
  induction l as [|e l IH]; simpl; [reflexivity|].
  intros [He Hl]%andb_prop.
  destruct e as [[] s|[m|[s|c]| |] [f|]|cmd]; simpl in *;
    try discriminate; now apply IH.
Qed.

Lemma channel_calls_report_steps (l : list Effect) :
  forallb is_report_step l = true ->
  channel_calls l = map (fun s => OpWrite (Text s)) (text_attempts l).
Proof.
  induction l as [|e l IH]; simpl; [reflexivity|].
  intros [He Hl]%andb_prop.
  destruct e as [[] s|[m|[s|c]| |] [f|]|cmd]; simpl in *;
    try discriminate; rewrite ?(IH Hl); reflexivity.
Qed.

Lemma closed_quietly_app (a b : list Effect) :
  forallb (fun e => negb (ends_stream e)) a = true ->
  closed_quietly (a ++ b) = closed_quietly b.
Proof.
  induction a as [|e a IH]; simpl; [reflexivity|].
  intros [He Hl]%andb_prop.
  destruct e as [l s|[m|[s|c]| |] [f|]|cmd]; simpl in *;
    try discriminate; now apply IH.
Qed.

Lemma metadata_first_app (o : bool) (a b : list Effect) :
  forallb metadata_neutral a = true ->
  metadata_first o (a ++ b) = metadata_first o b.
Proof.
  induction a as [|e a IH]; simpl; [reflexivity|].
  intros [He Hl]%andb_prop.
  destruct e as [l s|[m|[s|c]| |] [f|]|cmd]; simpl in *;
    try discriminate; now apply IH.
Qed.

Lemma metadata_first_relayed (cs : list bytes) (b : list Effect) :
  metadata_first true (relayed cs ++ b) = metadata_first true b.
Proof. induction cs as [|c cs IH]; simpl; [reflexivity | exact IH]. Qed.

Lemma last_channel_call_end (pre : list Effect) (f : option Thrown) :
  last (channel_calls (pre ++ [EChan OpEnd f])) = Some OpEnd.
Proof. rewrite channel_calls_app. simpl. apply last_snoc. Qed.

Lemma last_channel_op_end (pre : list Effect) :
  last (channel_ops (pre ++ [EChan OpEnd None])) = Some OpEnd.
Proof. rewrite channel_ops_app. simpl. apply last_snoc. Qed.

(** The report as a list of report steps and the end of the stream. *)
Lemma report_shape_steps (env : Env) (before : list Effect) (error : Thrown)
    (rep : list Effect) (out : Completion unit) :
  report_shape env before error rep out ->
  exists steps f,
    rep = steps ++ [EChan OpEnd f]
    /\ forallb is_report_step steps = true
    /\ (text_attempts steps = [internal_error_frame]
        \/ (instanceof_Error error = true
            /\ text_attempts steps
               = [internal_error_frame; error_frame (error_message error)]))
    /\ out = match f with None => Normal () | Some e => Abrupt e end.
Proof.
  intros (f1 & rest & Hrep & Hrest & Htext & Hout). cbv zeta in Hrep, Hout.
  eexists _, _. split; [exact Hrep|]. split; [simpl; exact Hrest|].
  split; [|exact Hout].
  simpl. destruct Htext as [->|(_ & Hinst & ->)]; auto.
Qed.

Ltac handler_cases env md event w :=
  let ext := fresh "ext" in
  let out := fresh "out" in
  let d := fresh "d" in
  let Hrun := fresh "Hrun" in
  let Hd := fresh "Hd" in
  let Hshape := fresh "Hshape" in
  destruct (handler_run env md event w) as (ext & out & d & Hrun & Hd & Hshape);
  exists ext; rewrite Hrun; split; [reflexivity|]; simpl fst;
  destruct Hshape as [e w' rep out Hp Hrep
                     | r w' e rep out Hp Hfrom Hrep
                     | r w' e rep out Hp Hsend Hrep
                     | r w' rep out Hp Hsend Hrep
                     | r w' src k tail Hp Hsend Hrel
                     | r w' src k tail e rep out Hp Hsend Hrel Hrep];
  try (destruct (report_shape_steps _ _ _ _ _ Hrep)
         as (steps & f & -> & Hsteps & Htext & Hout));
  try (destruct Hrel
         as [(Ho & Hk & Hfin & ->)
            |(e' & Ho & [(Hk & Hfin & ->)
                        |[(Hk & Hfin & Hraise & ->)|(c & Hc & Hraise & ->)]])];
       try discriminate Ho);
  unfold log_incoming, log_parsed, log_calling, log_received, log_completed.

Ltac read_run Hsteps :=
  simpl;
  repeat (progress (rewrite ?sent_commands_app, ?bytes_written_app, ?text_attempts_app,
                      ?channel_calls_app, ?channel_ops_app,
                      ?sent_commands_relayed, ?bytes_written_relayed,
                      ?text_attempts_relayed, ?channel_calls_relayed,
                      ?channel_ops_relayed,
                      ?(sent_commands_report_steps _ Hsteps),
                      ?(bytes_written_report_steps _ Hsteps),
                      ?(channel_calls_report_steps _ Hsteps);
                    simpl)).

(** ** What every run of the handler does *)

(** X1: whatever the event, the backend and the response stream do, the
    handler calls the backend at most once, and the one command it sends is
    built from the record the normaliser returned.  Nothing is retried, and
    a request the normaliser rejects is never forwarded. *)
Theorem backend_called_at_most_once {rt : Runtime} (env : Env) (md : Module)
    (event : APIGatewayProxyEvent) (w : World) :
  exists ext,
    trace (snd (handler env md event w)) = trace w ++ ext
    /\ (sent_commands ext = []
        \/ exists r w',
             parseClientRequest env event (emit log_incoming w) = (Normal r, w')
             /\ sent_commands ext = [invoke_command md r]).
Proof.
  handler_cases env md event w.
  1, 2: left; read_run Hsteps; reflexivity.
  1, 2, 4, 5, 6: right; exists r, w'; (split; [exact Hp|]); read_run Hsteps; reflexivity.
  right. exists r, w'. split; [exact Hp|]. simpl.
  rewrite sent_commands_app, sent_commands_relayed. reflexivity.
Qed.

Ltac snoc_form := rewrite ?app_comm_cons; rewrite ?app_assoc.

(** X2: on a response stream where the calls of stream.pipeline (the
    writes of byte chunks and the end of the stream) do not raise, a run of
    the handler that completes has ended the stream.  Whatever the event and
    the backend do, and whatever the metadata call and the writes of text
    frames raise, the last call made on the stream is an end of stream, it
    succeeds, and the handler completes normally. *)
Theorem completed_run_ended_the_stream {rt : Runtime} (env : Env) (md : Module)
    (event : APIGatewayProxyEvent) (w after : World) (result : Completion unit) :
  pipeline_quiet env ->
  handler env md event w = (result, after) ->
  exists ext,
    trace after = trace w ++ ext
    /\ last (channel_calls ext) = Some OpEnd
    /\ last (channel_ops ext) = Some OpEnd
    /\ result = Normal ().
Proof.
  intros [Hwrite Hend] Hcompleted.
  assert (Hall : exists ext,
            trace (snd (handler env md event w)) = trace w ++ ext
            /\ last (channel_calls ext) = Some OpEnd
            /\ last (channel_ops ext) = Some OpEnd
            /\ fst (handler env md event w) = Normal ()).
  { clear Hcompleted. handler_cases env md event w.
    all: try (rewrite Hend in Hraise; discriminate Hraise).
    all: try (rewrite Hwrite in Hraise; discriminate Hraise).
    all: try (destruct Hrep as (f1 & rest & Hsame & _ & _ & _); cbv zeta in Hsame;
              apply app_inj_tail in Hsame as [_ [= Hf]];
              rewrite Hend in Hf; subst f; subst out).
    5: { split; [|split; [|reflexivity]]; snoc_form.
         - rewrite (channel_calls_app _ [_]).
           change (channel_calls [EConsole LogLevel _]) with (@nil ChanOp).
           rewrite app_nil_r. apply last_channel_call_end.
         - rewrite (channel_ops_app _ [_]).
           change (channel_ops [EConsole LogLevel _]) with (@nil ChanOp).
           rewrite app_nil_r. apply last_channel_op_end. }
    all: split; [|split; [|reflexivity]]; snoc_form;
      [ apply last_channel_call_end | apply last_channel_op_end ]. }
  rewrite Hcompleted in Hall. exact Hall.
Qed.

(** An event without body on a stream that refuses text frames, with a
    backend that rejects the call. *)
Lemma completed_run_ended_the_stream_witness :
  exists ext,
    trace (snd (handler (rt := reference_runtime)
                  (text_broken_env (fun _ => SendRejects (NonError VNull)))
                  example_module bare_request initial_world)) = ext
    /\ last (channel_calls ext) = Some OpEnd
    /\ fst (handler (rt := reference_runtime)
              (text_broken_env (fun _ => SendRejects (NonError VNull)))
              example_module bare_request initial_world) = Normal ().
Proof.
  destruct (completed_run_ended_the_stream (rt := reference_runtime)
              (text_broken_env (fun _ => SendRejects (NonError VNull)))
              example_module bare_request initial_world
              (snd (handler (rt := reference_runtime)
                      (text_broken_env (fun _ => SendRejects (NonError VNull)))
                      example_module bare_request initial_world))
              (fst (handler (rt := reference_runtime)
                      (text_broken_env (fun _ => SendRejects (NonError VNull)))
                      example_module bare_request initial_world)))
    as (ext & Htrace & Hlast & _ & Hout).
  - split; [intros tr c | intros tr]; reflexivity.
  - vm_compute. reflexivity.
  - exists ext. split; [exact Htrace|]. split; [exact Hlast | exact Hout].
Defined.

Lemma report_step_no_end (e : Effect) :
  is_report_step e = true -> negb (ends_stream e) = true.
Proof. destruct e as [[] s|[m|[s|c]| |] [f|]|cmd]; simpl; auto; discriminate. Qed.

Lemma report_step_neutral (e : Effect) :
  is_report_step e = true -> metadata_neutral e = true.
Proof. destruct e as [[] s|[m|[s|c]| |] [f|]|cmd]; simpl; auto; discriminate. Qed.

Lemma relayed_no_end (cs : list bytes) :
  forallb (fun e => negb (ends_stream e)) (relayed cs) = true.
Proof. apply forallb_relayed. reflexivity. Qed.

(** X3: once an end of the response stream has succeeded, the handler does
    nothing more to the stream: no write, no second end, no destroy. *)
Theorem nothing_after_successful_end {rt : Runtime} (env : Env) (md : Module)
    (event : APIGatewayProxyEvent) (w : World) :
  exists ext,
    trace (snd (handler env md event w)) = trace w ++ ext
    /\ closed_quietly ext = true.
Proof.
  handler_cases env md event w.
  all: repeat (progress (simpl;
                         rewrite ?closed_quietly_app
                           by first [ apply relayed_no_end
                                    | exact (forallb_report_steps _ _
                                               report_step_no_end Hsteps)
                                    | reflexivity ]));
    try reflexivity; destruct f; reflexivity.
Qed.

(** X4: the handler gives the response stream its metadata at most once,
    and it calls the backend and writes byte chunks only after the stream has
    taken the metadata.  What it writes without it are the text frames of a
    failure report. *)
Theorem metadata_before_backend_and_bytes {rt : Runtime} (env : Env) (md : Module)
    (event : APIGatewayProxyEvent) (w : World) :
  exists ext,
    trace (snd (handler env md event w)) = trace w ++ ext
    /\ metadata_first false ext = true.
Proof.
  handler_cases env md event w.
  all: simpl; rewrite ?metadata_first_relayed; simpl;
    rewrite ?metadata_first_relayed;
    try (rewrite metadata_first_app
           by exact (forallb_report_steps _ _ report_step_neutral Hsteps));
    reflexivity.
Qed.

(** X5: the byte chunks that reach the response stream are an initial
    segment of the chunks of the response to the one command sent, in their
    order; when no command was sent, or the backend rejected it or gave no
    body, no byte chunk is written at all. *)
Theorem relayed_bytes_are_a_prefix {rt : Runtime} (env : Env) (md : Module)
    (event : APIGatewayProxyEvent) (w : World) :
  exists ext,
    trace (snd (handler env md event w)) = trace w ++ ext
    /\ match sent_commands ext with
       | [] => bytes_written ext = []
       | cmd :: _ =>
           match backend env cmd with
           | SendResolves (Some src) =>
               exists k, bytes_written ext = firstn k (chunks src)
           | _ => bytes_written ext = []
           end
       end.
Proof.
  handler_cases env md event w.
  1, 2, 3, 4: read_run Hsteps; rewrite ?Hsend; reflexivity.
  - simpl. rewrite Hsend. exists k.
    rewrite bytes_written_app, bytes_written_relayed. simpl. now rewrite app_nil_r.
  - read_run Hsteps. rewrite Hsend. exists k. now rewrite app_nil_r.
  - read_run Hsteps. rewrite Hsend. exists k. now rewrite app_nil_r.
  - read_run Hsteps. rewrite Hsend. exists k. now rewrite app_nil_r.
Qed.

(** X6: on a response stream where the calls of stream.pipeline do not
    raise, a run of the handler that completes is either a complete relay or
    a reported failure.  Either the stream took the metadata, every chunk of
    the backend response was written in order and the stream was ended, with
    no text frame; or the write of the "Internal server error" frame was
    attempted, after no byte chunk or after all the chunks of a backend
    response that ended with an error.  A response is not cut short without
    that attempt, and a report attempts at most two frames. *)
Theorem complete_relay_or_report {rt : Runtime} (env : Env) (md : Module)
    (event : APIGatewayProxyEvent) (w after : World) (result : Completion unit) :
  pipeline_quiet env ->
  handler env md event w = (result, after) ->
  exists ext,
    trace after = trace w ++ ext
    /\ ((exists r src,
           sent_commands ext = [invoke_command md r]
           /\ backend env (invoke_command md r) = SendResolves (Some src)
           /\ ending src = EndOfStream
           /\ channel_calls ext
              = OpFrom responseMetadata
                  :: map (fun c => OpWrite (Bytes c)) (chunks src) ++ [OpEnd]
           /\ channel_ops ext = channel_calls ext
           /\ text_attempts ext = []
           /\ result = Normal ())
        \/ (bytes_written ext = []
            \/ exists r src e,
                 backend env (invoke_command md r) = SendResolves (Some src)
                 /\ ending src = StreamError e
                 /\ bytes_written ext = chunks src)
           /\ (text_attempts ext = [internal_error_frame]
               \/ exists m, text_attempts ext = [internal_error_frame; error_frame m])).
Proof.
  intros [Hwrite Hend] Hcompleted.
  assert (Hall : exists ext,
    trace (snd (handler env md event w)) = trace w ++ ext
    /\ ((exists r src,
           sent_commands ext = [invoke_command md r]
           /\ backend env (invoke_command md r) = SendResolves (Some src)
           /\ ending src = EndOfStream
           /\ channel_calls ext
              = OpFrom responseMetadata
                  :: map (fun c => OpWrite (Bytes c)) (chunks src) ++ [OpEnd]
           /\ channel_ops ext = channel_calls ext
           /\ text_attempts ext = []
           /\ fst (handler env md event w) = Normal ())
        \/ (bytes_written ext = []
            \/ exists r src e,
                 backend env (invoke_command md r) = SendResolves (Some src)
                 /\ ending src = StreamError e
                 /\ bytes_written ext = chunks src)
           /\ (text_attempts ext = [internal_error_frame]
               \/ exists m, text_attempts ext = [internal_error_frame; error_frame m]))).
  { clear Hcompleted. handler_cases env md event w.
    all: try (rewrite Hend in Hraise; discriminate Hraise).
    all: try (rewrite Hwrite in Hraise; discriminate Hraise).
    5: { left. exists r, src. rewrite Hk, firstn_all. simpl.
         rewrite sent_commands_app, channel_calls_app, channel_ops_app,
           text_attempts_app, sent_commands_relayed, channel_calls_relayed,
           channel_ops_relayed, text_attempts_relayed.
         simpl. auto 10. }
    5: { right. split.
         - right. exists r, src, e. injection Ho as <-.
           split; [exact Hsend|]. split; [exact Hfin|].
           rewrite Hk, firstn_all. read_run Hsteps. now rewrite app_nil_r.
         - read_run Hsteps.
           destruct Htext as [->|(_ & ->)];
             [left; reflexivity | right; eexists; reflexivity]. }
    all: right; (split; [left; read_run Hsteps; reflexivity|]); read_run Hsteps;
      destruct Htext as [->|(_ & ->)];
      [left; reflexivity | right; eexists; reflexivity]. }
  rewrite Hcompleted in Hall. exact Hall.
Qed.

(** On a stream that refuses text frames, a rejected backend call still
    leads to the attempt to write the fixed frame. *)
Lemma complete_relay_or_report_witness :
  text_attempts (trace (snd
    (handler (rt := reference_runtime)
       (text_broken_env (fun _ => SendRejects (NonError VNull)))
       example_module bare_request initial_world)))
  = [internal_error_frame].
Proof.
  destruct (complete_relay_or_report (rt := reference_runtime)
              (text_broken_env (fun _ => SendRejects (NonError VNull)))
              example_module bare_request initial_world
              (snd (handler (rt := reference_runtime)
                      (text_broken_env (fun _ => SendRejects (NonError VNull)))
                      example_module bare_request initial_world))
              (fst (handler (rt := reference_runtime)
                      (text_broken_env (fun _ => SendRejects (NonError VNull)))
                      example_module bare_request initial_world)))
    as (ext & Htrace & [(r & src & _ & Hback & _)|(_ & [Hone|(m & Htwo)])]).
  - split; [intros tr c | intros tr]; reflexivity.
  - vm_compute. reflexivity.
  - discriminate Hback.
  - rewrite Htrace. exact Hone.
  - change (trace initial_world ++ ext) with ext in Htrace. subst ext.
    vm_compute in Htwo. discriminate Htwo.
Defined.

(** ** Failures of the backend call *)

(** X8: when the backend call is rejected, the stream has already taken the
    success metadata; the handler writes nothing of a response, reports the
    failure with the fixed frame (and the message frame for an Error), ends
    the stream and completes normally.  The command was sent once. *)
Theorem backend_rejection_reported {rt : Runtime} (env : Env) (md : Module)
    (event : APIGatewayProxyEvent) (params : value) (e : Thrown) (w : World) :
  healthy env ->
  select_params event = Normal params ->
  is_object params = true ->
  backend env
    (invoke_command md
       (with_prop params (js "sessionId") (assigned_sessionId env params (draws w))))
    = SendRejects e ->
  exists w',
    handler env md event w = (Normal (), w')
    /\ channel_calls (trace w')
       = channel_calls (trace w) ++ [OpFrom responseMetadata]
           ++ map OpWrite (report_frames e) ++ [OpEnd]
    /\ bytes_written (trace w') = bytes_written (trace w)
    /\ sent_commands (trace w')
       = sent_commands (trace w)
           ++ [invoke_command md
                 (with_prop params (js "sessionId")
                    (assigned_sessionId env params (draws w)))].
Proof.
  intros Hh Hsel Hobj Hback.
  rewrite (handler_accepted env md event params w (healthy_opens env Hh) Hsel Hobj).
  rewrite Hback. rewrite (report_failure_healthy env e _ Hh).
  eexists. split; [reflexivity|]. unfold report_frames.
  destruct (instanceof_Error e); read_trace;
    rewrite ?bytes_written_app; simpl; rewrite ?app_nil_r; auto.
Qed.

Lemma backend_rejection_reported_witness :
  exists w',
    handler (rt := reference_runtime)
      (quiet_env (fun _ => SendRejects (ErrorObj (js "Error") (js "throttled"))))
      example_module bare_request initial_world = (Normal (), w')
    /\ channel_calls (trace w')
       = [OpFrom responseMetadata; OpWrite (Text internal_error_frame);
          OpWrite (Text (error_frame (js "throttled"))); OpEnd].
Proof.
  destruct (backend_rejection_reported (rt := reference_runtime)
              (quiet_env (fun _ => SendRejects (ErrorObj (js "Error") (js "throttled"))))
              example_module bare_request
              (VObj [(js "prompt", VStr default_prompt)])
              (ErrorObj (js "Error") (js "throttled")) initial_world)
    as (w' & Hrun & Hcalls & _).
  - intros tr op. reflexivity.
  - reflexivity.
  - reflexivity.
  - reflexivity.
  - exists w'. split; [exact Hrun | exact Hcalls].
Defined.

(** X9: when the backend answers without a body, the transfer is rejected
    before anything is written or destroyed, and the handler reports the
    TypeError of stream.pipeline: the fixed frame, the frame with the message
    of that error, the end of the stream. *)
Theorem missing_response_body_reported {rt : Runtime} (env : Env) (md : Module)
    (event : APIGatewayProxyEvent) (params : value) (w : World) :
  healthy env ->
  select_params event = Normal params ->
  is_object params = true ->
  backend env
    (invoke_command md
       (with_prop params (js "sessionId") (assigned_sessionId env params (draws w))))
    = SendResolves None ->
  exists w',
    handler env md event w = (Normal (), w')
    /\ channel_calls (trace w')
       = channel_calls (trace w)
           ++ [OpFrom responseMetadata; OpWrite (Text internal_error_frame);
               OpWrite (Text (error_frame (fault_message PipelineSource))); OpEnd]
    /\ bytes_written (trace w') = bytes_written (trace w).
Proof.
  intros Hh Hsel Hobj Hback.
  rewrite (handler_accepted env md event params w (healthy_opens env Hh) Hsel Hobj).
  rewrite Hback. unfold asyncPipeline. eff.
  rewrite (report_failure_healthy env _ _ Hh).
  eexists. split; [reflexivity|]. unfold report_frames.
  read_trace. rewrite ?bytes_written_app. simpl. rewrite ?app_nil_r. auto.
Qed.

Lemma missing_response_body_reported_witness :
  exists w',
    handler (rt := reference_runtime) (quiet_env (fun _ => SendResolves None))
      example_module bare_request initial_world = (Normal (), w')
    /\ channel_calls (trace w')
       = [OpFrom responseMetadata; OpWrite (Text internal_error_frame);
          OpWrite (Text (error_frame
                           (fault_message (Runtime := reference_runtime)
                              PipelineSource)));
          OpEnd].
Proof.
  destruct (missing_response_body_reported (rt := reference_runtime)
              (quiet_env (fun _ => SendResolves None))
              example_module bare_request
              (VObj [(js "prompt", VStr default_prompt)]) initial_world)
    as (w' & Hrun & Hcalls & _).
  - intros tr op. reflexivity.
  - reflexivity.
  - reflexivity.
  - reflexivity.
  - exists w'. split; [exact Hrun | exact Hcalls].
Defined.

(** ** The normaliser *)

Lemma select_params_error {rt : Runtime} (event : APIGatewayProxyEvent) (e : Thrown) :
  select_params event = Abrupt e -> instanceof_Error e = true.
Proof.
  unfold select_params, JSON_parse.
  repeat match goal with
         | |- context [if ?b then _ else _] => destruct b
         | |- context [match json_value ?t with _ => _ end] => destruct (json_value t)
         end; intros [= <-]; reflexivity.
Qed.

(** X10: parseClientRequest does nothing to the outside: it writes no log
    line and touches neither the response stream nor the backend.  It reads
    the random source at most once.  What it returns is an object, and what
    it throws is an instance of Error, so the report of a rejected request
    always carries the message frame. *)
Theorem normaliser_is_silent {rt : Runtime} (env : Env)
    (event : APIGatewayProxyEvent) (w : World) :
  trace (snd (parseClientRequest env event w)) = trace w
  /\ (draws (snd (parseClientRequest env event w)) = draws w
      \/ draws (snd (parseClientRequest env event w)) = S (draws w))
  /\ match fst (parseClientRequest env event w) with
     | Normal r => is_object r = true
     | Abrupt e => instanceof_Error e = true
     end.
Proof.
  unfold parseClientRequest. eff.
  destruct (select_params event) as [params|e] eqn:Hsel; simpl.
  - destruct (is_object params) eqn:Hobj.
    + rewrite (assign_sessionId_object env params w Hobj). simpl.
      split; [reflexivity|]. split.
      * unfold draws_after. destruct (ToBoolean _); auto.
      * now apply with_prop_object.
    + destruct params; try discriminate Hobj; unfold assign_sessionId; eff;
        unfold randomUUID; simpl; auto.
  - split; [reflexivity|]. split; [auto|]. exact (select_params_error event e Hsel).
Qed.

(** X11: a body that is JSON but not an object or an array (null, true, a
    number, a string) is rejected by the session step with a TypeError.  On a
    stream that never raises the handler writes the fixed frame and the frame
    with the message of that error and ends the stream; the stream is not
    given its metadata and the backend is not called. *)
Theorem primitive_body_rejected {rt : Runtime} (env : Env) (md : Module)
    (event : APIGatewayProxyEvent) (params : value) (w : World) :
  healthy env ->
  select_params event = Normal params ->
  is_object params = false ->
  exists f w',
    handler env md event w = (Normal (), w')
    /\ channel_calls (trace w')
       = channel_calls (trace w)
           ++ [OpWrite (Text internal_error_frame);
               OpWrite (Text (error_frame (fault_message f))); OpEnd]
    /\ sent_commands (trace w') = sent_commands (trace w).
Proof.
  intros Hh Hsel Hobj.
  unfold handler, process_request, parseClientRequest. eff. rewrite Hsel. simpl.
  destruct params; try discriminate Hobj; unfold assign_sessionId; eff;
    unfold randomUUID; simpl;
    rewrite (report_failure_healthy env _ _ Hh);
    eexists _, _; (split; [reflexivity|]); unfold report_frames; read_trace;
    rewrite ?app_nil_r; split; reflexivity.
Qed.

Lemma primitive_body_rejected_witness :
  exists f w',
    handler (rt := reference_runtime) (quiet_env (stream_of [] EndOfStream))
      example_module (post (js "42")) initial_world = (Normal (), w')
    /\ channel_calls (trace w')
       = [OpWrite (Text internal_error_frame);
          OpWrite (Text (error_frame (fault_message (Runtime := reference_runtime) f)));
          OpEnd]
    /\ sent_commands (trace w') = [].
Proof.
  apply (primitive_body_rejected (rt := reference_runtime)
           (quiet_env (stream_of [] EndOfStream)) example_module
           (post (js "42")) (VNum (js "42")) initial_world).
  - intros tr op. reflexivity.
  - vm_compute. reflexivity.
  - reflexivity.
Defined.

(** X12: the command sent to the backend depends on the request only
    through its prompt and its sessionId: two requests whose parameters agree
    on these two fields lead to the same command, whatever else they carry. *)
Theorem command_from_prompt_and_session {rt : Runtime} (env : Env) (md : Module)
    (event1 event2 : APIGatewayProxyEvent) (params1 params2 : value) (w : World) :
  opens env ->
  select_params event1 = Normal params1 -> is_object params1 = true ->
  select_params event2 = Normal params2 -> is_object params2 = true ->
  own params1 (js "prompt") = own params2 (js "prompt") ->
  own params1 (js "sessionId") = own params2 (js "sessionId") ->
  sent_commands (trace (snd (handler env md event1 w)))
  = sent_commands (trace (snd (handler env md event2 w))).
Proof.
  intros Hopen Hsel1 Hobj1 Hsel2 Hobj2 Hprompt Hsid.
  destruct (handler_sends_once env md event1 params1 w Hopen Hsel1 Hobj1) as [-> _].
  destruct (handler_sends_once env md event2 params2 w Hopen Hsel2 Hobj2) as [-> _].
  f_equal. f_equal. unfold invoke_command.
  rewrite !own_with_prop by assumption.
  rewrite !own_with_prop_other by discriminate.
  unfold assigned_sessionId. now rewrite Hprompt, Hsid.
Qed.

Lemma command_from_prompt_and_session_witness :
  sent_commands (trace (snd
    (handler (rt := reference_runtime) (quiet_env (stream_of [] EndOfStream))
       example_module
       (post (js "{" ++ dq "prompt" ++ js ":" ++ dq "hi" ++ js ","
                ++ dq "temperature" ++ js ":true}"))
       initial_world)))
  = sent_commands (trace (snd
      (handler (rt := reference_runtime) (quiet_env (stream_of [] EndOfStream))
         example_module (get_query [(js "prompt", js "hi")]) initial_world))).
Proof.
  apply (command_from_prompt_and_session (rt := reference_runtime)
           (quiet_env (stream_of [] EndOfStream)) example_module
           (post (js "{" ++ dq "prompt" ++ js ":" ++ dq "hi" ++ js ","
                    ++ dq "temperature" ++ js ":true}"))
           (get_query [(js "prompt", js "hi")])
           (VObj [(js "prompt", VStr (js "hi")); (js "temperature", VBool true)])
           (VObj [(js "prompt", VStr (js "hi")); (js "sessionId", VUndefined)])
           initial_world).
  - intros tr. reflexivity.
  - vm_compute. reflexivity.
  - reflexivity.
  - vm_compute. reflexivity.
  - reflexivity.
  - vm_compute. reflexivity.
  - vm_compute. reflexivity.
Defined.

(** ** Requests without a body *)

(** X13: a request without a body whose query string has a prompt [p] that
    is not empty is forwarded: one command is sent, its payload is the UTF-8
    encoding of JSON.stringify({prompt: p}), a text that parses back to an
    object whose prompt is [p], and its session identifier is the sessionId
    of the query string when that is not empty, a new UUID otherwise. *)
Theorem query_request_forwarded {rt : Runtime} (env : Env) (md : Module)
    (event : APIGatewayProxyEvent) (p : jsstring) (w : World) :
  opens env ->
  truthy_string (body event) = false ->
  query_parameter event (js "prompt") = Some p -> p <> [] ->
  exists cmd,
    sent_commands (trace (snd (handler env md event w)))
      = sent_commands (trace w) ++ [cmd]
    /\ agentRuntimeArn cmd = agentCoreArn md
    /\ qualifier cmd = js "DEFAULT"
    /\ payload cmd
       = TextEncoder_encode (JSON_stringify (VObj [(js "prompt", VStr p)]))
    /\ json_value (JSON_stringify (VObj [(js "prompt", VStr p)]))
       = Some (VObj [(js "prompt", VStr p)])
    /\ runtimeSessionId cmd
       = match query_parameter event (js "sessionId") with
         | Some (c :: s) => VStr (c :: s)
         | _ => VStr (fresh_uuid env (draws w))
         end.
Proof.
  intros Hopen Hbody Hq Hp.
  assert (Hsel : select_params event
                 = Normal (VObj [(js "prompt", VStr p);
                                 (js "sessionId",
                                  string_or_undefined
                                    (query_parameter event (js "sessionId")))])).
  { unfold select_params. rewrite Hbody, andb_false_r, Hq.
    destruct p; [contradiction | reflexivity]. }
  destruct (handler_sends_once env md event _ w Hopen Hsel eq_refl) as [Hsent _].
  eexists. split; [exact Hsent|].
  split; [reflexivity|]. split; [reflexivity|]. split.
  { unfold invoke_command. cbn [payload].
    rewrite own_with_prop_other by discriminate. reflexivity. }
  split; [now apply json_value_prompt|].
  unfold invoke_command. cbn [runtimeSessionId].
  rewrite own_with_prop by reflexivity. unfold assigned_sessionId.
  destruct (query_parameter event (js "sessionId")) as [[|c s]|]; reflexivity.
Qed.

Lemma query_request_forwarded_witness :
  sent_commands (trace (snd
    (handler (rt := reference_runtime) (quiet_env (stream_of [] EndOfStream))
       example_module
       (get_query [(js "prompt", js "hi"); (js "sessionId", js "abc")])
       initial_world)))
  = [{| agentRuntimeArn := agentCoreArn example_module;
        runtimeSessionId := VStr (js "abc");
        payload := js "{" ++ dq "prompt" ++ js ":" ++ dq "hi" ++ js "}";
        qualifier := js "DEFAULT" |}].
Proof.
  destruct (query_request_forwarded (rt := reference_runtime)
              (quiet_env (stream_of [] EndOfStream)) example_module
              (get_query [(js "prompt", js "hi"); (js "sessionId", js "abc")])
              (js "hi") initial_world)
    as (cmd & Hsent & Harn & Hq & Hpayload & _ & Hsid).
  - intros tr. reflexivity.
  - reflexivity.
  - vm_compute. reflexivity.
  - discriminate.
  - rewrite Hsent. destruct cmd as [arn sid pl q]. simpl in *.
    subst arn sid pl q. vm_compute. reflexivity.
Defined.

(** X14: a request with neither a body nor a prompt in its query string is
    forwarded with the default prompt, and its session identifier is always a
    new UUID: a sessionId given in the query string without a prompt is not
    used, and neither is the base64 mark. *)
Theorem default_prompt_forwarded {rt : Runtime} (env : Env) (md : Module)
    (event : APIGatewayProxyEvent) (w : World) :
  opens env ->
  truthy_string (body event) = false ->
  truthy_string (query_parameter event (js "prompt")) = false ->
  exists cmd,
    sent_commands (trace (snd (handler env md event w)))
      = sent_commands (trace w) ++ [cmd]
    /\ payload cmd
       = TextEncoder_encode (JSON_stringify (VObj [(js "prompt", VStr default_prompt)]))
    /\ json_value (JSON_stringify (VObj [(js "prompt", VStr default_prompt)]))
       = Some (VObj [(js "prompt", VStr default_prompt)])
    /\ runtimeSessionId cmd = VStr (fresh_uuid env (draws w))
    /\ draws (snd (handler env md event w)) = S (draws w).
Proof.
  intros Hopen Hbody Hq.
  assert (Hsel : select_params event = Normal (VObj [(js "prompt", VStr default_prompt)])).
  { unfold select_params. now rewrite Hbody, andb_false_r, Hq. }
  destruct (handler_sends_once env md event _ w Hopen Hsel eq_refl) as [Hsent Hdraws].
  eexists. split; [exact Hsent|]. split.
  { unfold invoke_command. cbn [payload].
    rewrite own_with_prop_other by discriminate. reflexivity. }
  split; [now apply json_value_prompt|]. split.
  - unfold invoke_command. cbn [runtimeSessionId].
    rewrite own_with_prop by reflexivity. reflexivity.
  - rewrite Hdraws. reflexivity.
Qed.

Lemma default_prompt_forwarded_witness :
  exists cmd,
    sent_commands (trace (snd
      (handler (rt := reference_runtime) (quiet_env (stream_of [] EndOfStream))
         example_module (get_query [(js "sessionId", js "abc")]) initial_world)))
    = [cmd]
    /\ runtimeSessionId cmd = VStr (js "abababab-abab-4bab-abab-abababababab").
Proof.
  destruct (default_prompt_forwarded (rt := reference_runtime)
              (quiet_env (stream_of [] EndOfStream)) example_module
              (get_query [(js "sessionId", js "abc")]) initial_world)
    as (cmd & Hsent & _ & _ & Hsid & _).
  - intros tr. reflexivity.
  - reflexivity.
  - vm_compute. reflexivity.
  - exists cmd. split; [exact Hsent|]. rewrite Hsid. vm_compute. reflexivity.
Defined.

(** ** Well-formed error frames *)

Lemma split_records_step (c d : N) (r cur : jsstring) :
  (c =? c_lf) = false ->
  split_records cur (c :: d :: r) = split_records (c :: cur) (d :: r).
Proof.
  intros Hc.
  change (split_records cur (c :: d :: r))
    with (if (c =? c_lf) && (d =? c_lf) then rev cur :: split_records [] r
          else split_records (c :: cur) (d :: r)).
  now rewrite Hc.
Qed.

Lemma split_records_record (s cur rest : jsstring) :
  forallb (fun c => negb (c =? c_lf)) s = true ->
  split_records cur (s ++ c_lf :: c_lf :: rest)
  = (rev cur ++ s) :: split_records [] rest.
Proof.
  revert cur. induction s as [|c s IH]; intros cur Hs.
  - simpl. now rewrite app_nil_r.
  - simpl in Hs. apply andb_true_iff in Hs as [Hc Hs].
    apply negb_true_iff in Hc.
    change ((c :: s) ++ c_lf :: c_lf :: rest) with (c :: (s ++ c_lf :: c_lf :: rest)).
    destruct (s ++ c_lf :: c_lf :: rest) as [|d r] eqn:Hr.
    { destruct s; discriminate Hr. }
    rewrite (split_records_step c d r cur Hc).
    rewrite (IH (c :: cur) Hs). simpl. now rewrite <- app_assoc.
Qed.

Lemma plain_unit_no_lf (s : jsstring) :
  forallb plain_unit s = true -> forallb (fun c => negb (c =? c_lf)) s = true.
Proof.
  induction s as [|c s IH]; simpl; [reflexivity|].
  intros [Hc Hs]%andb_true_iff. rewrite (IH Hs), andb_true_r.
  unfold plain_unit in Hc. apply andb_true_iff in Hc as [Hc _].
  apply andb_true_iff in Hc as [Hc _]. apply negb_true_iff in Hc.
  apply negb_true_iff. apply N.ltb_ge in Hc. apply N.eqb_neq.
  unfold c_lf. lia.
Qed.

(** X15: for an error whose message has no quote, no backslash and no
    control character, the two frames of a report are read by a consumer as
    exactly two records, each of the form data: <JSON>, the first with the
    error key "Internal server error" and the second with the message. *)
Theorem plain_report_is_two_json_records (message : jsstring) :
  forallb plain_unit message = true ->
  split_records [] (internal_error_frame ++ error_frame message)
  = [js "data: {" ++ dq "error" ++ js ": " ++ dq "Internal server error" ++ js "}";
     js "data: {" ++ dq "error" ++ js ": " ++ [c_quote] ++ message ++ [c_quote]
       ++ js "}"]
  /\ (sse_payload internal_error_frame ≫= json_value)
     = Some (VObj [(js "error", VStr (js "Internal server error"))])
  /\ (sse_payload (error_frame message) ≫= json_value)
     = Some (VObj [(js "error", VStr message)]).
Proof.
  intros Hm. split; [|split; [vm_compute; reflexivity
                             | now apply error_frame_plain_message]].
  set (A := js "data: {" ++ dq "error" ++ js ": " ++ dq "Internal server error"
              ++ js "}").
  set (B := js "data: {" ++ dq "error" ++ js ": " ++ [c_quote] ++ message
              ++ [c_quote] ++ js "}").
  transitivity (split_records [] (A ++ c_lf :: c_lf :: (B ++ c_lf :: c_lf :: []))).
  { f_equal. unfold A, B, internal_error_frame, error_frame, dq.
    rewrite <- !app_assoc. reflexivity. }
  rewrite split_records_record by (vm_compute; reflexivity).
  rewrite split_records_record; [reflexivity|].
  unfold B, dq. rewrite !forallb_app, (plain_unit_no_lf message Hm). reflexivity.
Qed.

Lemma plain_report_is_two_json_records_witness :
  split_records [] (internal_error_frame ++ error_frame (js "throttled"))
  = [js "data: {" ++ dq "error" ++ js ": " ++ dq "Internal server error" ++ js "}";
     js "data: {" ++ dq "error" ++ js ": " ++ dq "throttled" ++ js "}"].
Proof.
  destruct (plain_report_is_two_json_records (js "throttled")) as (Hsplit & _ & _).
  - vm_compute. reflexivity.
  - rewrite Hsplit. reflexivity.
Defined.

(** ** One execution environment *)

(** The record of an accepted request has a session identifier that is
    truthy, whatever the response stream does. *)
Lemma parse_normal_session {rt : Runtime} (env : Env) (event : APIGatewayProxyEvent)
    (r : value) (w w' : World) :
  parseClientRequest env event w = (Normal r, w') ->
  ToBoolean (own r (js "sessionId")) = true.
Proof.
  unfold parseClientRequest. eff.
  destruct (select_params event) as [params|e]; simpl; [|discriminate].
  intros Hrun. pose proof (assign_sessionId_normal env params r w w' Hrun) as Hobj.
  rewrite (assign_sessionId_object env params w Hobj) in Hrun.
  injection Hrun as <- _. rewrite own_with_prop by exact Hobj.
  apply assigned_sessionId_truthy.
Qed.

(** X16: in an execution environment whose module loaded, every command
    that any of the requests sends, whatever the request and whatever its
    stream and backend do, targets the ARN of AGENT_ARN with the qualifier
    DEFAULT and a session identifier that is neither missing nor empty. *)
Theorem every_command_targets_agent_arn {rt : Runtime} (penv : ProcessEnv)
    (requests : list (Env * APIGatewayProxyEvent))
    (results : list (Completion unit * World)) :
  run_lambda penv requests = Served results ->
  forall res cmd,
    In res results -> In cmd (sent_commands (trace (snd res))) ->
    AGENT_ARN penv = Some (agentRuntimeArn cmd)
    /\ qualifier cmd = js "DEFAULT"
    /\ ToBoolean (runtimeSessionId cmd) = true.
Proof.
  unfold run_lambda. destruct (load_module penv) as [md|e] eqn:Hload; [|discriminate].
  intros [= <-].
  intros res cmd Hres Hcmd. apply in_map_iff in Hres as ([env event] & <- & _).
  rewrite (load_module_arn penv md Hload).
  assert (Hall : exists ext,
            trace (snd (handler env md event initial_world))
              = trace initial_world ++ ext
            /\ forall c, In c (sent_commands ext) ->
                 agentRuntimeArn c = agentCoreArn md
                 /\ qualifier c = js "DEFAULT"
                 /\ ToBoolean (runtimeSessionId c) = true).
  { handler_cases env md event initial_world.
    1, 2: read_run Hsteps; intros cm [].
    1, 2, 4, 5, 6:
      read_run Hsteps; intros cm [<-|[]];
      (split; [reflexivity|]); (split; [reflexivity|]);
      exact (parse_normal_session env event r _ _ Hp).
    simpl. rewrite sent_commands_app, sent_commands_relayed. simpl.
    intros cm [<-|[]]. split; [reflexivity|]. split; [reflexivity|].
    exact (parse_normal_session env event r _ _ Hp). }
  destruct Hall as (ext & Htrace & Hall).
  rewrite Htrace in Hcmd. simpl in Hcmd.
  destruct (Hall cmd Hcmd) as (-> & Hq & Hsid). auto.
Qed.

Lemma every_command_targets_agent_arn_witness :
  Forall (fun res =>
            Forall (fun cmd => agentRuntimeArn cmd = agentCoreArn example_module)
              (sent_commands (trace (snd res))))
    (map (fun '(env, event) =>
            handler (rt := reference_runtime) env example_module event initial_world)
       [(quiet_env (stream_of [[65]] EndOfStream), bare_request);
        (broken_env, post (js "{}"))]).
Proof.
  apply List.Forall_forall. intros res Hres.
  apply List.Forall_forall. intros cmd Hcmd.
  destruct (every_command_targets_agent_arn (rt := reference_runtime)
              {| AGENT_ARN := Some (agentCoreArn example_module); AWS_REGION := None |}
              [(quiet_env (stream_of [[65]] EndOfStream), bare_request);
               (broken_env, post (js "{}"))]
              _ eq_refl res cmd Hres Hcmd) as ([= Harn] & _).
  symmetry. exact Harn.
Defined.
